(** * Verification of selected behaviours of the Ontolearn retrieval/caching code

    The development embeds, function by function, the Python code of
    - [ontolearn/semantic_caching.py]  (CacheWithEviction, the caching wrapper),
    - [ontolearn/knowledge_base.py]    (encode_learning_problem),
    - [ontolearn/concept_learner.py]   (CELOE.next_node_to_expand, the Drill stubs),
    - [ontolearn/search.py]            (nodes, SearchTreePriorityQueue.add_node),
    - [ontolearn/triple_store.py]      (unwrap, send_http_request_to_ts_and_fetch_results),
    - [ontolearn/utils/static_funcs.py] (compute_f1_score).

    Python values that can fail are embedded in the error monad [res];
    objects that are mutated are threaded explicitly. *)

From Stdlib Require Import ZArith NArith QArith Lia Bool Ascii String.
From stdpp Require Import base option list strings gmap sets sorting.

(** ** Python exceptions and the error monad *)

Inductive exn : Type :=
  | KeyError
  | IndexError
  | TypeError
  | AssertionError
  | ZeroDivisionError
  | ValueError (msg : string)
  | AttributeError (attr : string)
  | NotImplementedError (msg : string)
  | RequestException (msg : string)
  | JSONDecodeError (msg : string).

Inductive res (A : Type) : Type :=
  | Ret (a : A)
  | Raise (e : exn).
Arguments Ret {A} a.
Arguments Raise {A} e.

#[global] Instance res_ret : MRet res := fun _ a => Ret a.
#[global] Instance res_bind : MBind res := fun _ _ f m =>
  match m with
  | Ret a => f a
  | Raise e => Raise e
  end.

(** [assert c] *)
Definition py_assert (c : bool) : res unit :=
  if c then Ret tt else Raise AssertionError.

Definition raises {A} (r : res A) : Prop := ∃ e, r = Raise e.
Definition returns {A} (r : res A) : Prop := ∃ a, r = Ret a.

(** Python floats that only ever hold ratios of small counts or
    timestamps are represented by rationals. *)
Definition Qltb (x y : Q) : bool := negb (Qle_bool y x).

(** ** Insertion-ordered dictionaries ([dict], [OrderedDict])

    A dictionary is the list of its items in insertion order. *)
Module PyDict.
Section Dict.
Context {K V : Type} `{EqDecision K}.

Definition dict := list (K * V).

Definition keys (d : dict) : list K := d.*1.

(** [key in d] *)
Definition contains (d : dict) (k : K) : bool := bool_decide (k ∈ keys d).

(** [d.get(key)] *)
Fixpoint get (d : dict) (k : K) : option V :=
  match d with
  | [] => None
  | (k', v) :: d' => if decide (k' = k) then Some v else get d' k
  end.

Fixpoint remove (d : dict) (k : K) : dict :=
  match d with
  | [] => []
  | (k', v) :: d' => if decide (k' = k) then d' else (k', v) :: remove d' k
  end.

(** [del d[key]] *)
Definition del (d : dict) (k : K) : res dict :=
  if contains d k then Ret (remove d k) else Raise KeyError.

(** [d.pop(key, None)] (the popped value is not used by the callers) *)
Definition pop_default (d : dict) (k : K) : dict := remove d k.

(** [d[key] = value]: an existing key keeps its position, a new key
    goes to the end. *)
Fixpoint set (d : dict) (k : K) (v : V) : dict :=
  match d with
  | [] => [(k, v)]
  | (k', v') :: d' =>
      if decide (k' = k) then (k, v) :: d' else (k', v') :: set d' k v
  end.

(** [OrderedDict.popitem(last=False)] *)
Definition popitem_first (d : dict) : res dict :=
  match d with
  | [] => Raise KeyError
  | _ :: d' => Ret d'
  end.

(** [OrderedDict.popitem(last=True)] *)
Definition popitem_last (d : dict) : res dict :=
  match d with
  | [] => Raise KeyError
  | _ => Ret (removelast d)
  end.

End Dict.
End PyDict.

(** ** [CacheWithEviction] (ontolearn/semantic_caching.py) *)
Module SemanticCaching.
Section Cache.
Context {K V : Type} `{EqDecision K}.

(** [random.seed(seed)] followed by [random.choice(l)] is a deterministic
    function of the seed and of the length of [l]; [rand_index seed n]
    is the number drawn for a list of length [n]. *)
Variable rand_index : Z → nat → nat.

Record CacheWithEviction : Type := mkCache {
  cache : list (K * V);          (* OrderedDict, oldest item first *)
  access_times : list (K * Q);   (* dict of last access times *)
  cache_size : Z;
  strategy : string;
  random_seed : Z;
  initialized : bool;
}.

(** [CacheWithEviction.__init__] *)
Definition init (size : Z) (strat : string) (seed : Z) : CacheWithEviction :=
  {| cache := []; access_times := []; cache_size := size;
     strategy := strat; random_seed := seed; initialized := false |}.

Definition with_cache (self : CacheWithEviction) (c : list (K * V)) :=
  {| cache := c; access_times := access_times self;
     cache_size := cache_size self; strategy := strategy self;
     random_seed := random_seed self; initialized := initialized self |}.

Definition with_access_times (self : CacheWithEviction) (a : list (K * Q)) :=
  {| cache := cache self; access_times := a;
     cache_size := cache_size self; strategy := strategy self;
     random_seed := random_seed self; initialized := initialized self |}.

Definition with_initialized (self : CacheWithEviction) (b : bool) :=
  {| cache := cache self; access_times := access_times self;
     cache_size := cache_size self; strategy := strategy self;
     random_seed := random_seed self; initialized := b |}.

(** [min(d, key=d.get)] and [max(d, key=d.get)]: the first key, in
    iteration order, whose value is minimal (maximal). *)
Fixpoint arg_best (better : Q → Q → bool) (best : K * Q) (d : list (K * Q)) : K :=
  match d with
  | [] => best.1
  | (k, t) :: d' =>
      if better t best.2 then arg_best better (k, t) d'
      else arg_best better best d'
  end.

Definition py_min_key (d : list (K * Q)) : res K :=
  match d with
  | [] => Raise (ValueError "min() arg is an empty sequence")
  | x :: d' => Ret (arg_best Qltb x d')
  end.

Definition py_max_key (d : list (K * Q)) : res K :=
  match d with
  | [] => Raise (ValueError "max() arg is an empty sequence")
  | x :: d' => Ret (arg_best (λ t b, Qltb b t) x d')
  end.

(** [random.seed(seed); random.choice(l)] *)
Definition random_choice (seed : Z) (l : list K) : res K :=
  match l !! (rand_index seed (length l) mod length l) with
  | Some k => Ret k
  | None => Raise IndexError
  end.

(** [self.strategy in ['LRU', 'MRU']] *)
Definition tracks_access (self : CacheWithEviction) : bool :=
  String.eqb (strategy self) "LRU" || String.eqb (strategy self) "MRU".

(** [CacheWithEviction._evict] *)
Definition _evict (self : CacheWithEviction) : res CacheWithEviction :=
  if (Z.of_nat (length (cache self)) >? cache_size self)%Z then
    if String.eqb (strategy self) "FIFO" then
      c ← PyDict.popitem_first (cache self); Ret (with_cache self c)
    else if String.eqb (strategy self) "LIFO" then
      c ← PyDict.popitem_last (cache self); Ret (with_cache self c)
    else if String.eqb (strategy self) "LRU" then
      lru_key ← py_min_key (access_times self);
      c ← PyDict.del (cache self) lru_key;
      a ← PyDict.del (access_times self) lru_key;
      Ret (with_access_times (with_cache self c) a)
    else if String.eqb (strategy self) "MRU" then
      mru_key ← py_max_key (access_times self);
      c ← PyDict.del (cache self) mru_key;
      a ← PyDict.del (access_times self) mru_key;
      Ret (with_access_times (with_cache self c) a)
    else if String.eqb (strategy self) "RP" then
      random_key ← random_choice (random_seed self) (PyDict.keys (cache self));
      c ← PyDict.del (cache self) random_key;
      Ret (with_access_times (with_cache self c)
             (PyDict.pop_default (access_times self) random_key))
    else Ret self
  else Ret self.

(** [CacheWithEviction.get]; [now] is the value of [time.time()]. *)
Definition get (self : CacheWithEviction) (now : Q) (key : K)
  : option V * CacheWithEviction :=
  if PyDict.contains (cache self) key then
    (PyDict.get (cache self) key,
     if tracks_access self
     then with_access_times self (PyDict.set (access_times self) key now)
     else self)
  else (None, self).

(** [CacheWithEviction.put]; [now] is the value of [time.time()]. *)
Definition put (self : CacheWithEviction) (now : Q) (key : K) (value : V)
  : res CacheWithEviction :=
  s1 ← (if PyDict.contains (cache self) key
        then c ← PyDict.del (cache self) key; Ret (with_cache self c)
        else Ret self);
  s2 ← _evict s1;
  let s3 := with_cache s2 (PyDict.set (cache s2) key value) in
  if tracks_access s3
  then Ret (with_access_times s3 (PyDict.set (access_times s3) key now))
  else Ret s3.

(** [CacheWithEviction.get_all_items] *)
Definition get_all_items (self : CacheWithEviction) : list K :=
  PyDict.keys (cache self).

(** Attribute lookup on an instance: the instance dictionary holds the
    six names bound by [__init__]; the class supplies the methods. *)
Inductive attr_value : Type :=
  | AttrCache (c : list (K * V))
  | AttrTimes (a : list (K * Q))
  | AttrInt (z : Z)
  | AttrStr (s : string)
  | AttrBool (b : bool)
  | AttrMethod (name : string).

Definition instance_dict (self : CacheWithEviction) : list (string * attr_value) :=
  [ ("cache", AttrCache (cache self));
    ("access_times", AttrTimes (access_times self));
    ("cache_size", AttrInt (cache_size self));
    ("strategy", AttrStr (strategy self));
    ("random_seed", AttrInt (random_seed self));
    ("initialized", AttrBool (initialized self)) ].

Definition class_methods : list string :=
  [ "__init__"; "_evict"; "get"; "put"; "initialize_cache";
    "get_all_items"; "is_full" ].

Definition instance_attributes : list string :=
  [ "cache"; "access_times"; "cache_size"; "strategy"; "random_seed";
    "initialized" ].

Definition getattr (self : CacheWithEviction) (name : string) : res attr_value :=
  match PyDict.get (instance_dict self) name with
  | Some v => Ret v
  | None =>
      if bool_decide (name ∈ class_methods) then Ret (AttrMethod name)
      else Raise (AttributeError name)
  end.

(** [CacheWithEviction.is_full]: [len(self.cache) >= self.max_size] *)
Definition is_full (self : CacheWithEviction) : res bool :=
  let n := Z.of_nat (length (cache self)) in
  m ← getattr self "max_size";
  match m with
  | AttrInt z => Ret (n >=? z)%Z
  | _ => Raise TypeError
  end.

(** The eviction strategies the class implements. *)
Definition five_strategies : list string := ["FIFO"; "LIFO"; "LRU"; "MRU"; "RP"].

(** A run of [put] calls, each with its own clock reading. *)
Fixpoint put_all (self : CacheWithEviction) (ops : list (Q * K * V))
  : res CacheWithEviction :=
  match ops with
  | [] => Ret self
  | (now, k, v) :: ops' => s ← put self now k v; put_all s ops'
  end.
End Cache.
End SemanticCaching.

(** ** [KnowledgeBase.encode_learning_problem] (ontolearn/knowledge_base.py) *)
Module KB.
Section Encode.
Context {Ind : Type} `{Countable Ind}.

(** The part of a [KnowledgeBase] the encoding reads: the cached set of
    all individuals, the individuals of the ontology signature, and the
    number of classes of the class hierarchy. *)
Record KnowledgeBase : Type := mkKB {
  _ind_set : option (gset Ind);
  individuals_in_signature : list Ind;
  class_hierarchy_len : nat;
}.

(** [PosNegLPStandard]: the examples are sized iterables of individuals. *)
Record PosNegLPStandard : Type := mkLP {
  pos : list Ind;
  neg : list Ind;
  all : option (list Ind);
}.

Record EncodedPosNegLPStandard : Type := mkELP {
  kb_pos : gset Ind;
  kb_neg : gset Ind;
  kb_all : gset Ind;
  kb_diff : gset Ind;
}.

(** [KnowledgeBase.individuals_set] on an iterable of individuals:
    [frozenset(arg)] *)
Definition individuals_set (arg : list Ind) : gset Ind := list_to_set arg.

(** [KnowledgeBase.all_individuals_set] *)
Definition all_individuals_set (self : KnowledgeBase) : gset Ind :=
  match _ind_set self with
  | Some s => s
  | None => list_to_set (individuals_in_signature self)
  end.

(** [random.sample(population, k)]: [k] draws without replacement; [rnd]
    is the sequence of raw numbers produced by the generator, the i-th
    one being reduced to a position of what is left of the population. *)
Fixpoint sample_from (pool : list Ind) (k : nat) (rnd : list nat) : list Ind :=
  match k with
  | O => []
  | S k' =>
      let i := (hd 0 rnd mod length pool)%nat in
      match pool !! i with
      | Some x => x :: sample_from (delete i pool) k' (tl rnd)
      | None => []
      end
  end.

Definition random_sample (pool : list Ind) (k : nat) (rnd : list nat)
  : res (list Ind) :=
  if (k <=? length pool)%nat then Ret (sample_from pool k rnd)
  else Raise (ValueError "Sample larger than population or is negative").

(** The universe the problem is encoded against. *)
Definition universe (self : KnowledgeBase) (lp : PosNegLPStandard) : gset Ind :=
  match all lp with
  | None => all_individuals_set self
  | Some a => individuals_set a
  end.

(** [KnowledgeBase.encode_learning_problem] for [PosNegLPStandard] *)
Definition encode_learning_problem (self : KnowledgeBase) (lp : PosNegLPStandard)
    (rnd : list nat) : res EncodedPosNegLPStandard :=
  py_assert (0 <? class_hierarchy_len self)%nat;;
  let kb_all := universe self lp in
  py_assert ((0 <? length (pos lp))%nat && (length (pos lp) <? size kb_all)%nat
             && (length (neg lp) <? size kb_all)%nat);;
  let kb_pos := individuals_set (pos lp) in
  kb_neg ← (if (length (neg lp) =? 0)%nat
            then s ← random_sample (elements kb_all) (size kb_pos) rnd;
                 Ret (list_to_set s)
            else Ret (individuals_set (neg lp)));
  py_assert (size kb_pos =? length (pos lp))%nat;;
  (match neg lp with
   | [] => Ret tt
   | _ :: _ => py_assert (size kb_neg =? length (neg lp))%nat
   end);;
  Ret {| kb_pos := kb_pos; kb_neg := kb_neg; kb_all := kb_all;
         kb_diff := kb_all ∖ (kb_pos ∪ kb_neg) |}.
End Encode.
End KB.

(** ** The [Drill] placeholders (ontolearn/concept_learner.py) *)
Module DrillLearner.
Section Drill.
Context {Concept TreeNode Node : Type} `{EqDecision Concept}.

(** What the methods below read of a [Drill] instance.  [verbose] is
    [None] or a number ([True] counts as 1); [search_tree] is the [dict]
    that [Drill.__init__] assigns. *)
Record Drill : Type := mkDrill {
  verbose : option Z;
  search_tree : list (Concept * TreeNode);
  start_class : Concept;
}.

(** An expression statement: the value is computed and dropped. *)
Definition expr_stmt {A : Type} (_ : A) : res unit := Ret tt.

(** [ValueError(msg)]: building the exception object (not raising it). *)
Definition ValueError_object (msg : string) : exn := ValueError msg.

(** A function body that ends without [return] returns [None], here [tt]. *)
Definition best_hypotheses (self : Drill) (n : Z) : res unit :=
  expr_stmt (ValueError_object "best_hypotheses").

Definition clean (self : Drill) : res unit :=
  expr_stmt (ValueError_object "clean").

Definition downward_refinement {Args : Type} (self : Drill) (args : Args) : res unit :=
  expr_stmt (ValueError_object "downward_refinement").

Definition fit {Args : Type} (self : Drill) (args : Args) : res unit :=
  expr_stmt (ValueError_object "fit").

Definition show_search_tree (self : Drill) (heading_step : string) (top_n : Z)
  : res unit :=
  expr_stmt (ValueError_object "show_search_tree").

Definition terminate_training (self : Drill) : res unit :=
  expr_stmt (ValueError_object "terminate_training").

(** Attributes of a built-in [dict] object. *)
Definition dict_attributes : list string :=
  [ "clear"; "copy"; "fromkeys"; "get"; "items"; "keys"; "pop"; "popitem";
    "setdefault"; "update"; "values" ].

Definition dict_getattr (name : string) : res string :=
  if bool_decide (name ∈ dict_attributes) then Ret name
  else Raise (AttributeError name).

(** [self.verbose > 1] *)
Definition verbose_gt_1 (self : Drill) : res bool :=
  match verbose self with
  | None => Raise TypeError
  | Some v => Ret (v >? 1)%Z
  end.

(** [Drill.next_node_to_expand]; [call m] stands for calling the bound
    method [m] once it has been looked up. *)
Definition next_node_to_expand (call : string → res Node) (self : Drill)
    (t : option Z) : res Node :=
  b ← verbose_gt_1 self;
  (if b : bool
   then m ← dict_getattr "show_search_tree"; call m;; Ret tt
   else Ret tt);;
  m ← dict_getattr "get_most_promising";
  call m.
End Drill.
End DrillLearner.

(** ** [CELOE.next_node_to_expand] (ontolearn/concept_learner.py) with the
    nodes and comparators of ontolearn/search.py *)
Module CELOE.
Section Celoe.
Context {Concept : Type}.

(** [OrderedOWLObject(as_index(c1)) < OrderedOWLObject(as_index(c2))] *)
Variable concept_lt : Concept → Concept → bool.

(** [OENode]: the slots the search reads. *)
Record OENode : Type := mkOENode {
  concept : Concept;
  len : nat;
  quality : option Q;
  heuristic : option Q;
  h_exp : nat;
  refinement_count : nat;
}.

(** [x < y] where [x] may be [None] and [y] is a float *)
Definition py_lt_float (x : option Q) (y : Q) : res bool :=
  match x with
  | None => Raise TypeError
  | Some q => Ret (Qltb q y)
  end.

(** [HeuristicOrderedNode.__lt__] *)
Definition HeuristicOrderedNode_lt (self other : OENode) : res bool :=
  match heuristic self with
  | None => Raise (ValueError "node heuristic not calculated")
  | Some hs =>
      match heuristic other with
      | None => Raise (ValueError "other node heuristic not calculcated")
      | Some ho =>
          if Qltb hs ho then Ret true
          else if Qltb ho hs then Ret false
          else Ret (concept_lt (concept self) (concept other))
      end
  end.

(** The body of [for node in reversed(self.heuristic_queue): ... else: raise],
    given the nodes in the order of iteration. *)
Fixpoint scan (nodes : list OENode) : res OENode :=
  match nodes with
  | [] => Raise (ValueError "No Node with lesser accuracy found")
  | node :: rest =>
      b ← py_lt_float (quality node) 1;
      if b : bool then Ret node else scan rest
  end.

(** [CELOE.next_node_to_expand].  [heuristic_queue] is the content of the
    [SortedSet] in its iteration order, that is ascending in
    [HeuristicOrderedNode]. *)
Definition next_node_to_expand (best_only : bool) (heuristic_queue : list OENode)
    (step : Z) : res OENode :=
  if negb best_only then scan (rev heuristic_queue)
  else match last heuristic_queue with
       | Some node => Ret node
       | None => Raise IndexError
       end.

(** [a] is placed before [b] by the sorted set. *)
Definition placed_before (a b : OENode) : Prop :=
  HeuristicOrderedNode_lt a b = Ret true.

(** The node has been scored. *)
Definition evaluated (n : OENode) : Prop := is_Some (quality n).

(** [n.quality < 1.0] holds *)
Definition unsolved (n : OENode) : Prop :=
  ∃ q, quality n = Some q ∧ (q < 1)%Q.

(** the heuristic of [a] is at most that of [b] *)
Definition heuristic_le (a b : OENode) : Prop :=
  ∃ ha hb, heuristic a = Some ha ∧ heuristic b = Some hb ∧ (ha <= hb)%Q.
End Celoe.

(** A queue of three scored nodes over numbered concepts, in ascending
    heuristic order; the best one is already solved. *)
Definition example_queue : list (@OENode nat) :=
  [ mkOENode 1%nat 1 (Some (1 # 2)%Q) (Some (1 # 4)%Q) 1 0;
    mkOENode 2%nat 2 (Some (3 # 4)%Q) (Some (1 # 2)%Q) 2 0;
    mkOENode 3%nat 3 (Some 1%Q) (Some (3 # 4)%Q) 3 0 ].
End CELOE.

(** ** [compute_f1_score] (ontolearn/utils/static_funcs.py) *)
Module StaticFuncs.
Section F1.
Context {Ind : Type} `{Countable Ind}.

(** The two built-in set types; [type(x)] of a set value. *)
Inductive py_set_type : Type := SetType | FrozensetType.

#[global] Instance py_set_type_eq_dec : EqDecision py_set_type.
Proof. solve_decision. Defined.

Record py_set : Type := mkSet {
  type_of : py_set_type;
  elems : gset Ind;
}.

(** [a / b] on integers *)
Definition true_div (a b : nat) : res Q :=
  if (b =? 0)%nat then Raise ZeroDivisionError
  else Ret (Z.of_nat a # Pos.of_nat b).

(** [try: x = e  except ZeroDivisionError: return 0.0], followed by [k x] *)
Definition try_div (e : res Q) (k : Q → res Q) : res Q :=
  match e with
  | Ret x => k x
  | Raise ZeroDivisionError => Ret 0%Q
  | Raise other => Raise other
  end.

(** [compute_tp_fn_fp_tn] *)
Definition compute_tp_fn_fp_tn (individuals pos neg : py_set)
  : nat * nat * nat * nat :=
  let tp := size (elems pos ∩ elems individuals) in
  let tn := size (elems neg ∖ elems individuals) in
  let fp := size (elems neg ∩ elems individuals) in
  let fn := size (elems pos ∖ elems individuals) in
  (tp, fn, fp, tn).

(** [compute_f1_score] *)
Definition compute_f1_score (individuals pos neg : py_set) : res Q :=
  py_assert (bool_decide (type_of individuals = type_of pos)
             && bool_decide (type_of pos = type_of neg));;
  let tp := size (elems pos ∩ elems individuals) in
  let tn := size (elems neg ∖ elems individuals) in
  let fp := size (elems neg ∩ elems individuals) in
  let fn := size (elems pos ∖ elems individuals) in
  try_div (true_div tp (tp + fn)) (λ recall,
  try_div (true_div tp (tp + fp)) (λ precision,
  if Qeq_bool precision 0 || Qeq_bool recall 0 then Ret 0%Q
  else Ret (2 * ((precision * recall) / (precision + recall)))%Q)).
End F1.

(** Example arguments over numbered individuals. *)
Definition empty_set_value : @py_set nat _ _ := mkSet SetType (∅ : gset nat).
Definition empty_frozenset : @py_set nat _ _ := mkSet FrozensetType (∅ : gset nat).
Definition frozenset_of (l : list nat) : @py_set nat _ _ :=
  mkSet FrozensetType (list_to_set l).
End StaticFuncs.


(** ** Unwrapping of SPARQL results (ontolearn/triple_store.py) *)
Module TripleStore.

(** One entry of a row of [results.bindings]: the JSON object
    [{"type": ..., "value": ..., "datatype": ...}], [datatype] optional. *)
Record binding : Type := mkBinding {
  b_type : string;
  b_value : string;
  b_datatype : option string;
}.

(** A row maps variable names to bindings. *)
Definition row : Type := list (string * binding).

(** The objects that the unwrapping builds. *)
Inductive py_obj : Type :=
  | IRI_create (s : string)                        (* IRI.create(s) *)
  | OWLLiteral (value : string) (datatype : py_obj) (* OWLLiteral(v, d) *)
  | OWLDatatype (iri : py_obj)                     (* OWLDatatype(iri) *)
  | Instance (return_type : string) (arg : py_obj)  (* return_type(arg) *)
  | PyNone.

(** What a finished or interrupted generator has produced: the items
    yielded, in order, and the exception that ended it, if any. *)
Definition trace : Type := list py_obj * option exn.

(** The inner loop [for v in vars_] of [unwrap], on the list [val]. *)
Fixpoint collect (vars_ : list string) (b : row) (val : list py_obj)
  : res (list py_obj) :=
  match vars_ with
  | [] => Ret val
  | v :: rest =>
      match PyDict.get b v with
      | None => Raise KeyError
      | Some bv =>
          if String.eqb (b_type bv) "uri" then
            collect rest b (val ++ [IRI_create (b_value bv)])
          else if String.eqb (b_type bv) "bnode" then
            collect rest b val
          else if String.eqb (b_type bv) "literal" then
            match b_datatype bv with
            | Some dt =>
                collect rest b
                  (val ++ [OWLLiteral (b_value bv) (OWLDatatype (IRI_create dt))])
            | None => collect rest b val
            end
          else
            Raise (NotImplementedError
                     "Seems like this kind of data is not handled")
      end
  end.

(** [if len(val) == 1: yield val.pop() else: yield None] *)
Definition row_item (val : list py_obj) : py_obj :=
  match val with
  | [x] => x
  | _ => PyNone
  end.

(** The outer loop of [unwrap] over [results.bindings]. *)
Fixpoint unwrap_rows (vars_ : list string) (bindings : list row) : trace :=
  match bindings with
  | [] => ([], None)
  | b :: rest =>
      match collect vars_ b [] with
      | Raise e => ([], Some e)
      | Ret val =>
          let '(items, e) := unwrap_rows vars_ rest in
          (row_item val :: items, e)
      end
  end.

(** An HTTP response: its body parses as SPARQL JSON results or not. *)
Inductive response : Type :=
  | Json (vars_ : list string) (bindings : list row)
  | NotJson.

(** [unwrap] *)
Definition unwrap (result : response) : trace :=
  match result with
  | NotJson => ([], Some (JSONDecodeError "Expecting value"))
  | Json vars_ bindings => unwrap_rows vars_ bindings
  end.

(** [x is not None] *)
Definition is_not_None (x : py_obj) : bool :=
  match x with
  | PyNone => false
  | _ => true
  end.

(** The [except JSONDecodeError] clause: the error is raised again with
    the address of the store in its message. *)
Definition reraise_json (e : exn) : exn :=
  match e with
  | JSONDecodeError _ =>
      JSONDecodeError "Something went wrong with decoding JSON from the response."
  | other => other
  end.

(** [send_http_request_to_ts_and_fetch_results]; [post] is the outcome of
    [requests.post]. *)
Definition send_http_request_to_ts_and_fetch_results (post : res response)
    (return_type : string) : trace :=
  match post with
  | Raise (RequestException _) =>
      ([], Some (RequestException "Make sure the server is running"))
  | Raise other => ([], Some other)
  | Ret resp =>
      if String.eqb return_type "OWLLiteral" then
        let '(items, e) := unwrap resp in (items, reraise_json <$> e)
      else
        match unwrap resp with
        | (items, None) =>
            (Instance return_type <$> filter (λ i, is_not_None i = true) items, None)
        | (_, Some e) => ([], Some (reraise_json e))
        end
  end.

(** *** Vocabulary of the statements *)

(** The value a single binding contributes to [val], if any. *)
Definition binding_value (bv : binding) : option py_obj :=
  if String.eqb (b_type bv) "uri" then Some (IRI_create (b_value bv))
  else if String.eqb (b_type bv) "literal" then
    match b_datatype bv with
    | Some dt => Some (OWLLiteral (b_value bv) (OWLDatatype (IRI_create dt)))
    | None => None
    end
  else None.

(** The kinds of binding that [unwrap] handles. *)
Definition handled (bv : binding) : bool :=
  String.eqb (b_type bv) "uri" || String.eqb (b_type bv) "bnode"
  || String.eqb (b_type bv) "literal".

(** Every variable of the head is bound in the row, to a handled kind. *)
Definition row_ok (vars_ : list string) (b : row) : Prop :=
  ∀ v, v ∈ vars_ → ∃ bv, PyDict.get b v = Some bv ∧ handled bv = true.



(** Example rows. *)
Definition uri_binding (s : string) : binding := mkBinding "uri" s None.
Definition typed_literal (s dt : string) : binding := mkBinding "literal" s (Some dt).
Definition plain_literal (s : string) : binding := mkBinding "literal" s None.
End TripleStore.

(** ** [SearchTreePriorityQueue.add_node] (ontolearn/search.py) *)
Module SearchTree.
Section PriorityQueue.
Context {Concept : Type} `{Countable Concept}.

(** Nodes are shared mutable objects: they live in a store and are
    referred to by reference. *)
Definition node_ref : Type := nat.

(** [LBLNode]: the slots that [add_node] reads or writes. *)
Record LBLNode : Type := mkLBLNode {
  concept : Concept;
  _quality : option Q;
  _heuristic : option Q;
  _parent_ref : option node_ref;
  _children : gset node_ref;
}.

(** [SearchTreePriorityQueue]: the index [nodes] and the entries put into
    [items_in_queue], in the order they were put. *)
Record SearchTreePriorityQueue : Type := mkTree {
  nodes : gmap Concept node_ref;
  items_in_queue : list (Q * node_ref);
}.

Record world : Type := mkWorld {
  store : gmap node_ref LBLNode;
  tree : SearchTreePriorityQueue;
}.

(** The value that [quality_func] computes for a node, and the value
    that [heuristic_func] computes for it (they may look at the node,
    at its parent, at the learning problem). *)
Variable quality_score : gmap node_ref LBLNode → node_ref → Q.
Variable heuristic_score : gmap node_ref LBLNode → node_ref → Q.

(** State and exceptions: a step maps a world to a new world and an outcome. *)
Definition M (A : Type) : Type := world → world * res A.

#[global] Instance M_ret : MRet M := λ _ a w, (w, Ret a).
#[global] Instance M_bind : MBind M := λ _ _ f m w,
  match m w with
  | (w', Ret a) => f a w'
  | (w', Raise e) => (w', Raise e)
  end.

Definition raise {A : Type} (e : exn) : M A := λ w, (w, Raise e).

Definition load (r : node_ref) : M LBLNode := λ w,
  match store w !! r with
  | Some n => (w, Ret n)
  | None => (w, Raise (AttributeError "'NoneType' object"))
  end.

Definition save (r : node_ref) (n : LBLNode) : M unit := λ w,
  ({| store := <[r := n]> (store w); tree := tree w |}, Ret tt).

Definition get_tree : M SearchTreePriorityQueue := λ w, (w, Ret (tree w)).

Definition put_tree (t : SearchTreePriorityQueue) : M unit := λ w,
  ({| store := store w; tree := t |}, Ret tt).

Definition get_store : M (gmap node_ref LBLNode) := λ w, (w, Ret (store w)).

(** [_NodeQuality.quality] setter *)
Definition set_quality (r : node_ref) (v : Q) : M unit :=
  n ← load r;
  match _quality n with
  | Some _ => raise (ValueError "Node already evaluated")
  | None =>
      save r {| concept := concept n; _quality := Some v;
                _heuristic := _heuristic n; _parent_ref := _parent_ref n;
                _children := _children n |}
  end.

(** [_NodeHeuristic.heuristic] setter *)
Definition set_heuristic (r : node_ref) (v : option Q) : M unit :=
  n ← load r;
  match v, _heuristic n with
  | Some _, Some _ => raise (ValueError "Node heuristic already calculated")
  | _, _ =>
      save r {| concept := concept n; _quality := _quality n;
                _heuristic := v; _parent_ref := _parent_ref n;
                _children := _children n |}
  end.

(** Modelled from the spec: [quality_func.apply(node, individuals, lp)]
    of the scorer classes (ontolearn/metrics.py and abstracts.py are not
    part of the sources at hand) computes the score of the node and
    assigns it to [node.quality]. *)
Definition quality_func_apply (r : node_ref) : M unit :=
  s ← get_store;
  set_quality r (quality_score s r).

(** Modelled from the spec: [heuristic_func.apply(node, individuals, lp)]
    of the heuristic classes (ontolearn/heuristics.py is not part of the
    sources at hand) computes the heuristic of the node and assigns it to
    [node.heuristic]; this is why [OENode.increment_h_exp] clears
    [_heuristic] before CELOE applies the heuristic again. *)
Definition heuristic_func_apply (r : node_ref) : M unit :=
  s ← get_store;
  set_heuristic r (Some (heuristic_score s r)).

(** [LBLNode.remove_child]: [set.remove] *)
Definition remove_child (p r : node_ref) : M unit :=
  n ← load p;
  if bool_decide (r ∈ _children n) then
    save p {| concept := concept n; _quality := _quality n;
              _heuristic := _heuristic n; _parent_ref := _parent_ref n;
              _children := _children n ∖ {[r]} |}
  else raise KeyError.

(** [LBLNode.add_child]: [set.add] *)
Definition add_child (p r : node_ref) : M unit :=
  n ← load p;
  save p {| concept := concept n; _quality := _quality n;
            _heuristic := _heuristic n; _parent_ref := _parent_ref n;
            _children := _children n ∪ {[r]} |}.

(** [LBLNode.parent_node] setter *)
Definition set_parent_node (r p : node_ref) : M unit :=
  n ← load r;
  save r {| concept := concept n; _quality := _quality n;
            _heuristic := _heuristic n; _parent_ref := Some p;
            _children := _children n |}.

(** [self.items_in_queue.put((-node.heuristic, HeuristicOrderedNode(node)))] *)
Definition queue_put (r : node_ref) : M unit :=
  n ← load r;
  match _heuristic n with
  | None => raise TypeError
  | Some h =>
      t ← get_tree;
      put_tree {| nodes := nodes t;
                  items_in_queue := items_in_queue t ++ [((- h)%Q, r)] |}
  end.

(** [self.nodes[node.concept] = node] *)
Definition index_node (r : node_ref) : M unit :=
  n ← load r;
  t ← get_tree;
  put_tree {| nodes := <[concept n := r]> (nodes t);
              items_in_queue := items_in_queue t |}.

(** [x > y] on two values that are floats or [None] *)
Definition py_gt (x y : option Q) : M bool :=
  match x, y with
  | Some a, Some b => mret (Qltb b a)
  | _, _ => raise TypeError
  end.

(** [x == c] where [x] is a float or [None] and [c] a number *)
Definition py_eq_num (x : option Q) (c : Q) : bool :=
  match x with
  | Some a => Qeq_bool a c
  | None => false
  end.

(** [SearchTreePriorityQueue.add_node]; the result is [Some true] for
    [True], [Some false] for [False] and [None] for [None]. *)
Definition add_node (node parent_node : node_ref) : M (option bool) :=
  n ← load node;
  t ← get_tree;
  if bool_decide (concept n ∈ dom (nodes t))
     && negb (bool_decide (_parent_ref n = Some parent_node))
  then
    let old_heuristic := _heuristic n in
    heuristic_func_apply node;;
    n1 ← load node;
    let new_heuristic := _heuristic n1 in
    b ← py_gt new_heuristic old_heuristic;
    if b : bool then
      match _parent_ref n1 with
      | None => raise (AttributeError "remove_child")
      | Some old_parent => remove_child old_parent node
      end;;
      set_parent_node node parent_node;;
      add_child parent_node node;;
      queue_put node;;
      index_node node;;
      mret None
    else mret None
  else
    quality_func_apply node;;
    n1 ← load node;
    if py_eq_num (_quality n1) 0 then mret (Some false)
    else
      heuristic_func_apply node;;
      queue_put node;;
      index_node node;;
      add_child parent_node node;;
      n2 ← load node;
      if py_eq_num (_quality n2) 1 then mret (Some true) else mret None.
End PriorityQueue.

(** An example tree over numbered concepts: a root (object 0) with the
    children 1 and 2, all scored and indexed. *)
Definition example_node (c : nat) (parent : option node_ref)
    (children : list node_ref) : @LBLNode nat :=
  mkLBLNode c (Some (1 # 2)%Q) (Some (1 # 2)%Q) parent (list_to_set children).

Definition example_world : @world nat _ _ :=
  {| store := list_to_map [ (0%nat, example_node 0 None [1%nat; 2%nat]);
                            (1%nat, example_node 1 (Some 0%nat) []);
                            (2%nat, example_node 2 (Some 0%nat) []) ];
     tree := {| nodes := list_to_map [(0%nat, 0%nat); (1%nat, 1%nat); (2%nat, 2%nat)];
                items_in_queue := [((- (1 # 2))%Q, 0%nat); ((- (1 # 2))%Q, 1%nat);
                                   ((- (1 # 2))%Q, 2%nat)] |} |}.

(** Scorers that would rate the node higher than before. *)
Definition example_quality (s : gmap node_ref (@LBLNode nat)) (r : node_ref) : Q :=
  (1 # 2)%Q.
Definition example_heuristic (s : gmap node_ref (@LBLNode nat)) (r : node_ref) : Q :=
  (3 # 4)%Q.
End SearchTree.

(** ** Class expressions and their DL rendering

    The expressions come from the owlapy library, and so does
    [owl_expression_to_dl]; the rendering below follows its DL syntax
    renderer for the constructors that the caching wrapper tells apart. *)
Module DL.

(** A Python [str]: its code points. *)
Definition str : Type := list N.

(** An ASCII literal as a [str]. *)
Definition lit (s : string) : str :=
  (λ a, N_of_ascii a) <$> list_ascii_of_string s.

Definition FORALL : N := 8704.   (* ∀ *)
Definition EXISTS : N := 8707.   (* ∃ *)
Definition NOT : N := 172.       (* ¬ *)
Definition AND : N := 8851.      (* ⊓ *)
Definition OR : N := 8852.       (* ⊔ *)
Definition INVERSE : N := 8315.  (* ⁻ *)
Definition SPACE : N := 32.
Definition DOT : N := 46.
Definition LPAREN : N := 40.
Definition RPAREN : N := 41.

Inductive OWLObjectPropertyExpression : Type :=
  | OWLObjectProperty (name : str)
  | OWLObjectInverseOf (name : str).

Inductive OWLClassExpression : Type :=
  | OWLClass (name : str)
  | OWLObjectComplementOf (operand : OWLClassExpression)
  | OWLObjectIntersectionOf (operands : list OWLClassExpression)
  | OWLObjectUnionOf (operands : list OWLClassExpression)
  | OWLObjectSomeValuesFrom (property : OWLObjectPropertyExpression)
      (filler : OWLClassExpression)
  | OWLObjectAllValuesFrom (property : OWLObjectPropertyExpression)
      (filler : OWLClassExpression)
  | OWLOther (is_restriction : bool) (rendering : str).
      (* cardinality restrictions, nominals, ...: any other shape *)

(** [sep.join(parts)] *)
Fixpoint join (sep : str) (parts : list str) : str :=
  match parts with
  | [] => []
  | [p] => p
  | p :: rest => p ++ sep ++ join sep rest
  end.

(** Boolean expressions and restrictions are put in parentheses when
    they are nested. *)
Definition needs_parentheses (e : OWLClassExpression) : bool :=
  match e with
  | OWLClass _ => false
  | OWLOther is_restriction _ => is_restriction
  | _ => true
  end.

Definition nested (e : OWLClassExpression) (rendered : str) : str :=
  if needs_parentheses e then [LPAREN] ++ rendered ++ [RPAREN] else rendered.

Definition render_property (p : OWLObjectPropertyExpression) : str :=
  match p with
  | OWLObjectProperty name => name
  | OWLObjectInverseOf name => name ++ [INVERSE]
  end.

(** [owl_expression_to_dl] *)
Fixpoint owl_expression_to_dl (e : OWLClassExpression) : str :=
  match e with
  | OWLClass name => name
  | OWLObjectComplementOf op => [NOT] ++ nested op (owl_expression_to_dl op)
  | OWLObjectIntersectionOf ops =>
      join [SPACE; AND; SPACE] ((λ o, nested o (owl_expression_to_dl o)) <$> ops)
  | OWLObjectUnionOf ops =>
      join [SPACE; OR; SPACE] ((λ o, nested o (owl_expression_to_dl o)) <$> ops)
  | OWLObjectSomeValuesFrom p f =>
      [EXISTS; SPACE] ++ render_property p ++ [DOT]
      ++ nested f (owl_expression_to_dl f)
  | OWLObjectAllValuesFrom p f =>
      [FORALL; SPACE] ++ render_property p ++ [DOT]
      ++ nested f (owl_expression_to_dl f)
  | OWLOther _ rendering => rendering
  end.

(** The existential dual of a universal restriction: [∀r.(¬C)] has the
    dual [∃r.C], and [∀r.C] has the dual [∃r.(¬C)]. *)
Definition existential_dual (p : OWLObjectPropertyExpression)
    (f : OWLClassExpression) : OWLClassExpression :=
  match f with
  | OWLObjectComplementOf c => OWLObjectSomeValuesFrom p c
  | _ => OWLObjectSomeValuesFrom p (OWLObjectComplementOf f)
  end.
End DL.

(** ** The two regular-expression substitutions of
    [transform_forall_to_exists] (ontolearn/semantic_caching.py) *)
Module Regex.
Import DL.
Section Word.

(** Python's [\w] on code points above the ASCII range (the Unicode
    table of alphanumeric characters). *)
Variable unicode_word : N → bool.

(** [\w] *)
Definition is_word (c : N) : bool :=
  if (c <? 128)%N then
    ((48 <=? c) && (c <=? 57) || (65 <=? c) && (c <=? 90)
     || (97 <=? c) && (c <=? 122) || (c =? 95))%N
  else unicode_word c.

(** The longest prefix of word characters, and what follows it. *)
Fixpoint span_word (s : str) : str * str :=
  match s with
  | [] => ([], [])
  | c :: s' =>
      if is_word c then let '(w, rest) := span_word s' in (c :: w, rest)
      else ([], s)
  end.

(** A literal piece of a pattern: [s] has to start with [literal]; what
    follows it is returned. *)
Fixpoint expect (literal : str) (s : str) : option str :=
  match literal with
  | [] => Some s
  | c :: literal' =>
      match s with
      | [] => None
      | x :: s' => if N.eqb x c then expect literal' s' else None
      end
  end.

(** A group [(\w+)]: the longest run of word characters, which has to
    be non-empty.  The group is greedy; in both patterns it is followed
    by a character that is not a word character or by the end of the
    pattern, so that no shorter run can lead to a match. *)
Definition word_group (s : str) : option (str * str) :=
  match span_word s with
  | ([], _) => None
  | (g, rest) => Some (g, rest)
  end.

(** A match of [∀ (\w+)\.\(¬(\w+)\)] at the start of [s]: the two groups
    and the text after the match. *)
Definition match_negated (s : str) : option (str * str * str) :=
  s1 ← expect [FORALL; SPACE] s;
  '(g1, s2) ← word_group s1;
  s3 ← expect [DOT; LPAREN; NOT] s2;
  '(g2, s4) ← word_group s3;
  s5 ← expect [RPAREN] s4;
  Some (g1, g2, s5).

(** A match of [∀ (\w+)\.(\w+)] at the start of [s]. *)
Definition match_non_negated (s : str) : option (str * str * str) :=
  s1 ← expect [FORALL; SPACE] s;
  '(g1, s2) ← word_group s1;
  s3 ← expect [DOT] s2;
  '(g2, s4) ← word_group s3;
  Some (g1, g2, s4).

(** The replacement [∃ \1.\2] *)
Definition replacement_negated (g1 g2 : str) : str :=
  [EXISTS; SPACE] ++ g1 ++ [DOT] ++ g2.

(** The replacement [∃ \1.(¬\2)] *)
Definition replacement_non_negated (g1 g2 : str) : str :=
  [EXISTS; SPACE] ++ g1 ++ [DOT; LPAREN; NOT] ++ g2 ++ [RPAREN].

(** [re.sub]: the text is scanned from the left; where the pattern
    matches, the replacement is written and the scan goes on after the
    match, elsewhere the character is copied.  [fuel] bounds the number
    of steps; the length of the text is enough. *)
Fixpoint sub_from (fuel : nat) (matcher : str → option (str * str * str))
    (replacement : str → str → str) (s : str) : str :=
  match fuel with
  | O => s
  | S fuel' =>
      match s with
      | [] => []
      | c :: s' =>
          match matcher s with
          | Some (g1, g2, rest) =>
              replacement g1 g2 ++ sub_from fuel' matcher replacement rest
          | None => c :: sub_from fuel' matcher replacement s'
          end
      end
  end.

Definition re_sub (matcher : str → option (str * str * str))
    (replacement : str → str → str) (s : str) : str :=
  sub_from (length s) matcher replacement s.

(** A name made of word characters only, and not empty. *)
Definition word_name (s : str) : Prop :=
  s ≠ [] ∧ Forall (λ c, is_word c = true) s.

(** [transform_forall_to_exists] *)
Definition transform_forall_to_exists (expression : str) : str :=
  let transformed_expression :=
    re_sub match_negated replacement_negated expression in
  re_sub match_non_negated replacement_non_negated transformed_expression.
End Word.

(** The table restricted to ASCII, enough for texts whose other
    characters are DL symbols. *)
Definition ascii_only (c : N) : bool := false.
End Regex.

(** ** The caching wrapper [semantic_caching_size]
    (ontolearn/semantic_caching.py) *)
Module Wrapper.
Import DL.
Section Wrapper.
Context {Ind : Type} `{Countable Ind}.

(** The members of a result set: IRI strings, or, where the existential
    resolver adds the ontology object itself, that object. *)
Inductive item : Type :=
  | IriStr (i : Ind)
  | OntologyObject (i : Ind).

#[global] Instance item_eq_dec : EqDecision item.
Proof. solve_decision. Defined.

#[global] Instance item_countable : Countable item.
Proof.
  refine (inj_countable'
            (λ x, match x with IriStr i => inl i | OntologyObject i => inr i end)
            (λ s, match s with inl i => IriStr i | inr i => OntologyObject i end) _).
  by intros [].
Defined.

(** What the wrapped function returns and what the cache holds: a set,
    or [None] ([retrieve_other_reasoner] returns [None] for an
    inconsistent ontology). *)
Inductive value : Type :=
  | PyNone
  | PySet (s : gset item).

(** The arguments of a call: the expression, the path of the ontology
    and the last argument (embedding model path or reasoner name). *)
Record call_args : Type := mkArgs {
  owl_expression : OWLClassExpression;
  path_onto : string;
  third : string;
}.

(** The surroundings of the wrapper: Python's word characters above
    ASCII, the random generator, the successive readings of the clock,
    the wrapped retrieval function, which may return [None] or raise,
    the owlready2 library ([get_ontology(path).load()], the individuals
    of a loaded ontology, and the test of the innermost loop of the
    existential resolver on the objects that [search_one] finds, which
    raises where an object is missing), and the two settings fixed when
    the wrapper is built. *)
Variable unicode_word : N → bool.
Variable rand_index : Z → nat → nat.
Variable time_at : nat → Q.
Variable func : OWLClassExpression → string → string → res value.
Variable load_ontology : string → res unit.
Variable individuals_of : string → res (gset Ind).
Variable related : string → OWLObjectPropertyExpression → item → item → res bool.
Variable cache_type : string.
Variable concepts : list OWLClassExpression.

(** The mutable state of the closure: the cache, the two counters, the
    paths in [loaded_ontologies] and the table [loaded_individuals].
    The wall-clock total of the statistics is left out. *)
Record wstate : Type := mkWState {
  w_cache : @SemanticCaching.CacheWithEviction str value;
  hits : nat;
  misses : nat;
  clock : nat;
  loaded_ontologies : gset string;
  loaded_individuals : list (string * gset Ind);
}.

Definition W (A : Type) : Type := wstate → wstate * res A.

#[global] Instance W_ret : MRet W := λ _ a w, (w, Ret a).
#[global] Instance W_bind : MBind W := λ _ _ f m w,
  match m w with
  | (w', Ret a) => f a w'
  | (w', Raise e) => (w', Raise e)
  end.

Definition wraise {A : Type} (e : exn) : W A := λ w, (w, Raise e).

(** A call that does not touch the state of the closure. *)
Definition call {A : Type} (r : res A) : W A := λ w, (w, r).

Definition read_state : W wstate := λ w, (w, Ret w).

(** [time.time()] *)
Definition tick : W Q := λ w,
  ({| w_cache := w_cache w; hits := hits w; misses := misses w;
      clock := S (clock w); loaded_ontologies := loaded_ontologies w;
      loaded_individuals := loaded_individuals w |}, Ret (time_at (clock w))).

Definition read_cache : W (@SemanticCaching.CacheWithEviction str value) :=
  λ w, (w, Ret (w_cache w)).

Definition write_cache (c : @SemanticCaching.CacheWithEviction str value)
  : W unit := λ w,
  ({| w_cache := c; hits := hits w; misses := misses w; clock := clock w;
      loaded_ontologies := loaded_ontologies w;
      loaded_individuals := loaded_individuals w |}, Ret tt).

(** [loaded_ontologies[path] = ...] and [loaded_individuals[path] = ...] *)
Definition mark_loaded (path : string) : W unit := λ w,
  ({| w_cache := w_cache w; hits := hits w; misses := misses w; clock := clock w;
      loaded_ontologies := {[path]} ∪ loaded_ontologies w;
      loaded_individuals := loaded_individuals w |}, Ret tt).

Definition store_individuals (path : string) (inds : gset Ind) : W unit := λ w,
  ({| w_cache := w_cache w; hits := hits w; misses := misses w; clock := clock w;
      loaded_ontologies := loaded_ontologies w;
      loaded_individuals := PyDict.set (loaded_individuals w) path inds |}, Ret tt).

(** The start of a call: the ontology is loaded unless its path is in
    [loaded_ontologies]; the result is [All_individuals], the IRIs of
    its individuals. *)
Definition load (a : call_args) : W (gset item) :=
  w ← read_state;
  (if bool_decide (path_onto a ∈ loaded_ontologies w) then mret tt
   else
     call (load_ontology (path_onto a));;
     mark_loaded (path_onto a);;
     inds ← call (individuals_of (path_onto a));
     store_individuals (path_onto a) inds);;
  w ← read_state;
  match PyDict.get (loaded_individuals w) (path_onto a) with
  | Some inds => mret (set_map IriStr inds)
  | None => wraise KeyError
  end.

(** [cache.get(key)]: the value held, [None] for a key that is not held *)
Definition cache_get (key : str) : W value :=
  now ← tick;
  c ← read_cache;
  let '(v, c') := SemanticCaching.get c now key in
  write_cache c';;
  mret (default PyNone v).

(** [cache.put(key, value)] *)
Definition cache_put (key : str) (v : value) : W unit :=
  now ← tick;
  c ← read_cache;
  match SemanticCaching.put rand_index c now key v with
  | Ret c' => write_cache c'
  | Raise e => wraise e
  end.

(** [stats['hits'] += 1] and [stats['misses'] += 1] *)
Definition count_hit : W unit := λ w,
  ({| w_cache := w_cache w; hits := S (hits w); misses := misses w;
      clock := clock w; loaded_ontologies := loaded_ontologies w;
      loaded_individuals := loaded_individuals w |}, Ret tt).

Definition count_miss : W unit := λ w,
  ({| w_cache := w_cache w; hits := hits w; misses := S (misses w);
      clock := clock w; loaded_ontologies := loaded_ontologies w;
      loaded_individuals := loaded_individuals w |}, Ret tt).

(** [retrieve_from_cache]: a hit is a value that is not [None] *)
Definition retrieve_from_cache (expression : str) : W value :=
  cached_result ← cache_get expression;
  match cached_result with
  | PySet r => count_hit;; mret (PySet r)
  | PyNone => count_miss;; mret PyNone
  end.

Definition ind_of (x : item) : Ind :=
  match x with
  | IriStr i => i
  | OntologyObject i => i
  end.

(** What the inner loops add for [ind_a]: the IRI, or for an inverse
    property the object of the ontology. *)
Definition added (p : OWLObjectPropertyExpression) (ind_a : item) : item :=
  match p with
  | OWLObjectProperty _ => ind_a
  | OWLObjectInverseOf _ => OntologyObject (ind_of ind_a)
  end.

(** The loop [for ind_b in instances] for one [ind_a]: every test is
    evaluated; the result says whether [ind_a] is added. *)
Fixpoint inner_loop (test : item → res bool) (instances : list item) : res bool :=
  match instances with
  | [] => Ret false
  | ind_b :: rest =>
      b ← test ind_b;
      b' ← inner_loop test rest;
      Ret (b || b')
  end.

(** The loop [for ind_a in All_individuals]; the two sets are iterated
    in the order of their elements. *)
Fixpoint outer_loop (a : call_args) (p : OWLObjectPropertyExpression)
    (universe instances : list item) : res (gset item) :=
  match universe with
  | [] => Ret ∅
  | ind_a :: rest =>
      b ← inner_loop (related (path_onto a) p ind_a) instances;
      result ← outer_loop a p rest instances;
      Ret (if b : bool then {[added p ind_a]} ∪ result else result)
  end.

(** [handle_owl_some_values_from]; [a] are the arguments of the
    enclosing call of the wrapper, which the fall-back passes to [func]. *)
Definition handle_owl_some_values_from (a : call_args) (All_individuals : gset item)
    (p : OWLObjectPropertyExpression) (f : OWLClassExpression) : W value :=
  if (size All_individuals <? 1000)%nat then
    instances ← retrieve_from_cache (owl_expression_to_dl f);
    match instances with
    | PySet i =>
        result ← call (outer_loop a p (elements All_individuals) (elements i));
        mret (PySet result)
    | PyNone => call (func (owl_expression a) (path_onto a) (third a))
    end
  else call (func (owl_expression a) (path_onto a) (third a)).

(** [for x in l: body(x)] *)
Fixpoint for_each {A : Type} (l : list A) (body : A → W unit) : W unit :=
  match l with
  | [] => mret tt
  | x :: rest => body x;; for_each rest body
  end.

(** [s.split(sep)[-1]] for a one-character separator *)
Fixpoint after_last (sep : N) (s : str) : str :=
  match s with
  | [] => []
  | c :: s' =>
      if existsb (N.eqb sep) s' then after_last sep s'
      else if N.eqb c sep then s' else s
  end.

Definition is_OWLClass (e : OWLClassExpression) : bool :=
  match e with OWLClass _ => true | _ => false end.
Definition is_complement (e : OWLClassExpression) : bool :=
  match e with OWLObjectComplementOf _ => true | _ => false end.
Definition is_some_values (e : OWLClassExpression) : bool :=
  match e with OWLObjectSomeValuesFrom _ _ => true | _ => false end.

(** [All_individuals - cached]: [TypeError] when [cached] is [None] *)
Definition difference (All_individuals : gset item) (cached : value) : res value :=
  match cached with
  | PySet s => Ret (PySet (All_individuals ∖ s))
  | PyNone => Raise TypeError
  end.

(** [CacheWithEviction.initialize_cache] *)
Definition initialize_cache (a : call_args) (All_individuals : gset item) : W unit :=
  c ← read_cache;
  if SemanticCaching.initialized c then mret tt
  else
    for_each (List.filter is_OWLClass concepts) (λ cls,
      v ← call (func cls (path_onto a) (third a));
      cache_put (owl_expression_to_dl cls) v);;
    for_each (List.filter is_complement concepts) (λ negated_cls,
      let negated_cls_str := owl_expression_to_dl negated_cls in
      c ← read_cache;
      cached ←
        match PyDict.get (SemanticCaching.cache c) (after_last NOT negated_cls_str) with
        | Some (PySet s) => mret (PySet s)
        | _ => call (func negated_cls (path_onto a) (third a))
        end;
      neg ← call (difference All_individuals cached);
      cache_put negated_cls_str neg);;
    for_each (List.filter is_some_values concepts) (λ existential,
      match existential with
      | OWLObjectSomeValuesFrom p f =>
          r ← handle_owl_some_values_from a All_individuals p f;
          cache_put (owl_expression_to_dl existential) r
      | _ => mret tt
      end);;
    c ← read_cache;
    write_cache (SemanticCaching.with_initialized c true).

(** The cold-cache initialisation at the start of a call. *)
Definition prepare (a : call_args) (All_individuals : gset item) : W unit :=
  c ← read_cache;
  if String.eqb cache_type "cold" && negb (SemanticCaching.initialized c)
  then initialize_cache a All_individuals
  else mret tt.

(** [l[i]] *)
Definition py_index (l : list str) (i : nat) : W str :=
  match l !! i with
  | Some x => mret x
  | None => wraise IndexError
  end.

(** [func] on the arguments of the call *)
Definition underlying (a : call_args) : W value :=
  call (func (owl_expression a) (path_onto a) (third a)).

(** The chain of [isinstance] tests of the wrapper. *)
Definition dispatch (a : call_args) (All_individuals : gset item) : W value :=
  let str_expression := owl_expression_to_dl (owl_expression a) in
  match owl_expression a with
  | OWLClass _ =>
      cached_result ← retrieve_from_cache str_expression;
      match cached_result with
      | PySet r => mret (PySet r)
      | PyNone => underlying a
      end
  | OWLObjectComplementOf _ =>
      if String.eqb cache_type "cold" then
        cached_result_cold ← retrieve_from_cache str_expression;
        match cached_result_cold with
        | PySet r => mret (PySet r)
        | PyNone => underlying a
        end
      else
        cached_result ← retrieve_from_cache (after_last NOT str_expression);
        match cached_result with
        | PySet r => mret (PySet (All_individuals ∖ r))
        | PyNone => underlying a
        end
  | OWLObjectIntersectionOf ops =>
      let C_and_D := owl_expression_to_dl <$> ops in
      c0 ← py_index C_and_D 0;
      cached_C ← retrieve_from_cache c0;
      c1 ← py_index C_and_D 1;
      cached_D ← retrieve_from_cache c1;
      match cached_C, cached_D with
      | PySet c, PySet d => mret (PySet (c ∩ d))
      | _, _ => underlying a
      end
  | OWLObjectUnionOf ops =>
      let C_or_D := owl_expression_to_dl <$> ops in
      c0 ← py_index C_or_D 0;
      cached_C ← retrieve_from_cache c0;
      c1 ← py_index C_or_D 1;
      cached_D ← retrieve_from_cache c1;
      match cached_C, cached_D with
      | PySet c, PySet d => mret (PySet (c ∪ d))
      | _, _ => underlying a
      end
  | OWLObjectSomeValuesFrom p f =>
      if String.eqb cache_type "cold" then
        cached_result_cold ← retrieve_from_cache str_expression;
        match cached_result_cold with
        | PySet r => mret (PySet r)
        | PyNone => handle_owl_some_values_from a All_individuals p f
        end
      else handle_owl_some_values_from a All_individuals p f
  | OWLObjectAllValuesFrom _ _ =>
      let all_values_expr := owl_expression_to_dl (owl_expression a) in
      let some_values_expr :=
        Regex.transform_forall_to_exists unicode_word all_values_expr in
      cached_result ← retrieve_from_cache some_values_expr;
      match cached_result with
      | PySet r => mret (PySet (All_individuals ∖ r))
      | PyNone => underlying a
      end
  | OWLOther _ _ => underlying a
  end.

(** The end of a call: the result is written back and returned. *)
Definition finish (a : call_args) (result : value) : W value :=
  cache_put (owl_expression_to_dl (owl_expression a)) result;;
  mret result.

(** [wrapper] *)
Definition wrapper (a : call_args) : W value :=
  All_individuals ← load a;
  prepare a All_individuals;;
  result ← dispatch a All_individuals;
  finish a result.
End Wrapper.

(** An example: the ontology has the individuals 1 and 2, the wrapped
    retrieval function is an approximate one that finds nothing, the
    cache is filled lazily and already holds the extension [{1}] of
    [∃ r.(¬(A ⊓ B))]. *)
Definition example_universal : OWLClassExpression :=
  OWLObjectAllValuesFrom (OWLObjectProperty (lit "r"))
    (OWLObjectIntersectionOf [OWLClass (lit "A"); OWLClass (lit "B")]).

Definition example_dual : OWLClassExpression :=
  existential_dual (OWLObjectProperty (lit "r"))
    (OWLObjectIntersectionOf [OWLClass (lit "A"); OWLClass (lit "B")]).

Definition example_args : call_args :=
  mkArgs example_universal "family.owl" "HermiT".

Definition example_func (e : OWLClassExpression) (path reasoner : string)
  : res (@value nat _ _) := Ret (PySet ∅).

Definition example_individuals (path : string) : res (gset nat) :=
  Ret {[1%nat; 2%nat]}.

Definition example_All : gset (@item nat) := {[IriStr 1%nat; IriStr 2%nat]}.

Definition example_state : @wstate nat _ _ :=
  {| w_cache := SemanticCaching.mkCache
                  [(owl_expression_to_dl example_dual, PySet {[IriStr 1%nat]})]
                  [] 10 "LIFO" 10 false;
     hits := 0; misses := 0; clock := 0;
     loaded_ontologies := ∅; loaded_individuals := [] |}.

(** A second call, on [∀ hasChild.Male], with the extension [{1}] of
    [∃ hasChild.(¬Male)] in the cache. *)
Definition example_args_named : call_args :=
  mkArgs (OWLObjectAllValuesFrom (OWLObjectProperty (lit "hasChild"))
            (OWLClass (lit "Male")))
    "family.owl" "HermiT".

Definition example_state_named : @wstate nat _ _ :=
  {| w_cache := SemanticCaching.mkCache
                  [(owl_expression_to_dl
                      (OWLObjectSomeValuesFrom (OWLObjectProperty (lit "hasChild"))
                         (OWLObjectComplementOf (OWLClass (lit "Male")))),
                    PySet {[IriStr 1%nat]})]
                  [] 10 "LIFO" 10 false;
     hits := 0; misses := 0; clock := 0;
     loaded_ontologies := ∅; loaded_individuals := [] |}.

(** A third state: the ontology is loaded and the key of the dual is
    held, with the value [None] that an earlier call of the wrapped
    function left there. *)
Definition example_state_None : @wstate nat _ _ :=
  {| w_cache := SemanticCaching.mkCache
                  [(owl_expression_to_dl
                      (OWLObjectSomeValuesFrom (OWLObjectProperty (lit "hasChild"))
                         (OWLObjectComplementOf (OWLClass (lit "Male")))),
                    PyNone)]
                  [] 10 "LIFO" 10 false;
     hits := 0; misses := 0; clock := 0;
     loaded_ontologies := {["family.owl"]};
     loaded_individuals := [("family.owl", {[1%nat; 2%nat]})] |}.

(** The second state once the ontology of the call is loaded. *)
Definition example_state_loaded : @wstate nat _ _ :=
  {| w_cache := w_cache example_state_named;
     hits := 0; misses := 0; clock := 0;
     loaded_ontologies := {["family.owl"]};
     loaded_individuals := [("family.owl", {[1%nat; 2%nat]})] |}.

Definition example_wrapper : call_args → W (@value nat _ _) :=
  wrapper Regex.ascii_only (λ _ _, 0%nat) (λ _, 0%Q) example_func
    (λ _, Ret tt) example_individuals (λ _ _ _ _, Ret false) "hot" [].
End Wrapper.

(** * Further parts of the code *)

(** ** Runs of calls on a [CacheWithEviction] (ontolearn/semantic_caching.py) *)
Module CacheRuns.
Section Runs.
Context {K V : Type} `{EqDecision K}.
Variable rand_index : Z → nat → nat.

(** One call on the cache object, with the reading of the clock that the
    call makes. *)
Inductive op : Type :=
  | Put (now : Q) (key : K) (value : V)
  | Get (now : Q) (key : K).

(** A sequence of [put] and [get] calls on one cache object; the values
    that the [get]s return are dropped. *)
Fixpoint run (self : @SemanticCaching.CacheWithEviction K V) (ops : list op)
  : res (@SemanticCaching.CacheWithEviction K V) :=
  match ops with
  | [] => Ret self
  | Put now key value :: ops' =>
      s ← SemanticCaching.put rand_index self now key value; run s ops'
  | Get now key :: ops' => run (SemanticCaching.get self now key).2 ops'
  end.

(** What holds of a cache object between two calls: the two dictionaries
    have no repeated key, the capacity is not negative, under the five
    strategies at most [cache_size + 1] entries are held, and under LRU and
    MRU the time stamps are those of the keys held. *)
Definition well_formed (c : @SemanticCaching.CacheWithEviction K V) : Prop :=
  NoDup (PyDict.keys (SemanticCaching.cache c))
  ∧ (0 ≤ SemanticCaching.cache_size c)%Z
  ∧ (SemanticCaching.strategy c ∈ SemanticCaching.five_strategies →
     (Z.of_nat (length (SemanticCaching.cache c))
      ≤ SemanticCaching.cache_size c + 1)%Z)
  ∧ (SemanticCaching.tracks_access c = true →
     NoDup (PyDict.keys (SemanticCaching.access_times c))
     ∧ ∀ k, k ∈ PyDict.keys (SemanticCaching.access_times c)
            ↔ k ∈ PyDict.keys (SemanticCaching.cache c)).

(** [k] carries a smallest (a greatest) time stamp of [times]. *)
Definition least_recent (times : list (K * Q)) (k : K) : Prop :=
  ∃ t, (k, t) ∈ times ∧ ∀ k' t', (k', t') ∈ times → (t <= t')%Q.

Definition most_recent (times : list (K * Q)) (k : K) : Prop :=
  ∃ t, (k, t) ∈ times ∧ ∀ k' t', (k', t') ∈ times → (t' <= t)%Q.
End Runs.

(** Example caches with string keys: one run under LRU that holds two
    entries for the capacity 1, and the same entries under FIFO. *)
Definition example_lru_cache : @SemanticCaching.CacheWithEviction string nat :=
  SemanticCaching.mkCache [("a", 1%nat); ("b", 2%nat)]
    [("a", 3%Q); ("b", 2%Q)] 1 "LRU" 10 false.

Definition example_fifo_cache : @SemanticCaching.CacheWithEviction string nat :=
  SemanticCaching.mkCache [("a", 1%nat); ("b", 2%nat)] [] 1 "FIFO" 10 false.

Definition example_unbounded_cache : @SemanticCaching.CacheWithEviction string nat :=
  SemanticCaching.mkCache [("a", 1%nat); ("b", 2%nat)] [] 1 "lru" 10 false.
End CacheRuns.

(** ** Vocabulary for calls of the caching wrapper
    (ontolearn/semantic_caching.py) *)
Module WrapperCalls.
Import DL Wrapper.
Section Calls.
Context {Ind : Type} `{Countable Ind}.

(** The cache object of the closure is in a state that calls can reach. *)
Definition well_formed_state (st : @wstate Ind _ _) : Prop :=
  CacheRuns.well_formed (w_cache st).

(** The call does not initialise the cache: the wrapper was not built
    with [cache_type == 'cold'], or the cache is initialised already. *)
Definition skips_initialisation (cache_type : string) (st : @wstate Ind _ _) : Prop :=
  String.eqb cache_type "cold" && negb (SemanticCaching.initialized (w_cache st))
  = false.

(** The entry of the cache under a text: none, [None] or a set. *)
Definition cached (st : @wstate Ind _ _) (key : str) : option (@value Ind _ _) :=
  PyDict.get (SemanticCaching.cache (w_cache st)) key.

(** An intersection or a union with fewer than two operands. *)
Definition lacks_second_operand (e : OWLClassExpression) : bool :=
  match e with
  | OWLObjectIntersectionOf ops | OWLObjectUnionOf ops => (length ops <? 2)%nat
  | _ => false
  end.

(** What a step may change besides the entries of the cache: a
    reachable cache stays reachable, an initialised cache stays
    initialised, and the two tables of loaded ontologies are kept. *)
Definition frame (st st' : @wstate Ind _ _) : Prop :=
  (well_formed_state st → well_formed_state st')
  ∧ (SemanticCaching.initialized (w_cache st) = true
     → SemanticCaching.initialized (w_cache st') = true)
  ∧ loaded_ontologies st' = loaded_ontologies st
  ∧ loaded_individuals st' = loaded_individuals st.

Definition frames {A : Type} (m : W A) : Prop := ∀ st, frame st (m st).1.
End Calls.

(** Examples over numbered individuals: a wrapper for a lazily filled
    cache around a retrieval function that returns the individual 1 for
    every expression, a retrieval function that fails, one that returns
    [None], a cache that holds the extensions of [A] and [B] next to a
    loaded ontology, and calls on [Male], on [A ⊓ B ⊓ C], on the
    intersection with the single operand [A] and on a cardinality
    restriction. *)
Definition example_constant_func (e : OWLClassExpression) (path reasoner : string)
  : res (@value nat _ _) := Ret (PySet {[IriStr 1%nat]}).

Definition example_failing_func (e : OWLClassExpression) (path reasoner : string)
  : res (@value nat _ _) := Raise (RequestException "no reasoner").

Definition example_None_func (e : OWLClassExpression) (path reasoner : string)
  : res (@value nat _ _) := Ret PyNone.

Definition example_hot_wrapper : call_args → W (@value nat _ _) :=
  wrapper Regex.ascii_only (λ _ _, 0%nat) (λ _, 0%Q) example_constant_func
    (λ _, Ret tt) example_individuals (λ _ _ _ _, Ret false) "hot" [].

Definition example_two_class_state : @wstate nat _ _ :=
  {| w_cache := SemanticCaching.mkCache
                  [(lit "A", PySet {[IriStr 1%nat; IriStr 2%nat]});
                   (lit "B", PySet {[IriStr 2%nat; IriStr 3%nat]})]
                  [] 10 "FIFO" 10 false;
     hits := 0; misses := 0; clock := 0;
     loaded_ontologies := {["family.owl"]};
     loaded_individuals := [("family.owl", {[1%nat; 2%nat]})] |}.

Definition example_class_args : call_args :=
  mkArgs (OWLClass (lit "Male")) "family.owl" "HermiT".

Definition example_intersection_args : call_args :=
  mkArgs (OWLObjectIntersectionOf
            [OWLClass (lit "A"); OWLClass (lit "B"); OWLClass (lit "C")])
    "family.owl" "HermiT".

Definition example_single_operand_args : call_args :=
  mkArgs (OWLObjectIntersectionOf [OWLClass (lit "A")]) "family.owl" "HermiT".

Definition example_cardinality_args : call_args :=
  mkArgs (OWLOther true (lit ">= 2 r.A")) "family.owl" "HermiT".

(** A wrapper for a cold cache over the concepts [A], [¬A] and
    [∃ r.A], and a state in which nothing is loaded and the cache is
    empty and not initialised. *)
Definition example_cold_concepts : list OWLClassExpression :=
  [OWLClass (lit "A"); OWLObjectComplementOf (OWLClass (lit "A"));
   OWLObjectSomeValuesFrom (OWLObjectProperty (lit "r")) (OWLClass (lit "A"))].

Definition example_cold_wrapper : call_args → W (@value nat _ _) :=
  wrapper Regex.ascii_only (λ _ _, 0%nat) (λ _, 0%Q) example_constant_func
    (λ _, Ret tt) example_individuals (λ _ _ _ _, Ret false) "cold"
    example_cold_concepts.

Definition example_fresh_state : @wstate nat _ _ :=
  {| w_cache := SemanticCaching.mkCache [] [] 10 "FIFO" 10 false;
     hits := 0; misses := 0; clock := 0;
     loaded_ontologies := ∅; loaded_individuals := [] |}.
End WrapperCalls.

(** ** The comparators of the search nodes (ontolearn/search.py) and the
    statistics that CELOE keeps on horizontal expansions
    (ontolearn/concept_learner.py) *)
Module SearchOrder.
Import CELOE.
Section Order.
Context {Concept : Type}.

(** [OrderedOWLObject(as_index(c1)) < OrderedOWLObject(as_index(c2))] *)
Variable concept_lt : Concept → Concept → bool.

(** [QualityOrderedNode.__lt__] *)
Definition QualityOrderedNode_lt (self other : @OENode Concept) : res bool :=
  match quality self with
  | None => Raise (ValueError "node not evaluated")
  | Some qs =>
      match quality other with
      | None => Raise (ValueError "other node not evaluated")
      | Some qo =>
          if Qltb qs qo then Ret true
          else if Qltb qo qs then Ret false
          else if (len other <? len self)%nat then Ret true
          else if (len self <? len other)%nat then Ret false
          else Ret (concept_lt (concept self) (concept other))
      end
  end.

(** What the comparators need of the order of the concepts: it is
    irreflexive, transitive, and any two different concepts are ordered. *)
Definition strict_total : Prop :=
  (∀ a, concept_lt a a = false)
  ∧ (∀ a b c, concept_lt a b = true → concept_lt b c = true → concept_lt a c = true)
  ∧ (∀ a b, a ≠ b → concept_lt a b = true ∨ concept_lt b a = true).

(** [n == node] on two nodes *)
Variable node_eq : @OENode Concept → @OENode Concept → bool.

(** The counters [max_he] and [min_he] of a [CELOE] object. *)
Record counters : Type := mkCounters {
  max_he : Z;
  min_he : Z;
}.

(** [node.heuristic + 1 - node.quality] *)
Definition threshold_score (node : @OENode Concept) : res Q :=
  match heuristic node, quality node with
  | Some h, Some q => Ret (h + 1 - q)%Q
  | _, _ => Raise TypeError
  end.

(** The loop [for n in reversed(self.heuristic_queue)] of
    [update_min_max_horiz_exp], on the nodes in the order of iteration:
    [true] when the function returns from inside the loop, [false] when
    the loop ends, by [break] or at the end of the queue. *)
Fixpoint other_minimal (min_he : Z) (threshold : Q) (node : @OENode Concept)
    (nodes : list (@OENode Concept)) : res bool :=
  match nodes with
  | [] => Ret false
  | n :: rest =>
      if node_eq n node then other_minimal min_he threshold node rest
      else if (Z.of_nat (h_exp n) =? min_he)%Z then Ret true
      else
        b ← py_lt_float (heuristic n) threshold;
        if b : bool then Ret false
        else other_minimal min_he threshold node rest
  end.

(** [CELOE.update_min_max_horiz_exp]: the counters after the call, and
    how the call ended.  [heuristic_queue] is the content of the sorted
    set in its iteration order. *)
Definition update_min_max_horiz_exp (self : counters)
    (heuristic_queue : list (@OENode Concept)) (node : @OENode Concept)
  : counters * res unit :=
  let he := Z.of_nat (h_exp node) in
  let self1 := {| max_he := Z.max (max_he self) he; min_he := min_he self |} in
  if (min_he self1 =? he - 1)%Z then
    match threshold_score node with
    | Raise e => (self1, Raise e)
    | Ret threshold =>
        match other_minimal (min_he self1) threshold node (rev heuristic_queue) with
        | Raise e => (self1, Raise e)
        | Ret true => (self1, Ret tt)
        | Ret false =>
            ({| max_he := max_he self1; min_he := min_he self1 + 1 |}, Ret tt)
        end
    end
  else (self1, Ret tt).

(** The node carries a quality and a heuristic. *)
Definition scored (n : @OENode Concept) : Prop :=
  is_Some (quality n) ∧ is_Some (heuristic n).
End Order.

(** Numbered concepts in their natural order, and nodes compared by
    their concept. *)
Definition example_concept_lt (a b : nat) : bool := (a <? b)%nat.

Definition example_node_eq (a b : @OENode nat) : bool :=
  (concept a =? concept b)%nat.
End SearchOrder.

(** ** The training loop of Drill (ontolearn/concept_learner.py) *)
Module DrillTraining.

(** How a call ends when the interpreter may be asked to stop: it returns,
    raises an exception, or raises [SystemExit] with a status. *)
Inductive outcome (A : Type) : Type :=
  | Returns (a : A)
  | Raises (e : exn)
  | SystemExit (code : Z).
Arguments Returns {A} a.
Arguments Raises {A} e.
Arguments SystemExit {A} code.

#[global] Instance outcome_ret : MRet outcome := λ _ a, Returns a.
#[global] Instance outcome_bind : MBind outcome := λ _ _ f m,
  match m with
  | Returns a => f a
  | Raises e => Raises e
  | SystemExit code => SystemExit code
  end.

(** A call that cannot ask the interpreter to stop. *)
Definition lift {A : Type} (r : res A) : outcome A :=
  match r with
  | Ret a => Returns a
  | Raise e => Raises e
  end.

(** [exit(code)] *)
Definition exit {A : Type} (code : Z) : outcome A := SystemExit code.

Section Experiences.
Context {State : Type}.

(** [max(l)] on a list of floats: the first greatest item *)
Definition py_max (l : list Q) : res Q :=
  match l with
  | [] => Raise (ValueError "max() arg is an empty sequence")
  | x :: rest => Ret (fold_left (λ m y, if Qltb m y then y else m) rest x)
  end.

(** The loop of [form_experiences] from the index [th] on; [appended]
    holds the arguments of the calls of [self.experiences.append] made so
    far, in order. *)
Fixpoint form_from (th : nat) (state_pairs : list (State * State))
    (rewards : list Q) (appended : list (State * State * Q))
  : list (State * State * Q) * res unit :=
  match state_pairs with
  | [] => (appended, Ret tt)
  | (e, e_next) :: rest =>
      match py_max (drop th rewards) with
      | Raise ex => (appended, Raise ex)
      | Ret q => form_from (S th) rest rewards (appended ++ [(e, e_next, q)])
      end
  end.

(** [Drill.form_experiences]: the experiences appended by the call, and
    how the call ended. *)
Definition form_experiences (state_pairs : list (State * State))
    (rewards : list Q) : list (State * State * Q) * res unit :=
  form_from 0 state_pairs rewards [].
End Experiences.

Section Actions.
Context {Concept : Type}.

(** [RL_State]: the attributes that [sequence_of_actions] reads;
    [embeddings] is given by its length, [None] when it has none. *)
Record RL_State : Type := mkState {
  concept : Concept;
  embeddings : option nat;
  quality : option Q;
  heuristic : option Q;
  length : option Z;
}.

(** What [sequence_of_actions] reads of a [Drill] object. *)
Record Drill : Type := mkDrill {
  num_of_sequential_actions : option Z;
  max_child_length : Z;
}.

(** The methods and functions the loop calls: [list(self.apply_rho(s))],
    [self.exploration_exploitation_tradeoff(s, next)],
    [self.reward_func.apply(s, s')], [len(s.instances)], and the
    formatting of a state by [print]. *)
Variable apply_rho : RL_State → res (list RL_State).
Variable exploration_exploitation_tradeoff : RL_State → list RL_State → res RL_State.
Variable reward_func_apply : RL_State → RL_State → res Q.
Variable len_instances : RL_State → res nat.
Variable print_state : RL_State → res unit.

(** [len(current_state.embeddings) > 0] *)
Definition has_embeddings (s : RL_State) : res bool :=
  match embeddings s with
  | None => Raise TypeError
  | Some n => Ret (0 <? n)%nat
  end.

(** [current_state.quality > 0] *)
Definition has_quality (s : RL_State) : res bool :=
  match quality s with
  | None => Raise TypeError
  | Some q => Ret (Qltb 0 q)
  end.

(** [(current_state.length + 3) <= self.max_child_length] *)
Definition may_grow (self : Drill) (s : RL_State) : res bool :=
  match length s with
  | None => Raise TypeError
  | Some l => Ret (l + 3 <=? max_child_length self)%Z
  end.

(** [range(n)] *)
Definition py_range (n : option Z) : res nat :=
  match n with
  | None => Raise TypeError
  | Some z => Ret (Z.to_nat z)
  end.

(** The variables of the loop. *)
Record locals : Type := mkLocals {
  current_state : RL_State;
  path_of_concepts : list (RL_State * RL_State);
  rewards : list Q;
}.

(** The loop [for _ in range(...)] over the iterations that are left. *)
Fixpoint actions (self : Drill) (left : nat) (l : locals) : outcome locals :=
  match left with
  | O => Returns l
  | S left' =>
      next_rl_states ← lift (apply_rho (current_state l));
      if (List.length next_rl_states =? 0)%nat then
        b ← lift (may_grow self (current_state l));
        lift (py_assert b);;
        Returns l
      else
        next_selected_rl_state ←
          lift (exploration_exploitation_tradeoff (current_state l) next_rl_states);
        lift (print_state (current_state l));;
        lift (print_state next_selected_rl_state);;
        (exit 1 : outcome unit);;
        lift (print_state next_selected_rl_state);;
        n ← lift (len_instances next_selected_rl_state);
        if (n =? 0)%nat then
          lift (print_state next_selected_rl_state);;
          Returns l
        else
          r ← lift (reward_func_apply (current_state l) next_selected_rl_state);
          actions self left'
            {| current_state := next_selected_rl_state;
               path_of_concepts :=
                 path_of_concepts l ++ [(current_state l, next_selected_rl_state)];
               rewards := rewards l ++ [r] |}
  end.

(** [Drill.sequence_of_actions]; the states are [RL_State] objects, so the
    [isinstance] assertions hold. *)
Definition sequence_of_actions (self : Drill) (root_rl_state : RL_State)
  : outcome (list (RL_State * RL_State) * list Q) :=
  b ← lift (has_embeddings root_rl_state);
  lift (py_assert b);;
  b ← lift (has_quality root_rl_state);
  lift (py_assert b);;
  lift (py_assert (bool_decide (heuristic root_rl_state = None)));;
  n ← lift (py_range (num_of_sequential_actions self));
  l ← actions self n {| current_state := root_rl_state;
                        path_of_concepts := []; rewards := [] |};
  (exit 1 : outcome unit);;
  Returns (path_of_concepts l, rewards l).

End Actions.
End DrillTraining.

(** ** Axioms and class hierarchy read from the store
    (ontolearn/triple_store.py) *)
Module TripleStoreReasoning.
Import TripleStore.

#[global] Instance py_obj_eq_dec : EqDecision py_obj.
Proof. solve_decision. Defined.

(** [OWLThing] of owlapy: the class whose IRI is owl:Thing. *)
Definition OWLThing : py_obj :=
  Instance "OWLClass" (IRI_create "http://www.w3.org/2002/07/owl#Thing").

(** [peek]: [None] when the generator ends at once; otherwise the first
    item and [chain([first], generator)], which yields what the argument
    would have yielded.  An exception raised by the generator before its
    first item passes through. *)
Definition peek (generator : trace) : res (option (py_obj * trace)) :=
  match generator with
  | ([], None) => Ret None
  | ([], Some e) => Raise e
  | (first :: rest, e) => Ret (Some (first, (first :: rest, e)))
  end.

(** The unpacking [first_element, domains = x] of what [peek] returned. *)
Definition unpack (x : option (py_obj * trace)) : res (py_obj * trace) :=
  match x with
  | None => Raise TypeError
  | Some p => Ret p
  end.

(** Property expressions, by their class. *)
Inductive property : Type :=
  | OWLObjectProperty (iri : string)
  | OWLDataProperty (iri : string)
  | OWLObjectInverseOf (iri : string).

(** The axioms built from a property and a class. *)
Inductive axiom : Type :=
  | OWLDataPropertyDomainAxiom (pe : property) (dom : py_obj)
  | OWLObjectPropertyDomainAxiom (pe : property) (dom : py_obj)
  | OWLObjectPropertyRangeAxiom (pe : property) (rng : py_obj).

(** What a generator of axioms has produced. *)
Definition axioms : Type := list axiom * option exn.

(** [TripleStoreOntology.get_property_domains]; [post] is the outcome of
    the request that the query makes. *)
Definition get_property_domains (post : res response) (pe : property) : trace :=
  match pe with
  | OWLObjectProperty _ | OWLDataProperty _ =>
      send_http_request_to_ts_and_fetch_results post "OWLClass"
  | OWLObjectInverseOf _ => ([], Some (NotImplementedError EmptyString))
  end.

(** [TripleStoreOntology.data_property_domain_axioms] *)
Definition data_property_domain_axioms (post : res response) (pe : property)
  : axioms :=
  match peek (get_property_domains post pe) ≫= unpack with
  | Raise e => ([], Some e)
  | Ret (first_element, domains) =>
      if is_not_None first_element
      then (OWLDataPropertyDomainAxiom pe <$> domains.1, domains.2)
      else ([OWLDataPropertyDomainAxiom pe OWLThing], None)
  end.

(** [TripleStoreOntology.object_property_domain_axioms] *)
Definition object_property_domain_axioms (post : res response) (pe : property)
  : axioms :=
  match peek (get_property_domains post pe) ≫= unpack with
  | Raise e => ([], Some e)
  | Ret (first_element, domains) =>
      if is_not_None first_element
      then (OWLObjectPropertyDomainAxiom pe <$> domains.1, domains.2)
      else ([OWLObjectPropertyDomainAxiom pe OWLThing], None)
  end.

(** [TripleStoreOntology.object_property_range_axioms] *)
Definition object_property_range_axioms (post : res response) (pe : property)
  : axioms :=
  match peek (send_http_request_to_ts_and_fetch_results post "OWLClass")
        ≫= unpack with
  | Raise e => ([], Some e)
  | Ret (first_element, ranges) =>
      if is_not_None first_element
      then (OWLObjectPropertyRangeAxiom pe <$> ranges.1, ranges.2)
      else ([OWLObjectPropertyRangeAxiom pe OWLThing], None)
  end.

(** [isinstance(ce, OWLClass)] *)
Definition is_OWLClass (ce : py_obj) : bool :=
  match ce with
  | Instance t _ => String.eqb t "OWLClass"
  | _ => false
  end.

(** [l.remove(x)] for an [x] that is in [l]: the first item equal to [x]
    is taken out. *)
Fixpoint list_remove (x : py_obj) (l : list py_obj) : list py_obj :=
  match l with
  | [] => []
  | y :: rest => if bool_decide (y = x) then rest else y :: list_remove x rest
  end.

(** [TripleStoreReasoner.sub_classes] *)
Definition sub_classes (post : res response) (ce : py_obj)
    (direct only_named : bool) : trace :=
  if negb only_named then
    ([], Some (NotImplementedError "Finding anonymous subclasses not implemented"))
  else if is_OWLClass ce then
    match send_http_request_to_ts_and_fetch_results post "OWLClass" with
    | (_, Some e) => ([], Some e)
    | (results, None) =>
        let results :=
          if bool_decide (ce ∈ results) then list_remove ce results else results in
        (results, None)
    end
  else
    ([], Some (NotImplementedError
                 "Subclasses of complex classes retrieved via triple store is not implemented")).

(** [TripleStoreReasoner.super_classes] *)
Definition super_classes (post : res response) (ce : py_obj)
    (direct only_named : bool) : trace :=
  if negb only_named then
    ([], Some (NotImplementedError "Finding anonymous superclasses not implemented"))
  else if is_OWLClass ce then
    if bool_decide (ce = OWLThing) then ([], None)
    else
      match send_http_request_to_ts_and_fetch_results post "OWLClass" with
      | (_, Some e) => ([], Some e)
      | (results, None) =>
          let results :=
            if bool_decide (ce ∈ results) then list_remove ce results else results in
          let results :=
            if (negb direct && negb (bool_decide (OWLThing ∈ results)))
               || (length results =? 0)%nat
            then results ++ [OWLThing] else results in
          (results, None)
      end
  else
    ([], Some (NotImplementedError
                 "Superclasses of complex classes retrieved via triple store is not implemented")).

(** The number of items of [l] equal to [x]. *)
Definition occurrences (x : py_obj) (l : list py_obj) : nat :=
  length (filter (λ y, y = x) l).

(** A store that answers with the classes of the given IRIs, one row each. *)
Definition example_answer (iris : list string) : res response :=
  Ret (Json ["x"] ((λ s, [("x", uri_binding s)]) <$> iris)).
End TripleStoreReasoning.

(** ** The assertions about one individual ([TripleStore._abox],
    ontolearn/triple_store.py) *)
Module TripleStoreABox.
Section ABox.

(** The floats that [float(...)] builds. *)
Context {Float : Type}.

(** [int(s)] and [float(s)] on a string. *)
Variable py_int : string → res Z.
Variable py_float : string → res Float.

(** The value of a literal built by [OWLLiteral(value=...)]. *)
Inductive literal_value : Type :=
  | PyBool (b : bool)
  | PyInt (z : Z)
  | PyFloat (x : Float).

(** The entities and literals of the triples. *)
Inductive term : Type :=
  | OWLNamedIndividual (iri : string)
  | OWLProperty (iri : string)
  | OWLObjectProperty (iri : string)
  | OWLDataProperty (iri : string)
  | OWLClass (iri : string)
  | OWLLiteral (value : literal_value).

(** What ends the generator early: an exception of the kinds met
    elsewhere, or [RuntimeError]. *)
Inductive raised : Type :=
  | Exn (e : exn)
  | RuntimeError (msg : string).

(** What the generator has produced. *)
Definition triples : Type := list (term * term * term) * option raised.

Definition rdf_type : string := "http://www.w3.org/1999/02/22-rdf-syntax-ns#type".
Definition xsd_boolean : string := "http://www.w3.org/2001/XMLSchema#boolean".
Definition xsd_integer : string := "http://www.w3.org/2001/XMLSchema#integer".
Definition xsd_nonNegativeInteger : string :=
  "http://www.w3.org/2001/XMLSchema#nonNegativeInteger".
Definition xsd_double : string := "http://www.w3.org/2001/XMLSchema#double".

(** [bool(s)] on a string *)
Definition py_bool (s : string) : bool := negb (String.eqb s EmptyString).

(** What one row contributes: a triple, nothing ([continue]), or an
    exception (the message of the [RuntimeError] is cut short). *)
Definition abox_row (subject_ : term) (binding : TripleStore.row)
  : option (term * term * term) * option raised :=
  match PyDict.get binding "p", PyDict.get binding "o" with
  | None, _ | _, None => (None, Some (Exn KeyError))
  | Some p, Some o =>
      if String.eqb (TripleStore.b_value p) rdf_type then
        (Some (subject_, OWLProperty rdf_type, OWLClass (TripleStore.b_value o)), None)
      else if String.eqb (TripleStore.b_type o) "uri" then
        (Some (subject_, OWLObjectProperty (TripleStore.b_value p),
               OWLNamedIndividual (TripleStore.b_value o)), None)
      else if String.eqb (TripleStore.b_type o) "literal" then
        match TripleStore.b_datatype o with
        | Some data_type =>
            if String.eqb data_type EmptyString then (None, None)
            else if String.eqb data_type xsd_boolean then
              (Some (subject_, OWLDataProperty (TripleStore.b_value p),
                     OWLLiteral (PyBool (py_bool (TripleStore.b_value o)))), None)
            else if String.eqb data_type xsd_integer
                    || String.eqb data_type xsd_nonNegativeInteger then
              match py_int (TripleStore.b_value o) with
              | Ret z =>
                  (Some (subject_, OWLDataProperty (TripleStore.b_value p),
                         OWLLiteral (PyInt z)), None)
              | Raise e => (None, Some (Exn e))
              end
            else if String.eqb data_type xsd_double then
              match py_float (TripleStore.b_value o) with
              | Ret x =>
                  (Some (subject_, OWLDataProperty (TripleStore.b_value p),
                         OWLLiteral (PyFloat x)), None)
              | Raise e => (None, Some (Exn e))
              end
            else (None, None)
        | None => (None, None)
        end
      else (None, Some (RuntimeError "Unrecognized type"))
  end.

(** The loop over the rows. *)
Fixpoint abox_rows (subject_ : term) (bindings : list TripleStore.row) : triples :=
  match bindings with
  | [] => ([], None)
  | binding :: rest =>
      match abox_row subject_ binding with
      | (_, Some e) => ([], Some e)
      | (Some t, None) =>
          let '(items, e) := abox_rows subject_ rest in (t :: items, e)
      | (None, None) => abox_rows subject_ rest
      end
  end.

(** [TripleStore._abox]; [post] is the outcome of the request. *)
Definition _abox (post : res TripleStore.response) (str_iri : string) : triples :=
  match post with
  | Raise e => ([], Some (Exn e))
  | Ret TripleStore.NotJson => ([], Some (Exn (JSONDecodeError "Expecting value")))
  | Ret (TripleStore.Json _ bindings) => abox_rows (OWLNamedIndividual str_iri) bindings
  end.

(** A row that states a value of a data property as an xsd:boolean
    literal, and the triple expected for it. *)
Definition boolean_row (binding : TripleStore.row) : Prop :=
  ∃ p o, PyDict.get binding "p" = Some p ∧ PyDict.get binding "o" = Some o
         ∧ TripleStore.b_value p ≠ rdf_type
         ∧ TripleStore.b_type o = "literal"
         ∧ TripleStore.b_datatype o = Some xsd_boolean.

Definition stated_by (str_iri : string) (binding : TripleStore.row)
    (t : term * term * term) : Prop :=
  ∃ p o, PyDict.get binding "p" = Some p ∧ PyDict.get binding "o" = Some o
         ∧ t = (OWLNamedIndividual str_iri, OWLDataProperty (TripleStore.b_value p),
                OWLLiteral (PyBool (negb (String.eqb (TripleStore.b_value o) EmptyString)))).
End ABox.

(** A row that states [false] for the property [p]. *)
Definition example_false_row : TripleStore.row :=
  [("p", TripleStore.uri_binding "http://ex/p");
   ("o", TripleStore.typed_literal "false" xsd_boolean)].
End TripleStoreABox.

(** ** [BaseConceptLearner.extend_ontology]
    (ontolearn/base_concept_learner.py) *)
Module BaseLearner.
Import DL.
Section ExtendOntology.
Context {Concept : Type}.

(** [self.kb.apply_type_enrichment(concept)] and
    [self.kb.save(path, rdf_format="ntriples")] *)
Variable apply_type_enrichment : Concept → res unit.
Variable save : str → res unit.

Definition SLASH : N := 47.

(** [s.rfind('/')]: the scan from the index [i] on, with the index found
    so far. *)
Fixpoint rfind_from (s : str) (i : Z) (found : Z) : Z :=
  match s with
  | [] => found
  | c :: rest => rfind_from rest (i + 1) (if (c =? SLASH)%N then i else found)
  end.

Definition rfind (s : str) : Z := rfind_from s 0 (-1).

(** [s[:k]] *)
Definition slice_to (s : str) (k : Z) : str :=
  if (k <? 0)%Z then take (Z.to_nat (Z.of_nat (length s) + k)) s
  else take (Z.to_nat k) s.

(** The loop over [enumerate(self.search_tree)] from the index [ith] on;
    [enriched] holds the concepts passed to [apply_type_enrichment] so
    far. *)
Fixpoint enrich_from (ith : nat) (nodes : list Concept) (top_n_concepts : Z)
    (enriched : list Concept) : list Concept * res unit :=
  match nodes with
  | [] => (enriched, Ret tt)
  | concept :: rest =>
      if (Z.of_nat ith <=? top_n_concepts)%Z then
        match apply_type_enrichment concept with
        | Ret _ => enrich_from (S ith) rest top_n_concepts (enriched ++ [concept])
        | Raise e => (enriched, Raise e)
        end
      else (enriched, Ret tt)
  end.

(** [extend_ontology]: the concepts enriched, the path that [kb.save] was
    called with, if it was called, and how the call ended.  [search_tree]
    holds the concepts of the nodes in the order in which the sorted
    search tree is iterated. *)
Definition extend_ontology (search_tree : list Concept) (kb_path kb_name : str)
    (top_n_concepts : Z) : list Concept * option str * res unit :=
  match enrich_from 0 search_tree top_n_concepts [] with
  | (enriched, Raise e) => (enriched, None, Raise e)
  | (enriched, Ret _) =>
      let folder := slice_to kb_path (rfind kb_path) ++ lit "/" in
      let kb_name := lit "enriched_" ++ kb_name in
      let path := (folder ++ kb_name) ++ lit ".owl" in
      (enriched, Some path, save path)
  end.
End ExtendOntology.
End BaseLearner.

(** * Properties *)

(** ** Generic facts *)

Lemma raises_not_returns {A} (r : res A) : raises r → ¬ returns r.
Proof. intros [e ->] [a Ha]. discriminate. Qed.

Lemma Qltb_lt x y : Qltb x y = true ↔ (x < y)%Q.
Proof.
  unfold Qltb. rewrite negb_true_iff. split.
  - intros H. apply Qnot_le_lt. intros Hle.
    apply Qle_bool_iff in Hle. congruence.
  - intros H. destruct (Qle_bool y x) eqn:E; [|done].
    apply Qle_bool_iff in E. exfalso. eapply Qlt_not_le; eauto.
Qed.

Section PyDictFacts.
Context {K V : Type} `{EqDecision K}.
Implicit Types (d : list (K * V)) (k : K) (v : V).

Lemma dict_contains_true d k : PyDict.contains d k = true ↔ k ∈ PyDict.keys d.
Proof. unfold PyDict.contains. apply bool_decide_eq_true. Qed.

Lemma dict_contains_false d k : PyDict.contains d k = false ↔ k ∉ PyDict.keys d.
Proof. unfold PyDict.contains. apply bool_decide_eq_false. Qed.

Lemma dict_length_remove_le d k : length (PyDict.remove d k) ≤ length d.
Proof.
  induction d as [|[k' v] d IH]; simpl; [lia|].
  destruct (decide (k' = k)); simpl; lia.
Qed.

Lemma dict_length_remove_in d k :
  k ∈ PyDict.keys d → S (length (PyDict.remove d k)) = length d.
Proof.
  induction d as [|[k' v] d IH]; simpl.
  - intros H. by apply elem_of_nil in H.
  - intros H. destruct (decide (k' = k)) as [->|Hne]; [done|].
    simpl. f_equal. apply IH.
    apply elem_of_cons in H as [H|H]; [congruence|done].
Qed.

Lemma dict_length_set_notin d k v :
  k ∉ PyDict.keys d → length (PyDict.set d k v) = S (length d).
Proof.
  induction d as [|[k' v'] d IH]; simpl; [done|].
  intros H. apply not_elem_of_cons in H as [H1 H2].
  destruct (decide (k' = k)); [congruence|]. simpl. by rewrite IH.
Qed.

Lemma dict_length_set_le d k v : length (PyDict.set d k v) ≤ S (length d).
Proof.
  induction d as [|[k' v'] d IH]; simpl; [lia|].
  destruct (decide (k' = k)); simpl; lia.
Qed.

Lemma dict_length_removelast d : d ≠ [] → S (length (removelast d)) = length d.
Proof.
  induction d as [|x d IH]; [done|]. intros _.
  destruct d as [|y d]; [done|].
  change (removelast (x :: y :: d)) with (x :: removelast (y :: d)).
  simpl length. f_equal. apply IH. done.
Qed.

Lemma dict_del_length d k d' :
  PyDict.del d k = Ret d' → S (length d') = length d.
Proof.
  unfold PyDict.del. destruct (PyDict.contains d k) eqn:E; [|done].
  intros [= <-]. apply dict_length_remove_in. by apply dict_contains_true.
Qed.

Lemma dict_popitem_first_length d d' :
  PyDict.popitem_first d = Ret d' → S (length d') = length d.
Proof. destruct d; simpl; [done|]. by intros [= <-]. Qed.

Lemma dict_popitem_last_length d d' :
  PyDict.popitem_last d = Ret d' → S (length d') = length d.
Proof.
  destruct d as [|x d]; [done|]. unfold PyDict.popitem_last.
  intros [= <-]. by apply (dict_length_removelast (x :: d)).
Qed.
End PyDictFacts.

(** ** CacheWithEviction: capacity *)

Section CacheFacts.
Context {K V : Type} `{EqDecision K}.
Variable rand_index : Z → nat → nat.
Import SemanticCaching.
Abbreviation Cache := (@CacheWithEviction K V).
Abbreviation cput := (put rand_index).
Abbreviation cevict := (_evict rand_index).

Lemma evict_not_over (c : Cache) :
  (Z.of_nat (length (cache c)) ≤ cache_size c)%Z → cevict c = Ret c.
Proof.
  intros Hle. unfold SemanticCaching._evict.
  destruct (Z.gtb_spec (Z.of_nat (length (cache c))) (cache_size c)); [lia|done].
Qed.

Lemma evict_preserves_config (c c' : Cache) :
  cevict c = Ret c' →
  cache_size c' = cache_size c ∧ strategy c' = strategy c.
Proof.
  unfold SemanticCaching._evict.
  repeat case_match; intros Hr; simplify_eq/=; try done;
    repeat match goal with
    | H : context [mbind _ ?m] |- _ => destruct m eqn:?; simpl in H
    | H : (_ ≫= _) = _ |- _ => simpl in H
    end; simplify_eq/=; done.
Qed.

Lemma evict_over_removes_one (c c' : Cache) :
  strategy c ∈ five_strategies →
  (Z.of_nat (length (cache c)) > cache_size c)%Z →
  cevict c = Ret c' →
  S (length (cache c')) = length (cache c).
Proof.
  intros Hs Hgt. unfold SemanticCaching._evict.
  destruct (Z.gtb_spec (Z.of_nat (length (cache c))) (cache_size c)); [|lia].
  destruct (String.eqb_spec (strategy c) "FIFO").
  { destruct (PyDict.popitem_first (cache c)) as [d|] eqn:Ed; simpl; [|done].
    intros [= <-]. simpl. by apply dict_popitem_first_length in Ed. }
  destruct (String.eqb_spec (strategy c) "LIFO").
  { destruct (PyDict.popitem_last (cache c)) as [d|] eqn:Ed; simpl; [|done].
    intros [= <-]. simpl. by apply dict_popitem_last_length in Ed. }
  destruct (String.eqb_spec (strategy c) "LRU").
  { destruct (py_min_key (access_times c)) as [k|]; simpl; [|done].
    destruct (PyDict.del (cache c) k) as [d|] eqn:Ed; simpl; [|done].
    destruct (PyDict.del (access_times c) k) as [a|]; simpl; [|done].
    intros [= <-]. simpl. by apply dict_del_length in Ed. }
  destruct (String.eqb_spec (strategy c) "MRU").
  { destruct (py_max_key (access_times c)) as [k|]; simpl; [|done].
    destruct (PyDict.del (cache c) k) as [d|] eqn:Ed; simpl; [|done].
    destruct (PyDict.del (access_times c) k) as [a|]; simpl; [|done].
    intros [= <-]. simpl. by apply dict_del_length in Ed. }
  destruct (String.eqb_spec (strategy c) "RP").
  { destruct (random_choice rand_index (random_seed c) (PyDict.keys (cache c)))
      as [k|]; simpl; [|done].
    destruct (PyDict.del (cache c) k) as [d|] eqn:Ed; simpl; [|done].
    intros [= <-]. simpl. by apply dict_del_length in Ed. }
  unfold five_strategies in Hs.
  repeat (apply elem_of_cons in Hs as [Hs|Hs]; [congruence|]).
  by apply elem_of_nil in Hs.
Qed.

(** After a [put] that returns, a cache run under one of the five
    strategies holds at most [cache_size + 1] entries, provided it did so
    before. *)
Lemma put_length_bound (c c' : Cache) now key value :
  strategy c ∈ five_strategies →
  (Z.of_nat (length (cache c)) ≤ cache_size c + 1)%Z →
  cput c now key value = Ret c' →
  (Z.of_nat (length (cache c')) ≤ cache_size c' + 1)%Z
  ∧ cache_size c' = cache_size c ∧ strategy c' = strategy c.
Proof.
  intros Hs Hlen. unfold SemanticCaching.put.
  destruct (PyDict.contains (cache c) key) eqn:Hin; simpl.
  - destruct (PyDict.del (cache c) key) as [d|] eqn:Ed; simpl; [|done].
    apply dict_del_length in Ed.
    rewrite evict_not_over by (simpl; lia). simpl.
    pose proof (dict_length_set_le d key value).
    destruct (tracks_access _); intros [= <-]; simpl; split; try done; lia.
  - destruct (cevict c) as [s2|] eqn:Ev; simpl; [|done].
    pose proof (evict_preserves_config _ _ Ev) as [Hsz Hst].
    pose proof (dict_length_set_le (cache s2) key value).
    assert (Z.of_nat (length (cache s2)) ≤ cache_size c)%Z.
    { destruct (Z_le_gt_dec (Z.of_nat (length (cache c))) (cache_size c)).
      - rewrite evict_not_over in Ev by done. by simplify_eq.
      - apply evict_over_removes_one in Ev; [lia|done|done]. }
    destruct (tracks_access _); intros [= <-]; simpl; (split; [lia|done]).
Qed.

Lemma put_all_length_bound (ops : list (Q * K * V)) (c c' : Cache) :
  strategy c ∈ five_strategies →
  (Z.of_nat (length (cache c)) ≤ cache_size c + 1)%Z →
  put_all rand_index c ops = Ret c' →
  (Z.of_nat (length (cache c')) ≤ cache_size c + 1)%Z.
Proof.
  revert c. induction ops as [|[[now k] v] ops IH]; intros c Hs Hlen; simpl.
  - by intros [= <-].
  - destruct (cput c now k v) as [s|] eqn:Ep; simpl; [|done].
    apply put_length_bound in Ep as (Hb & Hsz & Hst); [|done..].
    intros Hr. apply IH in Hr; [|by rewrite Hst|done]. by rewrite <- Hsz.
Qed.

(** C1 (the code breaks the claim). A cache that already holds exactly
    [cache_size] entries accepts one more key without evicting anything,
    whatever the strategy: [_evict] only fires when the size is strictly
    greater than [cache_size], and it runs before the insertion.  After
    such a [put] returns the cache holds [cache_size + 1] entries. *)
Theorem put_exceeds_capacity (c : Cache) (now : Q) (key : K) (value : V) :
  Z.of_nat (length (cache c)) = cache_size c →
  PyDict.contains (cache c) key = false →
  ∃ c', cput c now key value = Ret c'
        ∧ cache_size c' = cache_size c
        ∧ (Z.of_nat (length (cache c')) = cache_size c + 1)%Z
        ∧ (Z.of_nat (length (cache c')) > cache_size c')%Z.
Proof.
  intros Hlen Hin. unfold put. rewrite Hin. simpl.
  rewrite evict_not_over by lia. simpl.
  apply dict_contains_false in Hin.
  pose proof (dict_length_set_notin (cache c) key value Hin) as Hset.
  destruct (tracks_access _); eexists; (split; [reflexivity|]); simpl;
    rewrite Hset; repeat split; lia.
Qed.
End CacheFacts.

Lemma put_exceeds_capacity_witness :
  Z.of_nat (length [("a", 1%nat)]) = 1%Z
  ∧ PyDict.contains [("a", 1%nat)] "b" = false
  ∧ ∃ c', SemanticCaching.put (λ _ _, 0%nat)
            (SemanticCaching.mkCache [("a", 1%nat)] [] 1 "FIFO" 10 false)
            0%Q "b" 2%nat = Ret c'
          ∧ SemanticCaching.cache_size c' = 1%Z
          ∧ (Z.of_nat (length (SemanticCaching.cache c')) = 1 + 1)%Z
          ∧ (Z.of_nat (length (SemanticCaching.cache c'))
             > SemanticCaching.cache_size c')%Z.
Proof.
  split; [reflexivity|]. split; [reflexivity|].
  apply (put_exceeds_capacity (λ _ _, 0%nat)
           (SemanticCaching.mkCache [("a", 1%nat)] [] 1 "FIFO" 10 false)
           0%Q "b" 2%nat); reflexivity.
Defined.

(** Starting from the empty cache of capacity 1, two [put]s of distinct
    keys leave two entries in the cache under each of the five strategies. *)
Lemma put_two_into_capacity_one (strat : string) :
  strat ∈ SemanticCaching.five_strategies →
  ∃ c', SemanticCaching.put_all (λ _ _, 0%nat)
          (SemanticCaching.init 1 strat 10) [(1%Q, "a", 1%nat); (2%Q, "b", 2%nat)]
        = Ret c'
        ∧ length (SemanticCaching.cache (K:=string) (V:=nat) c') = 2%nat.
Proof.
  unfold SemanticCaching.five_strategies. intros Hs.
  repeat (apply elem_of_cons in Hs as [->|Hs]; [eexists; split; reflexivity|]).
  by apply elem_of_nil in Hs.
Qed.

(** Attribute lookup fails on every name that is neither one of the
    six bound by [__init__] nor a method of the class. *)
Lemma getattr_unknown {K V : Type} `{EqDecision K}
    (c : @SemanticCaching.CacheWithEviction K V) (name : string) :
  name ∉ SemanticCaching.instance_attributes ++ SemanticCaching.class_methods →
  SemanticCaching.getattr c name = Raise (AttributeError name).
Proof.
  intros Hn. apply not_elem_of_app in Hn as [Hattr Hmeth].
  unfold SemanticCaching.getattr, SemanticCaching.instance_dict.
  cbn [PyDict.get].
  unfold SemanticCaching.instance_attributes in Hattr.
  repeat (apply not_elem_of_cons in Hattr as [? Hattr]).
  repeat (case_decide; [congruence|]).
  by rewrite bool_decide_eq_false_2.
Qed.

(** The six names of [__init__] are found. *)
Lemma getattr_known {K V : Type} `{EqDecision K}
    (c : @SemanticCaching.CacheWithEviction K V) (name : string) :
  name ∈ SemanticCaching.instance_attributes →
  returns (SemanticCaching.getattr c name).
Proof.
  unfold SemanticCaching.instance_attributes. intros Hin.
  repeat (apply elem_of_cons in Hin as [->|Hin]; [by eexists|]).
  by apply elem_of_nil in Hin.
Qed.

(** C10. [is_full] reads [self.max_size]; the instance dictionary built by
    [__init__] has no such name, no method assigns it and the class
    defines no such attribute, so the call raises [AttributeError] for
    every instance, whatever [put] and [get] calls it went through. *)
Theorem is_full_raises_AttributeError {K V : Type} `{EqDecision K}
    (c : @SemanticCaching.CacheWithEviction K V) :
  SemanticCaching.is_full c = Raise (AttributeError "max_size")
  ∧ returns (SemanticCaching.getattr c "cache_size").
Proof.
  split.
  - unfold SemanticCaching.is_full. rewrite getattr_unknown; [done|].
    unfold SemanticCaching.instance_attributes, SemanticCaching.class_methods.
    intros Hin. simpl in Hin.
    repeat (apply elem_of_cons in Hin as [Hin|Hin]; [discriminate Hin|]).
    by apply elem_of_nil in Hin.
  - apply getattr_known. unfold SemanticCaching.instance_attributes.
    do 2 (apply elem_of_cons; right). apply elem_of_cons. by left.
Qed.

(** ** Encoding of learning problems *)
Example encode_demo :
  KB.encode_learning_problem (Ind:=nat)
    (KB.mkKB (Some {[1; 2; 3]}) [] 1) (KB.mkLP [1] [2] None) [] =
  Ret (KB.mkELP {[1]} {[2]} {[1;2;3]} {[3]}).
Proof. vm_compute. reflexivity. Qed.

Section EncodeFacts.
Context {Ind : Type} `{Countable Ind}.
Import KB.
Implicit Types (kb : @KnowledgeBase Ind _ _) (lp : @PosNegLPStandard Ind)
  (e : @EncodedPosNegLPStandard Ind _ _).

(** Sampling without replacement returns [k] distinct members of the pool. *)
Lemma sample_from_spec (k : nat) : ∀ (pool : list Ind) (rnd : list nat),
  NoDup pool → k ≤ length pool →
  length (sample_from pool k rnd) = k
  ∧ NoDup (sample_from pool k rnd)
  ∧ sample_from pool k rnd ⊆ pool.
Proof.
  induction k as [|k IH]; intros pool rnd Hnd Hk; simpl.
  - split; [done|]. split; [constructor|]. intros x Hx. by apply elem_of_nil in Hx.
  - assert (Hlt : hd 0 rnd mod length pool < length pool)
      by (apply Nat.mod_upper_bound; lia).
    destruct (lookup_lt_is_Some_2 _ _ Hlt) as [x Hx]. rewrite Hx.
    pose proof (delete_Permutation _ _ _ Hx) as Hperm.
    assert (Hnd' : NoDup (x :: delete (hd 0 rnd mod length pool) pool))
      by (by rewrite <- Hperm).
    apply NoDup_cons in Hnd' as [Hx' Hnd'].
    destruct (IH (delete (hd 0 rnd mod length pool) pool) (tl rnd)) as (Hl & Hn & Hs).
    { done. }
    { rewrite length_delete by eauto. lia. }
    split; [simpl; by rewrite Hl|]. split.
    + apply NoDup_cons. split; [|done]. intros Hin. apply Hx'. by apply Hs.
    + intros y Hy. rewrite Hperm. apply elem_of_cons in Hy as [->|Hy].
      * apply elem_of_cons. by left.
      * apply elem_of_cons. right. by apply Hs.
Qed.

Lemma encode_learning_problem_inv kb lp rnd e :
  encode_learning_problem kb lp rnd = Ret e →
  (0 < length (pos lp) < size (universe kb lp)
   ∧ length (neg lp) < size (universe kb lp)
   ∧ 0 < class_hierarchy_len kb)
  ∧ kb_all e = universe kb lp
  ∧ kb_pos e = list_to_set (pos lp)
  ∧ kb_diff e = kb_all e ∖ (kb_pos e ∪ kb_neg e)
  ∧ size (kb_pos e) = length (pos lp)
  ∧ match neg lp with
    | [] => ∃ s, random_sample (elements (universe kb lp))
                   (size (individuals_set (pos lp))) rnd = Ret s
                 ∧ kb_neg e = list_to_set s
    | _ :: _ => kb_neg e = list_to_set (neg lp)
                ∧ size (kb_neg e) = length (neg lp)
    end.
Proof.
  unfold encode_learning_problem.
  destruct (0 <? class_hierarchy_len kb)%nat eqn:E0; simpl; [|done].
  destruct (0 <? length (pos lp))%nat eqn:E1; simpl; [|done].
  destruct (length (pos lp) <? size (universe kb lp))%nat eqn:E2; simpl; [|done].
  destruct (length (neg lp) <? size (universe kb lp))%nat eqn:E3; simpl; [|done].
  apply Nat.ltb_lt in E0, E1, E2, E3.
  destruct (neg lp) as [|n ns] eqn:En; simpl.
  - destruct (random_sample _ _ rnd) as [s|] eqn:Es; simpl; [|done].
    destruct (size (individuals_set (pos lp)) =? length (pos lp))%nat eqn:E4;
      simpl; [|done].
    apply Nat.eqb_eq in E4. intros [= <-]. simpl. repeat split; try done; try lia.
    by exists s.
  - destruct (size (individuals_set (pos lp)) =? length (pos lp))%nat eqn:E4;
      simpl; [|done].
    destruct (size (individuals_set (n :: ns)) =? S (length ns))%nat eqn:E5;
      simpl; [|done].
    apply Nat.eqb_eq in E4, E5. intros [= <-]. simpl. repeat split; try done; lia.
Qed.

(** C6. The encoding fails with [AssertionError] unless
    [0 < |lp.pos| < |universe|] and [|lp.neg| < |universe|]; when it
    succeeds, [kb_diff = kb_all ∖ (kb_pos ∪ kb_neg)]. *)
Theorem encode_learning_problem_guard kb lp rnd :
  (¬ (0 < length (pos lp) < size (universe kb lp)
      ∧ length (neg lp) < size (universe kb lp)) →
   encode_learning_problem kb lp rnd = Raise AssertionError)
  ∧ (∀ e, encode_learning_problem kb lp rnd = Ret e →
          (0 < length (pos lp) < size (universe kb lp)
           ∧ length (neg lp) < size (universe kb lp))
          ∧ kb_all e = universe kb lp
          ∧ kb_diff e = kb_all e ∖ (kb_pos e ∪ kb_neg e)).
Proof.
  split.
  - intros Hn. unfold encode_learning_problem.
    destruct (0 <? class_hierarchy_len kb)%nat; simpl; [|done].
    destruct (0 <? length (pos lp))%nat eqn:E1; simpl; [|done].
    destruct (length (pos lp) <? size (universe kb lp))%nat eqn:E2; simpl; [|done].
    destruct (length (neg lp) <? size (universe kb lp))%nat eqn:E3; simpl; [|done].
    apply Nat.ltb_lt in E1, E2, E3. exfalso. apply Hn. lia.
  - intros e He. apply encode_learning_problem_inv in He.
    destruct He as ((Hc1 & Hc2 & _) & Ha & _ & Hd & _). done.
Qed.

Lemma sample_from_reaches (t : list Ind) : ∀ (pool : list Ind),
  NoDup t → t ⊆ pool → ∃ rnd, sample_from pool (length t) rnd = t.
Proof.
  induction t as [|x t IH]; intros pool Hnd Hsub; simpl.
  - by exists [].
  - apply NoDup_cons in Hnd as [Hx Hnd].
    assert (Hin : x ∈ pool) by (apply Hsub, elem_of_cons; by left).
    apply list_elem_of_lookup in Hin as [i Hi].
    pose proof (lookup_lt_Some _ _ _ Hi) as Hlt.
    pose proof (delete_Permutation _ _ _ Hi) as Hperm.
    destruct (IH (delete i pool) Hnd) as [rnd Hrnd].
    { intros y Hy.
      assert (Hyp : y ∈ pool) by (apply Hsub, elem_of_cons; by right).
      rewrite Hperm in Hyp. apply elem_of_cons in Hyp as [->|Hyp]; done. }
    exists (i :: rnd). simpl. rewrite Nat.mod_small by done.
    rewrite Hi. by rewrite Hrnd.
Qed.

(** C2, as the code has it.  A successful encoding copies the supplied
    examples: the encoded positives are the set of [lp.pos]; supplied
    negatives are copied as they are, so the two encoded sets are
    disjoint exactly when the supplied examples are; when no negatives
    are supplied they are drawn without replacement from the whole
    universe, as many as there are positives. *)
Theorem encode_learning_problem_examples kb lp rnd e :
  encode_learning_problem kb lp rnd = Ret e →
  kb_pos e = list_to_set (pos lp)
  ∧ (neg lp ≠ [] →
     kb_neg e = list_to_set (neg lp)
     ∧ (kb_pos e ## kb_neg e ↔ ∀ x, x ∈ pos lp → x ∉ neg lp))
  ∧ (neg lp = [] →
     kb_neg e ⊆ kb_all e ∧ size (kb_neg e) = size (kb_pos e)).
Proof.
  intros He. apply encode_learning_problem_inv in He.
  destruct He as (Hc & Ha & Hp & Hd & Hsz & Hn).
  split; [done|]. split.
  - intros Hne. destruct (neg lp) as [|n ns] eqn:En; [done|].
    destruct Hn as [Hn _]. split; [done|]. rewrite Hp, Hn. split.
    + intros Hdisj x Hx Hx'. apply (Hdisj x); by apply elem_of_list_to_set.
    + intros Hall x Hx Hx'. apply elem_of_list_to_set in Hx, Hx'.
      by apply (Hall x).
  - intros Hnil. rewrite Hnil in Hn. destruct Hn as (s & Hs & Hn).
    unfold random_sample in Hs.
    destruct (Nat.leb_spec (size (individuals_set (pos lp)))
                (length (elements (universe kb lp)))) as [Hle|]; [|done].
    injection Hs as <-.
    destruct (sample_from_spec (size (individuals_set (pos lp)))
                (elements (universe kb lp)) rnd) as (Hl & Hnd & Hsub);
      [apply NoDup_elements|done|].
    rewrite Hn, Ha, Hp. split.
    + intros x Hx. apply elem_of_list_to_set in Hx.
      apply elem_of_elements. by apply Hsub.
    + rewrite size_list_to_set by done. by rewrite Hl.
Qed.

(** Every set of universe members of the right size can be drawn as the
    negatives of a problem that supplies none. *)
Lemma encode_learning_problem_sample_any kb lp rnd e (S : gset Ind) :
  encode_learning_problem kb lp rnd = Ret e →
  neg lp = [] → S ⊆ universe kb lp → size S = size (kb_pos e) →
  ∃ rnd' e', encode_learning_problem kb lp rnd' = Ret e' ∧ kb_neg e' = S.
Proof.
  intros He Hnil Hsub Hsz. apply encode_learning_problem_inv in He.
  destruct He as ((Hc1 & Hc2 & Hc3) & Ha & Hp & Hd & Hps & Hn).
  destruct (sample_from_reaches (elements S) (elements (universe kb lp)))
    as [rnd' Hrnd'].
  { apply NoDup_elements. }
  { intros x Hx. apply elem_of_elements. apply Hsub. by apply elem_of_elements. }
  assert (Hk : length (elements S) = size (individuals_set (pos lp))).
  { change (length (elements S)) with (size S). by rewrite Hsz, Hp. }
  exists rnd'. unfold encode_learning_problem.
  apply Nat.ltb_lt in Hc3. rewrite Hc3. simpl.
  destruct Hc1 as [Hc1a Hc1b].
  apply Nat.ltb_lt in Hc1a, Hc1b, Hc2. rewrite Hc1a, Hc1b, Hc2. simpl.
  rewrite Hnil. simpl. unfold random_sample.
  apply Nat.ltb_lt in Hc1b.
  assert (Hle : (size (individuals_set (pos lp))
                 <=? length (elements (universe kb lp)))%nat = true).
  { apply Nat.leb_le. unfold individuals_set. rewrite <- Hp, Hps.
    change (length (elements (universe kb lp))) with (size (universe kb lp)). lia. }
  rewrite Hle. simpl. rewrite <- Hk, Hrnd'.
  replace (length (elements S)) with (length (pos lp))
    by (rewrite Hk; unfold individuals_set; by rewrite <- Hp).
  rewrite Nat.eqb_refl. simpl.
  eexists. split; [reflexivity|]. simpl. apply list_to_set_elements_L.
Qed.
End EncodeFacts.

Lemma encode_learning_problem_guard_witness :
  KB.encode_learning_problem (Ind:=nat)
    (KB.mkKB (Some {[1; 2; 3]}) [] 1) (KB.mkLP [] [2] None) [] = Raise AssertionError
  ∧ KB.kb_diff (Ind:=nat) (KB.mkELP {[1]} {[2]} {[1;2;3]} {[3]})
    = ({[1;2;3]} : gset nat) ∖ ({[1]} ∪ {[2]}).
Proof.
  split.
  - apply (proj1 (encode_learning_problem_guard (Ind:=nat)
             (KB.mkKB (Some {[1; 2; 3]}) [] 1) (KB.mkLP [] [2] None) [])).
    simpl. lia.
  - destruct (proj2 (encode_learning_problem_guard (Ind:=nat)
             (KB.mkKB (Some {[1; 2; 3]}) [] 1) (KB.mkLP [1] [2] None) [])
             (KB.mkELP {[1]} {[2]} {[1;2;3]} {[3]})) as (_ & _ & Hd).
    + vm_compute. reflexivity.
    + exact Hd.
Defined.

(** C2 fails as stated: overlapping examples are encoded as they are, and
    negatives sampled for a problem without negatives may hit a positive. *)
Lemma encode_learning_problem_not_disjoint :
  (∃ e, KB.encode_learning_problem (Ind:=nat)
          (KB.mkKB (Some {[1; 2]}) [] 1) (KB.mkLP [1] [1] None) [] = Ret e
        ∧ ¬ (KB.kb_pos e ## KB.kb_neg e))
  ∧ (∃ e, KB.encode_learning_problem (Ind:=nat)
            (KB.mkKB (Some {[1; 2]}) [] 1) (KB.mkLP [1] [] None) [1] = Ret e
          ∧ ¬ (KB.kb_pos e ## KB.kb_neg e)).
Proof.
  split.
  - exists (KB.mkELP {[1]} {[1]} {[1;2]} {[2]}). split; [vm_compute; reflexivity|].
    simpl. intros Hd. apply (Hd 1); by apply elem_of_singleton.
  - exists (KB.mkELP {[1]} {[1]} {[1;2]} {[2]}). split; [vm_compute; reflexivity|].
    simpl. intros Hd. apply (Hd 1); by apply elem_of_singleton.
Qed.

Lemma encode_learning_problem_examples_witness :
  KB.encode_learning_problem (Ind:=nat)
    (KB.mkKB (Some {[1; 2; 3]}) [] 1) (KB.mkLP [1] [2] None) []
  = Ret (KB.mkELP {[1]} {[2]} {[1;2;3]} {[3]})
  ∧ (({[1]} : gset nat) = list_to_set [1]
     ∧ ([2] ≠ [] →
        ({[2]} : gset nat) = list_to_set [2]
        ∧ (({[1]} : gset nat) ## ({[2]} : gset nat) ↔ ∀ x, x ∈ [1] → x ∉ [2]))
     ∧ ([2] = [] →
        ({[2]} : gset nat) ⊆ ({[1;2;3]} : gset nat)
        ∧ size ({[2]} : gset nat) = size ({[1]} : gset nat))).
Proof.
  assert (He : KB.encode_learning_problem (Ind:=nat)
                 (KB.mkKB (Some {[1; 2; 3]}) [] 1) (KB.mkLP [1] [2] None) []
               = Ret (KB.mkELP {[1]} {[2]} {[1;2;3]} {[3]}))
    by (vm_compute; reflexivity).
  split; [exact He|].
  exact (encode_learning_problem_examples _ _ _ _ He).
Defined.

(** ** The Drill placeholders *)

(** C3 (the code breaks the claim).  The bodies of [best_hypotheses],
    [clean], [downward_refinement], [fit], [show_search_tree] and
    [terminate_training] build a [ValueError] object without raising it:
    each call returns [None] normally, for every instance and argument. *)
Theorem drill_stubs_return_normally {Concept TreeNode Args : Type}
    (d : @DrillLearner.Drill Concept TreeNode) (n : Z) (args : Args)
    (heading_step : string) :
  DrillLearner.best_hypotheses d n = Ret tt
  ∧ DrillLearner.clean d = Ret tt
  ∧ DrillLearner.downward_refinement d args = Ret tt
  ∧ DrillLearner.fit d args = Ret tt
  ∧ DrillLearner.show_search_tree d heading_step n = Ret tt
  ∧ DrillLearner.terminate_training d = Ret tt
  ∧ ¬ raises (DrillLearner.fit d args).
Proof.
  repeat split; try reflexivity. intros [e He]. discriminate He.
Qed.

(** [next_node_to_expand] is not a placeholder; it does raise on the
    instance that [__init__] builds, because [search_tree] is a [dict]. *)
Lemma drill_next_node_to_expand_raises {Concept TreeNode Node : Type}
    (call : string → res Node) (d : @DrillLearner.Drill Concept TreeNode)
    (t : option Z) :
  raises (DrillLearner.next_node_to_expand call d t).
Proof.
  unfold DrillLearner.next_node_to_expand, DrillLearner.verbose_gt_1.
  destruct (DrillLearner.verbose d) as [v|]; simpl; [|by eexists].
  destruct (v >? 1)%Z; simpl; by eexists.
Qed.

(** ** CELOE: choice of the node to expand *)
Section CeloeFacts.
Context {Concept : Type}.
Variable concept_lt : Concept → Concept → bool.
Import CELOE.
Implicit Types (n m : @OENode Concept) (q l : list (@OENode Concept)).

Lemma py_lt_float_unsolved n :
  py_lt_float (quality n) 1 = Ret true ↔ unsolved n.
Proof.
  unfold py_lt_float, unsolved. destruct (quality n) as [x|]; split.
  - intros [= Hlt]. exists x. split; [done|]. by apply Qltb_lt.
  - intros (x' & [= <-] & Hlt). f_equal. by apply Qltb_lt.
  - done.
  - by intros (x' & ? & _).
Qed.

Lemma py_lt_float_solved n :
  evaluated n → ¬ unsolved n → py_lt_float (quality n) 1 = Ret false.
Proof.
  intros [x Hx] Hn. unfold py_lt_float. rewrite Hx. f_equal.
  destruct (Qltb x 1) eqn:E; [|done].
  exfalso. apply Hn. exists x. split; [done|]. by apply Qltb_lt.
Qed.

Lemma unsolved_dec n : evaluated n → unsolved n ∨ ¬ unsolved n.
Proof.
  intros [x Hx]. destruct (Qltb x 1) eqn:E.
  - left. exists x. split; [done|]. by apply Qltb_lt.
  - right. intros (x' & Hx' & Hlt). rewrite Hx in Hx'. injection Hx' as <-.
    apply Qltb_lt in Hlt. congruence.
Qed.

(** The scan returns the first unsolved node of the iteration. *)
Lemma scan_returns l n :
  Forall evaluated l →
  scan l = Ret n ↔
  ∃ l1 l2, l = l1 ++ n :: l2 ∧ unsolved n ∧ Forall (λ m, ¬ unsolved m) l1.
Proof.
  induction l as [|a l IH]; intros Hev.
  - split; [done|]. intros ([|??] & l2 & Heq & _); done.
  - apply Forall_cons in Hev as [Ha Hev]. simpl.
    destruct (unsolved_dec a Ha) as [Hu|Hs].
    + rewrite (proj2 (py_lt_float_unsolved a) Hu). simpl. split.
      * intros [= <-]. exists [], l. repeat split; [done|constructor].
      * intros (l1 & l2 & Heq & Hn & Hl1). destruct l1 as [|b l1].
        -- simpl in Heq. by injection Heq as ->.
        -- simpl in Heq. injection Heq as <- _.
           apply Forall_cons in Hl1 as [Hb _]. done.
    + rewrite (py_lt_float_solved a Ha Hs). simpl. rewrite (IH Hev). split.
      * intros (l1 & l2 & -> & Hn & Hl1). exists (a :: l1), l2.
        repeat split; [done|]. by constructor.
      * intros (l1 & l2 & Heq & Hn & Hl1). destruct l1 as [|b l1].
        -- simpl in Heq. injection Heq as -> _. done.
        -- simpl in Heq. injection Heq as <- ->.
           apply Forall_cons in Hl1 as [_ Hl1]. by exists l1, l2.
Qed.

Lemma scan_raises l :
  Forall evaluated l →
  raises (scan l) ↔ Forall (λ m, ¬ unsolved m) l.
Proof.
  induction l as [|a l IH]; intros Hev.
  - split; [constructor|]. intros _. by eexists.
  - apply Forall_cons in Hev as [Ha Hev]. simpl.
    destruct (unsolved_dec a Ha) as [Hu|Hs].
    + rewrite (proj2 (py_lt_float_unsolved a) Hu). simpl. split.
      * intros [e He]. done.
      * intros Hall. apply Forall_cons in Hall as [Hn _]. done.
    + rewrite (py_lt_float_solved a Ha Hs). simpl. rewrite (IH Hev). split.
      * intros Hall. by constructor.
      * intros Hall. by apply Forall_cons in Hall as [_ Hall].
Qed.

Lemma placed_before_heuristic_le n m :
  placed_before concept_lt n m → heuristic_le n m.
Proof.
  unfold placed_before, HeuristicOrderedNode_lt, heuristic_le.
  destruct (heuristic n) as [hn|]; [|done].
  destruct (heuristic m) as [hm|]; [|done].
  intros Hlt. exists hn, hm. repeat split.
  destruct (Qltb hn hm) eqn:E1.
  - apply Qltb_lt in E1. by apply Qlt_le_weak.
  - destruct (Qltb hm hn) eqn:E2; [done|].
    apply Qnot_lt_le. intros Hc. apply Qltb_lt in Hc. congruence.
Qed.

Lemma rev_split_iff l n (P : @OENode Concept → Prop) :
  (∃ l1 l2, rev l = l1 ++ n :: l2 ∧ Forall P l1)
  ↔ (∃ worse better, l = worse ++ n :: better ∧ Forall P better).
Proof.
  split.
  - intros (l1 & l2 & Heq & Hl1). exists (rev l2), (rev l1). split.
    + rewrite <- (rev_involutive l), Heq, rev_app_distr. simpl.
      by rewrite <- app_assoc.
    + by apply Forall_rev.
  - intros (w & b & -> & Hb). exists (rev b), (rev w). split.
    + rewrite rev_app_distr. simpl. by rewrite <- app_assoc.
    + by apply Forall_rev.
Qed.

(** C4.  On a non-empty queue of scored nodes, kept in ascending
    heuristic order by the sorted set:
    - with [best_only] the last node of the queue is returned, whatever
      its quality, and no node of the queue has a greater heuristic;
    - without [best_only] the node returned is the one met first when
      the queue is walked from its best end and whose quality is below
      1.0 (every node after it in the queue has quality at least 1.0 and
      every node before it has a heuristic that is not greater), and the
      call raises exactly when no node has quality below 1.0. *)
Theorem next_node_to_expand_spec q (step : Z) :
  q ≠ [] →
  Forall evaluated q →
  StronglySorted (placed_before concept_lt) q →
  (∃ n, next_node_to_expand true q step = Ret n
        ∧ last q = Some n
        ∧ ∃ others, q = others ++ [n] ∧ Forall (λ m, heuristic_le m n) others)
  ∧ (∀ n, next_node_to_expand false q step = Ret n ↔
          ∃ worse better, q = worse ++ n :: better
                          ∧ unsolved n
                          ∧ Forall (λ m, ¬ unsolved m) better)
  ∧ (∀ n, next_node_to_expand false q step = Ret n →
          ∃ worse better, q = worse ++ n :: better
                          ∧ Forall (λ m, heuristic_le m n) worse)
  ∧ (raises (next_node_to_expand false q step)
     ↔ Forall (λ m, ¬ unsolved m) q).
Proof.
  intros Hne Hev Hsorted.
  assert (Hrev : Forall evaluated (rev q)) by (by apply Forall_rev).
  assert (Hfirst : ∀ n, next_node_to_expand false q step = Ret n ↔
            ∃ worse better, q = worse ++ n :: better
                            ∧ unsolved n
                            ∧ Forall (λ m, ¬ unsolved m) better).
  { intros n. unfold next_node_to_expand. simpl.
    rewrite (scan_returns (rev q) n Hrev). split.
    - intros (l1 & l2 & Heq & Hn & Hl1).
      destruct (proj1 (rev_split_iff q n (λ m, ¬ unsolved m))) as (w & b & Hq & Hb);
        [by exists l1, l2|]. by exists w, b.
    - intros (w & b & Hq & Hn & Hb).
      destruct (proj2 (rev_split_iff q n (λ m, ¬ unsolved m)))
        as (l1 & l2 & Heq & Hl1); [by exists w, b|]. by exists l1, l2. }
  split; [|split; [exact Hfirst|split]].
  - destruct (exists_last Hne) as (others & n & ->).
    exists n. unfold next_node_to_expand. simpl. rewrite last_snoc.
    repeat split. exists others. split; [done|].
    apply Forall_forall. intros m Hm.
    apply placed_before_heuristic_le.
    eapply (StronglySorted_app_1_elem_of _ others [n]); [done|done|].
    apply elem_of_cons. by left.
  - intros n Hn. apply Hfirst in Hn as (w & b & -> & _ & _).
    exists w, b. split; [done|].
    apply Forall_forall. intros m Hm.
    apply placed_before_heuristic_le.
    eapply (StronglySorted_app_1_elem_of _ w (n :: b)); [done|done|].
    apply elem_of_cons. by left.
  - unfold next_node_to_expand. simpl. rewrite (scan_raises (rev q) Hrev).
    split; intros Hall.
    + rewrite <- (rev_involutive q). by apply Forall_rev.
    + by apply Forall_rev.
Qed.
End CeloeFacts.

Lemma next_node_to_expand_spec_witness :
  CELOE.example_queue ≠ []
  ∧ Forall CELOE.evaluated CELOE.example_queue
  ∧ StronglySorted (CELOE.placed_before Nat.ltb) CELOE.example_queue
  ∧ (∃ n, CELOE.next_node_to_expand true CELOE.example_queue 1 = Ret n
          ∧ last CELOE.example_queue = Some n
          ∧ ∃ others, CELOE.example_queue = others ++ [n]
                      ∧ Forall (λ m, CELOE.heuristic_le m n) others)
  ∧ (∀ n, CELOE.next_node_to_expand false CELOE.example_queue 1 = Ret n ↔
          ∃ worse better, CELOE.example_queue = worse ++ n :: better
                          ∧ CELOE.unsolved n
                          ∧ Forall (λ m, ¬ CELOE.unsolved m) better)
  ∧ (∀ n, CELOE.next_node_to_expand false CELOE.example_queue 1 = Ret n →
          ∃ worse better, CELOE.example_queue = worse ++ n :: better
                          ∧ Forall (λ m, CELOE.heuristic_le m n) worse)
  ∧ (raises (CELOE.next_node_to_expand false CELOE.example_queue 1)
     ↔ Forall (λ m, ¬ CELOE.unsolved m) CELOE.example_queue).
Proof.
  assert (H1 : CELOE.example_queue ≠ []) by done.
  assert (H2 : Forall CELOE.evaluated CELOE.example_queue)
    by (repeat constructor; eexists; reflexivity).
  assert (H3 : StronglySorted (CELOE.placed_before Nat.ltb) CELOE.example_queue)
    by (repeat constructor; vm_compute; reflexivity).
  split; [exact H1|]. split; [exact H2|]. split; [exact H3|].
  exact (next_node_to_expand_spec Nat.ltb CELOE.example_queue 1 H1 H2 H3).
Defined.

Example next_node_to_expand_example :
  CELOE.next_node_to_expand false CELOE.example_queue 1
  = Ret (CELOE.mkOENode 2%nat 2 (Some (3 # 4)%Q) (Some (1 # 2)%Q) 2 0)
  ∧ CELOE.next_node_to_expand true CELOE.example_queue 1
    = Ret (CELOE.mkOENode 3%nat 3 (Some 1%Q) (Some (3 # 4)%Q) 3 0).
Proof. split; reflexivity. Qed.

(** ** F1 score *)
Section F1Facts.
Context {Ind : Type} `{Countable Ind}.
Import StaticFuncs.
Implicit Types (individuals pos neg : @py_set Ind _ _).

Lemma true_div_pos (a b : nat) :
  b ≠ 0%nat → true_div a b = Ret (Z.of_nat a # Pos.of_nat b).
Proof. intros Hb. unfold true_div. by destruct (Nat.eqb_spec b 0). Qed.

Lemma true_div_zero (a : nat) : true_div a 0 = Raise ZeroDivisionError.
Proof. reflexivity. Qed.

(** The quotient computed by [a / b] is the rational [a/b]. *)
Lemma true_div_value (a b : nat) :
  b ≠ 0%nat →
  (Z.of_nat a # Pos.of_nat b == inject_Z (Z.of_nat a) / inject_Z (Z.of_nat b))%Q.
Proof.
  intros Hb. rewrite Qmake_Qdiv. rewrite <- (Nat2Pos.id b Hb) at 2.
  by rewrite positive_nat_Z.
Qed.

Lemma Qeq_bool_zero_num (a : Z) (b : positive) : Qeq_bool (a # b) 0 = (a =? 0)%Z.
Proof. unfold Qeq_bool. simpl. by rewrite Z.mul_1_r. Qed.

Lemma compute_f1_score_no_true_positive individuals pos neg :
  type_of individuals = type_of pos → type_of pos = type_of neg →
  size (elems pos ∩ elems individuals) = 0%nat →
  compute_f1_score individuals pos neg = Ret 0%Q.
Proof.
  intros Ht1 Ht2 Htp. unfold compute_f1_score.
  rewrite !bool_decide_eq_true_2 by done. simpl. rewrite Htp. simpl.
  destruct (size (elems pos ∖ elems individuals)) as [|fn]; [done|].
  rewrite true_div_pos by done. simpl.
  destruct (size (elems neg ∩ elems individuals)) as [|fp]; [done|].
  rewrite true_div_pos by done. simpl. done.
Qed.

(** C9, as the code has it.  For three sets of one and the same container
    type: the score is exactly 0 when there is no true positive (also
    when [tp + fn] or [tp + fp] is zero), in particular for an empty set
    of individuals, and nothing is raised; with a true positive it is
    [2 * ((precision * recall) / (precision + recall))]. *)
Theorem compute_f1_score_spec individuals pos neg :
  type_of individuals = type_of pos → type_of pos = type_of neg →
  let tp := size (elems pos ∩ elems individuals) in
  let fp := size (elems neg ∩ elems individuals) in
  let fn := size (elems pos ∖ elems individuals) in
  (tp = 0%nat → compute_f1_score individuals pos neg = Ret 0%Q)
  ∧ (elems individuals = ∅ → compute_f1_score individuals pos neg = Ret 0%Q)
  ∧ (0 < tp →
     ∃ precision recall : Q,
       (precision == inject_Z (Z.of_nat tp) / inject_Z (Z.of_nat (tp + fp)))%Q
       ∧ (recall == inject_Z (Z.of_nat tp) / inject_Z (Z.of_nat (tp + fn)))%Q
       ∧ compute_f1_score individuals pos neg
         = Ret (2 * ((precision * recall) / (precision + recall)))%Q).
Proof.
  intros Ht1 Ht2 tp fp fn. split; [|split].
  - intros Htp. by apply compute_f1_score_no_true_positive.
  - intros Hempty. apply compute_f1_score_no_true_positive; [done..|].
    rewrite Hempty, intersection_empty_r_L. apply size_empty.
  - intros Htp.
    exists (Z.of_nat tp # Pos.of_nat (tp + fp)), (Z.of_nat tp # Pos.of_nat (tp + fn)).
    split; [apply true_div_value; lia|]. split; [apply true_div_value; lia|].
    unfold compute_f1_score. rewrite !bool_decide_eq_true_2 by done. simpl.
    fold tp fp fn. rewrite !true_div_pos by lia. simpl.
    rewrite !Qeq_bool_zero_num.
    destruct (Z.eqb_spec (Z.of_nat tp) 0); [lia|]. done.
Qed.

(** Sets of different container types are rejected by the assertion. *)
Lemma compute_f1_score_type_mismatch individuals pos neg :
  ¬ (type_of individuals = type_of pos ∧ type_of pos = type_of neg) →
  compute_f1_score individuals pos neg = Raise AssertionError.
Proof.
  intros Hn. unfold compute_f1_score.
  destruct (decide (type_of individuals = type_of pos)) as [E1|E1];
    destruct (decide (type_of pos = type_of neg)) as [E2|E2];
    try (exfalso; by apply Hn).
  - rewrite bool_decide_eq_true_2, bool_decide_eq_false_2 by done. done.
  - rewrite bool_decide_eq_false_2 by done. done.
  - rewrite bool_decide_eq_false_2 by done. done.
Qed.
End F1Facts.

(** C9 fails as stated: an empty [set] of individuals checked against
    [frozenset] examples has no true positive, yet the call raises. *)
Lemma compute_f1_score_raises_on_mixed_types :
  StaticFuncs.compute_f1_score StaticFuncs.empty_set_value
    (StaticFuncs.frozenset_of [1%nat]) StaticFuncs.empty_frozenset
  = Raise AssertionError
  ∧ StaticFuncs.elems StaticFuncs.empty_set_value = ∅
  ∧ size (StaticFuncs.elems (StaticFuncs.frozenset_of [1%nat])
          ∩ StaticFuncs.elems StaticFuncs.empty_set_value) = 0%nat.
Proof. repeat split; vm_compute; reflexivity. Qed.

Lemma compute_f1_score_spec_witness :
  StaticFuncs.compute_f1_score
    (StaticFuncs.frozenset_of [1%nat; 2%nat; 5%nat])
    (StaticFuncs.frozenset_of [1%nat; 2%nat; 3%nat])
    (StaticFuncs.frozenset_of [4%nat; 5%nat])
  = Ret (2 * (((2 # 3) * (2 # 3)) / ((2 # 3) + (2 # 3))))%Q
  ∧ StaticFuncs.compute_f1_score StaticFuncs.empty_frozenset
      (StaticFuncs.frozenset_of [1%nat]) (StaticFuncs.frozenset_of [4%nat])
    = Ret 0%Q.
Proof.
  split.
  - vm_compute. reflexivity.
  - pose proof (compute_f1_score_spec StaticFuncs.empty_frozenset
             (StaticFuncs.frozenset_of [1%nat]) (StaticFuncs.frozenset_of [4%nat])
             eq_refl eq_refl) as (_ & Hempty & _).
    apply Hempty. reflexivity.
Defined.

(** ** Unwrapping of SPARQL results *)

Lemma omap_length_le {A B : Type} (f : A → option B) (l : list A) :
  length (omap f l) ≤ length l.
Proof.
  induction l as [|a l IH]; csimpl; [done|].
  destruct (f a); simpl; lia.
Qed.

Section TripleStoreFacts.
Import TripleStore.
Implicit Types (b : row) (bv : binding) (val : list py_obj).

Lemma binding_value_uri bv :
  b_type bv = "uri" → binding_value bv = Some (IRI_create (b_value bv)).
Proof. intros Ht. unfold binding_value. by rewrite Ht. Qed.

Lemma binding_value_typed_literal bv dt :
  b_type bv = "literal" → b_datatype bv = Some dt →
  binding_value bv = Some (OWLLiteral (b_value bv) (OWLDatatype (IRI_create dt))).
Proof. intros Ht Hd. unfold binding_value. by rewrite Ht, Hd. Qed.

Lemma binding_value_plain_literal bv :
  b_type bv = "literal" → b_datatype bv = None → binding_value bv = None.
Proof. intros Ht Hd. unfold binding_value. by rewrite Ht, Hd. Qed.

Lemma binding_value_bnode bv :
  b_type bv = "bnode" → binding_value bv = None.
Proof. intros Ht. unfold binding_value. by rewrite Ht. Qed.






Lemma row_ok_cons v vars_ b :
  row_ok (v :: vars_) b
  ↔ (∃ bv, PyDict.get b v = Some bv ∧ handled bv = true) ∧ row_ok vars_ b.
Proof.
  unfold row_ok. split.
  - intros Hok. split; [apply Hok; by left|]. intros w Hw. apply Hok. by right.
  - intros [Hv Hok] w [->|Hw]%elem_of_cons; [done|by apply Hok].
Qed.





(** Every list of rows is made of well-formed rows in front, followed
    by nothing or by a row that is not well formed. *)
Lemma row_ok_dec vars_ b : row_ok vars_ b ∨ ¬ row_ok vars_ b.
Proof.
  induction vars_ as [|v vars_ [IH|IH]].
  - left. intros w Hw. by apply elem_of_nil in Hw.
  - destruct (PyDict.get b v) as [bv|] eqn:Hget.
    + destruct (handled bv) eqn:Hh.
      * left. apply row_ok_cons. split; [by exists bv|done].
      * right. intros [(bv' & Hget' & Hh') _]%row_ok_cons. congruence.
    + right. intros [(bv' & Hget' & _) _]%row_ok_cons. congruence.
  - right. by intros [_ ?]%row_ok_cons.
Qed.

Lemma rows_split vars_ (bindings : list row) :
  ∃ good rest, bindings = good ++ rest
               ∧ Forall (row_ok vars_) good
               ∧ (rest = [] ∨ ∃ b rest', rest = b :: rest' ∧ ¬ row_ok vars_ b).
Proof.
  induction bindings as [|b bindings (good & rest & -> & Hgood & Hrest)].
  - exists [], []. split_and!; [done|constructor|by left].
  - destruct (row_ok_dec vars_ b) as [Hb|Hb].
    + exists (b :: good), rest. split_and!; [done|by constructor|done].
    + exists [], (b :: good ++ rest). split_and!; [done|constructor|].
      right. by eexists _, _.
Qed.

End TripleStoreFacts.


(** With [OWLLiteral] as return type the placeholder [None] of a skipped
    row reaches the caller, where the other return types filter it out. *)
Example fetch_results_literal_yields_None :
  TripleStore.send_http_request_to_ts_and_fetch_results
    (Ret (TripleStore.Json ["x"]
            [[("x", TripleStore.plain_literal "42")];
             [("x", TripleStore.typed_literal "42"
                      "http://www.w3.org/2001/XMLSchema#integer")]]))
    "OWLLiteral"
  = ([TripleStore.PyNone;
      TripleStore.OWLLiteral "42"
        (TripleStore.OWLDatatype
           (TripleStore.IRI_create "http://www.w3.org/2001/XMLSchema#integer"))],
     None)
  ∧ TripleStore.send_http_request_to_ts_and_fetch_results
      (Ret (TripleStore.Json ["x"]
              [[("x", TripleStore.plain_literal "42")];
               [("x", TripleStore.typed_literal "42"
                        "http://www.w3.org/2001/XMLSchema#integer")]]))
      "OWLDatatype"
    = ([TripleStore.Instance "OWLDatatype"
          (TripleStore.OWLLiteral "42"
             (TripleStore.OWLDatatype
                (TripleStore.IRI_create "http://www.w3.org/2001/XMLSchema#integer")))],
       None).
Proof. split; reflexivity. Qed.

(** A variable of the head that a row leaves unbound ends the stream
    with [KeyError]. *)
Example fetch_results_unbound_variable :
  TripleStore.send_http_request_to_ts_and_fetch_results
    (Ret (TripleStore.Json ["x"; "y"]
            [[("x", TripleStore.uri_binding "http://example.org/a")]]))
    "OWLClass"
  = ([], Some KeyError).
Proof. reflexivity. Qed.


(** ** The priority-queue search tree *)
Section SearchTreeFacts.
Context {Concept : Type} `{Countable Concept}.
Import SearchTree.
Variable quality_score : gmap node_ref (@LBLNode Concept) → node_ref → Q.
Variable heuristic_score : gmap node_ref (@LBLNode Concept) → node_ref → Q.
Abbreviation add_node' := (add_node quality_score heuristic_score).
Implicit Types (w : @world Concept _ _) (n p : @LBLNode Concept).

(** C5 (the code breaks the claim).  Whenever [add_node] takes the branch
    for a concept that is already indexed and a node whose parent is not
    [parent_node], it ends in an exception: applying the heuristic to a
    node that already has one is refused by the setter, and a node
    without one makes the comparison with the old value compare a number
    with [None].  The node is never re-parented and the call never
    returns quietly. *)
Theorem add_node_indexed_concept_raises w (node parent_node : node_ref) n :
  store w !! node = Some n →
  concept n ∈ dom (nodes (tree w)) →
  _parent_ref n ≠ Some parent_node →
  (∀ h, _heuristic n = Some h →
        add_node' node parent_node w
        = (w, Raise (ValueError "Node heuristic already calculated")))
  ∧ (_heuristic n = None →
     (add_node' node parent_node w).2 = Raise TypeError
     ∧ tree (add_node' node parent_node w).1 = tree w)
  ∧ raises (add_node' node parent_node w).2.
Proof.
  intros Hn Hc Hp.
  assert (Hbranch : bool_decide (concept n ∈ dom (nodes (tree w)))
                    && negb (bool_decide (_parent_ref n = Some parent_node)) = true).
  { rewrite bool_decide_eq_true_2 by done.
    by rewrite bool_decide_eq_false_2 by done. }
  assert (Hset : ∀ h, _heuristic n = Some h →
            add_node' node parent_node w
            = (w, Raise (ValueError "Node heuristic already calculated"))).
  { intros h Hh. unfold add_node, mbind, M_bind, load, get_tree. rewrite Hn.
    rewrite Hbranch.
    unfold heuristic_func_apply, set_heuristic, mbind, M_bind, get_store, load.
    rewrite Hn, Hh. reflexivity. }
  assert (Hnone : _heuristic n = None →
            (add_node' node parent_node w).2 = Raise TypeError
            ∧ tree (add_node' node parent_node w).1 = tree w).
  { intros Hh. unfold add_node, mbind, M_bind, load, get_tree. rewrite Hn.
    rewrite Hbranch.
    unfold heuristic_func_apply, set_heuristic, mbind, M_bind, get_store, load,
      save. rewrite Hn, Hh. simpl. rewrite lookup_insert_eq. simpl. done. }
  split; [exact Hset|]. split; [exact Hnone|].
  destruct (_heuristic n) as [h|] eqn:Hh.
  - rewrite (Hset h eq_refl). by eexists.
  - destruct (Hnone eq_refl) as [-> _]. by eexists.
Qed.

(** A node that has not been scored yet and whose concept is not indexed:
    a zero quality rejects it, the index and the queue stay as they
    are; otherwise it is indexed, enqueued and attached to
    [parent_node], and [True] is returned exactly for quality 1. *)
Lemma add_node_new_concept w (node parent_node : node_ref) n p :
  store w !! node = Some n →
  store w !! parent_node = Some p →
  node ≠ parent_node →
  concept n ∉ dom (nodes (tree w)) →
  _quality n = None → _heuristic n = None →
  let q := quality_score (store w) node in
  (Qeq_bool q 0 = true →
   ∃ w', add_node' node parent_node w = (w', Ret (Some false))
         ∧ tree w' = tree w)
  ∧ (Qeq_bool q 0 = false →
     ∃ w' h p',
       add_node' node parent_node w
       = (w', Ret (if Qeq_bool q 1 then Some true else None))
       ∧ nodes (tree w') = <[concept n := node]> (nodes (tree w))
       ∧ items_in_queue (tree w') = items_in_queue (tree w) ++ [((- h)%Q, node)]
       ∧ store w' !! parent_node = Some p'
       ∧ node ∈ _children p').
Proof.
  intros Hn Hp Hne Hc Hq Hh q.
  assert (Hbranch : bool_decide (concept n ∈ dom (nodes (tree w)))
                    && negb (bool_decide (_parent_ref n = Some parent_node)) = false).
  { by rewrite bool_decide_eq_false_2 by done. }
  split; intros Hz.
  - eexists. unfold add_node, mbind, M_bind, load, get_tree. rewrite Hn, Hbranch.
    unfold quality_func_apply, set_quality, mbind, M_bind, get_store, load, save.
    rewrite Hn, Hq. simpl. rewrite lookup_insert_eq. simpl.
    fold q. rewrite Hz. done.
  - eexists _, _, _.
    unfold add_node, mbind, M_bind, load, get_tree. rewrite Hn, Hbranch.
    unfold quality_func_apply, set_quality, mbind, M_bind, get_store, load, save.
    rewrite Hn, Hq. simpl. rewrite lookup_insert_eq. simpl.
    fold q. rewrite Hz.
    unfold heuristic_func_apply, set_heuristic, queue_put, index_node, add_child,
      put_tree, mbind, M_bind, get_store, get_tree, load, save. simpl.
    repeat (rewrite ?lookup_insert_eq, ?Hh; simpl).
    rewrite !lookup_insert_ne by done. rewrite Hp. simpl.
    rewrite lookup_insert_ne by done. rewrite lookup_insert_eq. simpl.
    destruct (Qeq_bool q 1); (split; [reflexivity|]);
      cbn [tree nodes items_in_queue store];
      rewrite lookup_insert_eq; split_and!; try reflexivity;
      cbn [_children]; apply elem_of_union; right; by apply elem_of_singleton.
Qed.
End SearchTreeFacts.

Lemma add_node_indexed_concept_raises_witness :
  SearchTree.store SearchTree.example_world !! 1%nat
    = Some (SearchTree.example_node 1 (Some 0%nat) [])
  ∧ SearchTree.concept (SearchTree.example_node 1 (Some 0%nat) [])
      ∈ dom (SearchTree.nodes (SearchTree.tree SearchTree.example_world))
  ∧ SearchTree._parent_ref (SearchTree.example_node 1 (Some 0%nat) []) ≠ Some 2%nat
  ∧ SearchTree.add_node SearchTree.example_quality SearchTree.example_heuristic
      1%nat 2%nat SearchTree.example_world
    = (SearchTree.example_world,
       Raise (ValueError "Node heuristic already calculated")).
Proof.
  assert (H1 : SearchTree.store SearchTree.example_world !! 1%nat
               = Some (SearchTree.example_node 1 (Some 0%nat) []))
    by (vm_compute; reflexivity).
  assert (H2 : SearchTree.concept (SearchTree.example_node 1 (Some 0%nat) [])
               ∈ dom (SearchTree.nodes (SearchTree.tree SearchTree.example_world))).
  { apply elem_of_dom. exists 1%nat. vm_compute. reflexivity. }
  assert (H3 : SearchTree._parent_ref (SearchTree.example_node 1 (Some 0%nat) [])
               ≠ Some 2%nat) by discriminate.
  split; [exact H1|]. split; [exact H2|]. split; [exact H3|].
  destruct (add_node_indexed_concept_raises SearchTree.example_quality
              SearchTree.example_heuristic SearchTree.example_world 1%nat 2%nat
              _ H1 H2 H3) as (Hset & _ & _).
  apply (Hset (1 # 2)%Q). reflexivity.
Defined.

(** ** The textual transform of universal restrictions *)
Section RegexFacts.
Import DL Regex.
Variable unicode_word : N → bool.
Hypothesis forall_not_word : unicode_word FORALL = false.
Abbreviation word := (is_word unicode_word).
Implicit Types (s w rest : str).

Lemma expect_app (literal : str) s : expect literal (literal ++ s) = Some s.
Proof.
  induction literal as [|c literal IH]; simpl; [done|].
  by rewrite N.eqb_refl.
Qed.

Lemma expect_head_ne (c x : N) (literal : str) s :
  x ≠ c → expect (c :: literal) (x :: s) = None.
Proof. intros Hne. simpl. by destruct (N.eqb_spec x c). Qed.

Lemma expect_forall_head (literal : str) s s' :
  expect (FORALL :: literal) s = Some s' → ∃ t, s = FORALL :: t.
Proof.
  destruct s as [|x s]; simpl; [done|].
  destruct (N.eqb_spec x FORALL) as [->|]; [|done]. by eexists.
Qed.

Lemma span_word_run w rest :
  Forall (λ c, word c = true) w →
  (∀ c rest', rest = c :: rest' → word c = false) →
  span_word unicode_word (w ++ rest) = (w, rest).
Proof.
  intros Hw Hrest. induction Hw as [|c w Hc Hw IH]; simpl.
  - destruct rest as [|c rest']; [done|]. simpl.
    by rewrite (Hrest c rest' eq_refl).
  - rewrite Hc, IH. done.
Qed.

Lemma word_group_run w rest :
  word_name unicode_word w →
  (∀ c rest', rest = c :: rest' → word c = false) →
  word_group unicode_word (w ++ rest) = Some (w, rest).
Proof.
  intros [Hne Hw] Hrest. unfold word_group. rewrite span_word_run by done.
  by destruct w.
Qed.

Lemma sub_from_nil fuel matcher replacement :
  sub_from fuel matcher replacement [] = [].
Proof. by destruct fuel. Qed.

(** A text without [∀] is left as it is by both substitutions. *)
Lemma sub_from_unchanged matcher replacement :
  (∀ s x, matcher s = Some x → ∃ t, s = FORALL :: t) →
  ∀ fuel s, FORALL ∉ s → sub_from fuel matcher replacement s = s.
Proof.
  intros Hm. induction fuel as [|fuel IH]; intros s Hs; [done|].
  destruct s as [|c s]; [done|]. simpl.
  apply not_elem_of_cons in Hs as [Hc Hs].
  destruct (matcher (c :: s)) as [[[g1 g2] r]|] eqn:E.
  - apply Hm in E as [t [= -> _]]. done.
  - by rewrite IH.
Qed.

Lemma match_negated_head s x :
  match_negated unicode_word s = Some x → ∃ t, s = FORALL :: t.
Proof.
  unfold match_negated. destruct (expect [FORALL; SPACE] s) as [s1|] eqn:E; [|done].
  intros _. by apply expect_forall_head in E.
Qed.

Lemma match_non_negated_head s x :
  match_non_negated unicode_word s = Some x → ∃ t, s = FORALL :: t.
Proof.
  unfold match_non_negated.
  destruct (expect [FORALL; SPACE] s) as [s1|] eqn:E; [|done].
  intros _. by apply expect_forall_head in E.
Qed.

Lemma word_not_forall c : word c = true → c ≠ FORALL.
Proof.
  intros Hc ->. unfold is_word in Hc. simpl in Hc. congruence.
Qed.

Lemma word_name_no_forall w : word_name unicode_word w → FORALL ∉ w.
Proof.
  intros [_ Hw] Hin. rewrite Forall_forall in Hw.
  by apply (word_not_forall FORALL (Hw _ Hin)).
Qed.

Lemma dot_not_word : word DOT = false.
Proof. reflexivity. Qed.

Lemma lparen_not_word : word LPAREN = false.
Proof. reflexivity. Qed.

Lemma rparen_not_word : word RPAREN = false.
Proof. reflexivity. Qed.

Lemma starts_with_non_word (c : N) rest :
  word c = false → ∀ c' rest', c :: rest = c' :: rest' → word c' = false.
Proof. by intros Hc c' rest' [= <- _]. Qed.

Lemma nothing_follows : ∀ (c' : N) (rest' : str), [] = c' :: rest' → word c' = false.
Proof. done. Qed.

Lemma sub_from_step fuel matcher replacement (c : N) s :
  sub_from (S fuel) matcher replacement (c :: s)
  = match matcher (c :: s) with
    | Some (g1, g2, rest) =>
        replacement g1 g2 ++ sub_from fuel matcher replacement rest
    | None => c :: sub_from fuel matcher replacement s
    end.
Proof. reflexivity. Qed.

(** The rendering of [∀ r.C] and of [∀ r.(¬C)] for names [r] and [C]. *)
Lemma render_universal_named (r C : str) :
  owl_expression_to_dl (OWLObjectAllValuesFrom (OWLObjectProperty r) (OWLClass C))
  = FORALL :: SPACE :: (r ++ DOT :: C).
Proof. reflexivity. Qed.

Lemma render_universal_negated (r C : str) :
  owl_expression_to_dl
    (OWLObjectAllValuesFrom (OWLObjectProperty r) (OWLObjectComplementOf (OWLClass C)))
  = FORALL :: SPACE :: (r ++ DOT :: LPAREN :: NOT :: (C ++ [RPAREN])).
Proof. reflexivity. Qed.

Lemma match_negated_named (r C : str) :
  word_name unicode_word r → word_name unicode_word C →
  match_negated unicode_word (FORALL :: SPACE :: (r ++ DOT :: C)) = None.
Proof.
  intros Hr [HC HCw]. unfold match_negated.
  change (FORALL :: SPACE :: (r ++ DOT :: C))
    with ([FORALL; SPACE] ++ (r ++ DOT :: C)).
  rewrite expect_app. simpl.
  rewrite (word_group_run r (DOT :: C)) by
    (done || apply starts_with_non_word, dot_not_word). simpl.
  destruct C as [|c C]; [done|]. apply Forall_cons in HCw as [Hc _].
  destruct (N.eqb_spec c LPAREN) as [->|]; [|done].
  rewrite lparen_not_word in Hc. done.
Qed.

Lemma match_non_negated_named (r C : str) :
  word_name unicode_word r → word_name unicode_word C →
  match_non_negated unicode_word (FORALL :: SPACE :: (r ++ DOT :: C))
  = Some (r, C, []).
Proof.
  intros Hr HC. unfold match_non_negated.
  change (FORALL :: SPACE :: (r ++ DOT :: C))
    with ([FORALL; SPACE] ++ (r ++ DOT :: C)).
  rewrite expect_app. simpl.
  rewrite (word_group_run r (DOT :: C)) by
    (done || apply starts_with_non_word, dot_not_word). simpl.
  rewrite ?N.eqb_refl.
  rewrite <- (app_nil_r C) at 1.
  rewrite (word_group_run C []) by (done || apply nothing_follows). done.
Qed.

Lemma match_negated_negated (r C : str) :
  word_name unicode_word r → word_name unicode_word C →
  match_negated unicode_word
    (FORALL :: SPACE :: (r ++ DOT :: LPAREN :: NOT :: (C ++ [RPAREN])))
  = Some (r, C, []).
Proof.
  intros Hr HC. unfold match_negated.
  change (FORALL :: SPACE :: (r ++ DOT :: LPAREN :: NOT :: (C ++ [RPAREN])))
    with ([FORALL; SPACE] ++ (r ++ DOT :: LPAREN :: NOT :: (C ++ [RPAREN]))).
  rewrite expect_app. simpl.
  rewrite (word_group_run r (DOT :: LPAREN :: NOT :: C ++ [RPAREN])) by
    (done || apply starts_with_non_word, dot_not_word). simpl.
  rewrite ?N.eqb_refl.
  rewrite (word_group_run C [RPAREN]) by
    (done || apply starts_with_non_word, rparen_not_word). simpl.
  by rewrite ?N.eqb_refl.
Qed.

Lemma no_forall_in_named (r C : str) (between : str) :
  word_name unicode_word r → word_name unicode_word C →
  FORALL ∉ between → FORALL ∉ r ++ between ++ C.
Proof.
  intros Hr HC Hb Hin. apply elem_of_app in Hin as [Hin|Hin].
  - by apply (word_name_no_forall r).
  - apply elem_of_app in Hin as [Hin|Hin]; [done|].
    by apply (word_name_no_forall C).
Qed.

(** The transform on the two shapes it is written for. *)
Lemma transform_universal_named (r C : str) :
  word_name unicode_word r → word_name unicode_word C →
  transform_forall_to_exists unicode_word
    (owl_expression_to_dl
       (OWLObjectAllValuesFrom (OWLObjectProperty r) (OWLClass C)))
  = owl_expression_to_dl
      (OWLObjectSomeValuesFrom (OWLObjectProperty r)
         (OWLObjectComplementOf (OWLClass C))).
Proof.
  intros Hr HC. rewrite render_universal_named.
  unfold transform_forall_to_exists.
  assert (Hfirst : re_sub (match_negated unicode_word) replacement_negated
                     (FORALL :: SPACE :: (r ++ DOT :: C))
                   = FORALL :: SPACE :: (r ++ DOT :: C)).
  { unfold re_sub. cbn [length].
    rewrite sub_from_step, match_negated_named by done.
    f_equal. apply sub_from_unchanged; [apply match_negated_head|].
    intros Hin. apply elem_of_cons in Hin as [Hin|Hin]; [done|].
    apply (no_forall_in_named r C [DOT]); [done..| |done].
    intros Hd. by apply list_elem_of_singleton in Hd. }
  rewrite Hfirst. unfold re_sub. cbn [length].
  rewrite sub_from_step, match_non_negated_named by done.
  rewrite sub_from_nil, app_nil_r. unfold replacement_non_negated.
  rewrite <- ?app_assoc. reflexivity.
Qed.

Lemma transform_universal_negated (r C : str) :
  word_name unicode_word r → word_name unicode_word C →
  transform_forall_to_exists unicode_word
    (owl_expression_to_dl
       (OWLObjectAllValuesFrom (OWLObjectProperty r)
          (OWLObjectComplementOf (OWLClass C))))
  = owl_expression_to_dl
      (OWLObjectSomeValuesFrom (OWLObjectProperty r) (OWLClass C)).
Proof.
  intros Hr HC. rewrite render_universal_negated.
  unfold transform_forall_to_exists.
  assert (Hfirst : re_sub (match_negated unicode_word) replacement_negated
            (FORALL :: SPACE :: (r ++ DOT :: LPAREN :: NOT :: (C ++ [RPAREN])))
          = EXISTS :: SPACE :: (r ++ [DOT] ++ C)).
  { unfold re_sub. cbn [length].
    rewrite sub_from_step, match_negated_negated by done.
    by rewrite sub_from_nil, app_nil_r. }
  rewrite Hfirst. unfold re_sub.
  rewrite sub_from_unchanged; [done|apply match_non_negated_head|].
  intros Hin. apply elem_of_cons in Hin as [Hin|Hin]; [done|].
  apply elem_of_cons in Hin as [Hin|Hin]; [done|].
  apply (no_forall_in_named r C [DOT]); [done..| |done].
  intros Hd. by apply list_elem_of_singleton in Hd.
Qed.
End RegexFacts.

(** ** The caching wrapper on universal restrictions *)
Section WrapperFacts.
Context {Ind : Type} `{Countable Ind}.
Import DL Wrapper.
Variable unicode_word : N → bool.
Variable rand_index : Z → nat → nat.
Variable time_at : nat → Q.
Variable func : OWLClassExpression → string → string → res (@value Ind _ _).
Variable load_ontology : string → res unit.
Variable individuals_of : string → res (gset Ind).
Variable related : string → OWLObjectPropertyExpression → @item Ind → @item Ind → res bool.
Variable cache_type : string.
Variable concepts : list OWLClassExpression.
Abbreviation load' := (load load_ontology individuals_of).
Abbreviation prepare' :=
  (prepare rand_index time_at func related cache_type concepts).
Abbreviation dispatch' :=
  (dispatch unicode_word time_at func related cache_type).
Abbreviation finish' := (finish rand_index time_at).
Abbreviation wrapper' :=
  (wrapper unicode_word rand_index time_at func load_ontology individuals_of
     related cache_type concepts).
Implicit Types (st : @wstate Ind _ _) (a : call_args).

Lemma dict_get_not_contained {K V : Type} `{EqDecision K} (d : list (K * V)) (k : K) :
  PyDict.contains d k = false → PyDict.get d k = None.
Proof.
  intros Hc. apply dict_contains_false in Hc.
  induction d as [|[k' v] d IH]; simpl; [done|].
  apply not_elem_of_cons in Hc as [Hne Hc]. simpl in Hne.
  destruct (decide (k' = k)) as [->|]; [done|]. by apply IH.
Qed.

(** [cache.get] returns the value stored under the key, if any. *)
Lemma cache_get_value {V : Type} (c : @SemanticCaching.CacheWithEviction str V)
    (now : Q) (key : str) :
  (SemanticCaching.get c now key).1 = PyDict.get (SemanticCaching.cache c) key
  ∧ SemanticCaching.cache (SemanticCaching.get c now key).2 = SemanticCaching.cache c.
Proof.
  unfold SemanticCaching.get.
  destruct (PyDict.contains (SemanticCaching.cache c) key) eqn:E; simpl.
  - split; [done|]. by destruct (SemanticCaching.tracks_access c).
  - split; [|done]. symmetry. by apply dict_get_not_contained.
Qed.

(** A lookup gives the value held under the key, [None] when the key is
    not held. *)
Lemma retrieve_from_cache_value st (key : str) :
  ∃ st', retrieve_from_cache time_at key st
         = (st', Ret (default PyNone
                        (PyDict.get (SemanticCaching.cache (w_cache st)) key))).
Proof.
  unfold retrieve_from_cache, cache_get, mbind, W_bind, tick, read_cache. simpl.
  pose proof (cache_get_value (w_cache st) (time_at (clock st)) key) as [Hv _].
  destruct (SemanticCaching.get (w_cache st) (time_at (clock st)) key) as [v c'].
  simpl in Hv. subst v. unfold write_cache. simpl.
  destruct (PyDict.get (SemanticCaching.cache (w_cache st)) key) as [[|r]|];
    simpl; by eexists.
Qed.

(** C7, as the code has it.  For every universal restriction passed to
    the wrapper, once the ontology is loaded and the cache prepared, the
    rendering of the expression goes through the two substitutions.  If
    the resulting text is a key of the cache that holds a set, the
    result is the full set of individuals minus that set and the wrapped
    function is not called; if it is no key, or a key that holds [None],
    the call ends as the wrapped function ends: its result, [None]
    included, is written to the cache and returned, its exception is
    passed on.  When the property is a named one and the filler is a
    named class or the complement of a named class, the names being made
    of word characters, the resulting text is the rendering of the
    existential dual. *)
Theorem universal_restriction_resolution a p f st st0 st1 All_individuals :
  owl_expression a = OWLObjectAllValuesFrom p f →
  load' a st = (st0, Ret All_individuals) →
  prepare' a All_individuals st0 = (st1, Ret tt) →
  let some_values_expr :=
    Regex.transform_forall_to_exists unicode_word
      (owl_expression_to_dl (owl_expression a)) in
  (∃ st2,
     match PyDict.get (SemanticCaching.cache (w_cache st1)) some_values_expr with
     | Some (PySet r) =>
         dispatch' a All_individuals st1 = (st2, Ret (PySet (All_individuals ∖ r)))
         ∧ wrapper' a st = finish' a (PySet (All_individuals ∖ r)) st2
     | _ =>
         dispatch' a All_individuals st1
         = (st2, func (owl_expression a) (path_onto a) (third a))
         ∧ wrapper' a st
           = match func (owl_expression a) (path_onto a) (third a) with
             | Ret result => finish' a result st2
             | Raise e => (st2, Raise e)
             end
     end)
  ∧ (unicode_word FORALL = false →
     ∀ r C, Regex.word_name unicode_word r → Regex.word_name unicode_word C →
            p = OWLObjectProperty r →
            f = OWLClass C ∨ f = OWLObjectComplementOf (OWLClass C) →
            some_values_expr = owl_expression_to_dl (existential_dual p f)).
Proof.
  intros Hexpr Hload Hprep some_values_expr. split.
  - destruct (retrieve_from_cache_value st1 some_values_expr) as [st2 Hst2].
    exists st2.
    assert (Hd : dispatch' a All_individuals st1
                 = match default PyNone
                           (PyDict.get (SemanticCaching.cache (w_cache st1))
                              some_values_expr) with
                   | PySet r => (st2, Ret (PySet (All_individuals ∖ r)))
                   | PyNone => (st2, func (owl_expression a) (path_onto a) (third a))
                   end).
    { unfold dispatch. rewrite Hexpr. rewrite <- Hexpr.
      fold some_values_expr. unfold mbind, W_bind. rewrite Hst2.
      by destruct (default PyNone _). }
    assert (Hw : ∀ r, dispatch' a All_individuals st1 = (st2, r) →
                 wrapper' a st = match r with
                                 | Ret result => finish' a result st2
                                 | Raise e => (st2, Raise e)
                                 end).
    { intros r Hr. unfold wrapper. unfold mbind at 1, W_bind at 1. rewrite Hload.
      unfold mbind at 1, W_bind at 1. rewrite Hprep.
      unfold mbind at 1, W_bind at 1. rewrite Hr. by destruct r. }
    destruct (PyDict.get (SemanticCaching.cache (w_cache st1)) some_values_expr)
      as [[|r]|]; simpl in Hd; (split; [exact Hd|]).
    + by rewrite (Hw _ Hd).
    + by rewrite (Hw _ Hd).
    + by rewrite (Hw _ Hd).
  - intros Hforall r C Hr HC -> [-> | ->]; unfold some_values_expr;
      rewrite Hexpr; simpl existential_dual.
    + by apply transform_universal_named.
    + by apply transform_universal_negated.
Qed.
End WrapperFacts.

(** C7 fails as stated.  The universal restriction [∀ r.(A ⊓ B)] is not
    rewritten at all by the two substitutions; with the extension of its
    existential dual [∃ r.(¬(A ⊓ B))] in the cache, the wrapper misses
    the cache and returns what the wrapped function returns, not the
    complement of the cached extension. *)
Lemma universal_restriction_counterexample :
  Regex.transform_forall_to_exists Regex.ascii_only
    (DL.owl_expression_to_dl Wrapper.example_universal)
  = DL.owl_expression_to_dl Wrapper.example_universal
  ∧ DL.owl_expression_to_dl Wrapper.example_universal
    ≠ DL.owl_expression_to_dl Wrapper.example_dual
  ∧ PyDict.get (SemanticCaching.cache (Wrapper.w_cache Wrapper.example_state))
      (DL.owl_expression_to_dl Wrapper.example_dual)
    = Some (Wrapper.PySet {[Wrapper.IriStr 1%nat]})
  ∧ (Wrapper.example_wrapper Wrapper.example_args Wrapper.example_state).2
    = Ret (Wrapper.PySet ∅)
  ∧ Wrapper.hits (Wrapper.example_wrapper Wrapper.example_args Wrapper.example_state).1
    = 0%nat
  ∧ Wrapper.misses (Wrapper.example_wrapper Wrapper.example_args Wrapper.example_state).1
    = 1%nat
  ∧ (Wrapper.load (λ _, Ret tt) Wrapper.example_individuals
       Wrapper.example_args Wrapper.example_state).2
    = Ret Wrapper.example_All
  ∧ Wrapper.example_All ∖ {[Wrapper.IriStr 1%nat]} = {[Wrapper.IriStr 2%nat]}.
Proof.
  split_and!; try (vm_compute; reflexivity).
  vm_compute. discriminate.
Qed.

Lemma universal_restriction_resolution_witness :
  (∃ st2, Wrapper.dispatch Regex.ascii_only (λ _, 0%Q) Wrapper.example_func
            (λ _ _ _ _, Ret false) "hot"
            Wrapper.example_args_named Wrapper.example_All
            Wrapper.example_state_loaded
          = (st2, Ret (Wrapper.PySet (Wrapper.example_All ∖ {[Wrapper.IriStr 1%nat]}))))
  ∧ (∃ st2, Wrapper.dispatch Regex.ascii_only (λ _, 0%Q) Wrapper.example_func
              (λ _ _ _ _, Ret false) "hot"
              Wrapper.example_args_named Wrapper.example_All
              Wrapper.example_state_None
            = (st2, Ret (Wrapper.PySet ∅)))
  ∧ Regex.transform_forall_to_exists Regex.ascii_only
      (DL.owl_expression_to_dl
         (Wrapper.owl_expression Wrapper.example_args_named))
    = DL.owl_expression_to_dl
        (DL.existential_dual (DL.OWLObjectProperty (DL.lit "hasChild"))
           (DL.OWLClass (DL.lit "Male"))).
Proof.
  assert (H1 : Wrapper.owl_expression Wrapper.example_args_named
               = DL.OWLObjectAllValuesFrom (DL.OWLObjectProperty (DL.lit "hasChild"))
                   (DL.OWLClass (DL.lit "Male"))) by reflexivity.
  assert (Hl : ∀ st, Wrapper.loaded_ontologies st = {["family.owl"]} →
               Wrapper.loaded_individuals st = [("family.owl", {[1%nat; 2%nat]})] →
               Wrapper.load (λ _, Ret tt) Wrapper.example_individuals
                 Wrapper.example_args_named st
               = (st, Ret Wrapper.example_All)).
  { intros st Ho Hi. unfold Wrapper.load, mbind, Wrapper.W_bind, Wrapper.read_state.
    simpl. rewrite Ho.
    rewrite bool_decide_eq_true_2 by (by apply elem_of_singleton).
    simpl. rewrite Hi. simpl. unfold mret, Wrapper.W_ret. by do 2 f_equal. }
  assert (Hp : ∀ st, Wrapper.prepare (λ _ _, 0%nat) (λ _, 0%Q) Wrapper.example_func
                 (λ _ _ _ _, Ret false) "hot" []
                 Wrapper.example_args_named Wrapper.example_All st
               = (st, Ret tt)) by reflexivity.
  destruct (universal_restriction_resolution Regex.ascii_only (λ _ _, 0%nat)
              (λ _, 0%Q) Wrapper.example_func (λ _, Ret tt)
              Wrapper.example_individuals
              (λ _ _ _ _, Ret false) "hot" [] _ _ _ _ _ _ _ H1
              (Hl Wrapper.example_state_loaded eq_refl eq_refl)
              (Hp Wrapper.example_state_loaded))
    as [(st2 & Hd & _) Hdual].
  destruct (universal_restriction_resolution Regex.ascii_only (λ _ _, 0%nat)
              (λ _, 0%Q) Wrapper.example_func (λ _, Ret tt)
              Wrapper.example_individuals
              (λ _ _ _ _, Ret false) "hot" [] _ _ _ _ _ _ _ H1
              (Hl Wrapper.example_state_None eq_refl eq_refl)
              (Hp Wrapper.example_state_None))
    as [(st3 & Hd3 & _) _].
  split; [|split].
  - exists st2. exact Hd.
  - exists st3. exact Hd3.
  - apply (Hdual eq_refl (DL.lit "hasChild") (DL.lit "Male")).
    + split; [done|]. repeat constructor.
    + split; [done|]. repeat constructor.
    + reflexivity.
    + by left.
Defined.

From Stdlib Require Import Lqa.

(** * Further properties *)

(** ** Dictionaries: keys under update and removal *)

Section DictKeyFacts.
Context {K V : Type} `{EqDecision K}.
Implicit Types (d : list (K * V)) (k : K) (v : V).

Lemma dict_keys_cons k v d : PyDict.keys ((k, v) :: d) = k :: PyDict.keys d.
Proof. reflexivity. Qed.

Lemma dict_contains_cons k' v' d k :
  PyDict.contains ((k', v') :: d) k = bool_decide (k' = k) || PyDict.contains d k.
Proof.
  unfold PyDict.contains. rewrite dict_keys_cons, <- bool_decide_or.
  apply bool_decide_ext. rewrite elem_of_cons. intuition congruence.
Qed.

Lemma dict_keys_set d k v :
  PyDict.keys (PyDict.set d k v)
  = if PyDict.contains d k then PyDict.keys d else PyDict.keys d ++ [k].
Proof.
  induction d as [|[k' v'] d IH].
  - reflexivity.
  - cbn [PyDict.set]. rewrite dict_contains_cons.
    destruct (decide (k' = k)) as [->|Hne].
    + by rewrite bool_decide_eq_true_2.
    + rewrite bool_decide_eq_false_2 by done. cbn [orb].
      rewrite !dict_keys_cons, IH. by destruct (PyDict.contains d k).
Qed.

Lemma dict_elem_of_keys_set d k v k' :
  k' ∈ PyDict.keys (PyDict.set d k v) ↔ k' = k ∨ k' ∈ PyDict.keys d.
Proof.
  rewrite dict_keys_set. destruct (PyDict.contains d k) eqn:E.
  - apply dict_contains_true in E. split; [by right|].
    intros [->|?]; done.
  - rewrite elem_of_app, list_elem_of_singleton. tauto.
Qed.

Lemma dict_NoDup_keys_set d k v :
  NoDup (PyDict.keys d) → NoDup (PyDict.keys (PyDict.set d k v)).
Proof.
  intros Hnd. rewrite dict_keys_set. destruct (PyDict.contains d k) eqn:E; [done|].
  apply dict_contains_false in E. apply NoDup_app. split_and!; [done| |apply NoDup_singleton].
  intros x Hx Hx'. apply list_elem_of_singleton in Hx'. by subst.
Qed.

Lemma dict_get_set d k v : PyDict.get (PyDict.set d k v) k = Some v.
Proof.
  induction d as [|[k' v'] d IH]; simpl.
  - by rewrite decide_True.
  - destruct (decide (k' = k)) as [->|Hne]; simpl.
    + by rewrite decide_True.
    + by rewrite decide_False.
Qed.

Lemma dict_get_set_ne d k k' v :
  k ≠ k' → PyDict.get (PyDict.set d k v) k' = PyDict.get d k'.
Proof.
  intros Hne. induction d as [|[k0 v0] d IH]; simpl.
  - by rewrite decide_False.
  - destruct (decide (k0 = k)) as [->|Hne0]; simpl.
    + by rewrite !decide_False.
    + by rewrite IH.
Qed.

Lemma dict_get_is_Some d k : is_Some (PyDict.get d k) ↔ k ∈ PyDict.keys d.
Proof.
  unfold PyDict.keys. induction d as [|[k' v'] d IH]; simpl.
  - split; [by intros [? ?]|]. intros Hin. by apply elem_of_nil in Hin.
  - destruct (decide (k' = k)) as [->|Hne].
    + split; [intros _; by left|by eexists].
    + rewrite IH, elem_of_cons. intuition congruence.
Qed.

Lemma dict_remove_notin d k : k ∉ PyDict.keys d → PyDict.remove d k = d.
Proof.
  unfold PyDict.keys. induction d as [|[k' v'] d IH]; simpl; [done|].
  intros Hn. apply not_elem_of_cons in Hn as [Hne Hn].
  destruct (decide (k' = k)); [congruence|]. by rewrite IH.
Qed.

Lemma dict_keys_remove_subset d k k' :
  k' ∈ PyDict.keys (PyDict.remove d k) → k' ∈ PyDict.keys d.
Proof.
  unfold PyDict.keys. induction d as [|[k0 v0] d IH]; simpl; [done|].
  destruct (decide (k0 = k)) as [->|Hne]; simpl.
  - intros Hin. by right.
  - rewrite !elem_of_cons. intuition congruence.
Qed.

Lemma dict_elem_of_keys_remove d k k' :
  NoDup (PyDict.keys d) →
  k' ∈ PyDict.keys (PyDict.remove d k) ↔ k' ∈ PyDict.keys d ∧ k' ≠ k.
Proof.
  unfold PyDict.keys. induction d as [|[k0 v0] d IH]; simpl.
  - intros _. split; [intros Hin; by apply elem_of_nil in Hin|].
    intros [Hin _]. by apply elem_of_nil in Hin.
  - intros Hnd. apply NoDup_cons in Hnd as [Hnotin Hnd].
    destruct (decide (k0 = k)) as [->|Hne]; simpl.
    + rewrite elem_of_cons. split.
      * intros Hin. split; [by right|]. intros ->. done.
      * intros [[->|Hin] Hne]; done.
    + rewrite !elem_of_cons, (IH Hnd). intuition congruence.
Qed.

Lemma dict_NoDup_keys_remove d k :
  NoDup (PyDict.keys d) → NoDup (PyDict.keys (PyDict.remove d k)).
Proof.
  unfold PyDict.keys. induction d as [|[k0 v0] d IH]; simpl; [done|].
  intros Hnd. apply NoDup_cons in Hnd as [Hnotin Hnd].
  destruct (decide (k0 = k)) as [->|Hne]; simpl; [done|].
  apply NoDup_cons. split; [|by apply IH].
  intros Hin. apply Hnotin. by apply (dict_keys_remove_subset d k).
Qed.

Lemma dict_set_notin d k v :
  k ∉ PyDict.keys d → PyDict.set d k v = d ++ [(k, v)].
Proof.
  unfold PyDict.keys. induction d as [|[k0 v0] d IH]; simpl; [done|].
  intros Hn. apply not_elem_of_cons in Hn as [Hne Hn].
  destruct (decide (k0 = k)); [congruence|]. by rewrite IH.
Qed.

Lemma dict_keys_removelast d :
  PyDict.keys (removelast d) = removelast (PyDict.keys d).
Proof.
  unfold PyDict.keys. induction d as [|x d IH]; [done|].
  destruct d as [|y d]; [done|].
  change (removelast (x :: y :: d)) with (x :: removelast (y :: d)).
  rewrite fmap_cons, IH. reflexivity.
Qed.

Lemma NoDup_removelast {A : Type} (l : list A) : NoDup l → NoDup (removelast l).
Proof.
  induction l as [|x l IH]; [done|]. intros Hnd.
  apply NoDup_cons in Hnd as [Hx Hnd].
  destruct l as [|y l]; [constructor|].
  change (removelast (x :: y :: l)) with (x :: removelast (y :: l)).
  apply NoDup_cons. split; [|by apply IH].
  intros Hin. apply Hx.
  clear -Hin. revert Hin. generalize (y :: l). intros l'.
  induction l' as [|a l' IH']; [done|].
  destruct l' as [|b l']; [simpl; intros Hin; by apply elem_of_nil in Hin|].
  change (removelast (a :: b :: l')) with (a :: removelast (b :: l')).
  rewrite !elem_of_cons. intros [->|Hin]; [by left|]. right.
  apply IH' in Hin. by apply elem_of_cons in Hin.
Qed.
End DictKeyFacts.

(** ** CacheWithEviction: what a run of calls keeps *)

Section CacheRunFacts.
Context {K V : Type} `{EqDecision K}.
Variable rand_index : Z → nat → nat.
Import SemanticCaching CacheRuns.
Implicit Types (c : @CacheWithEviction K V).

Lemma arg_best_least (d : list (K * Q)) : ∀ best,
  ∃ t, (arg_best Qltb best d, t) ∈ best :: d
       ∧ ∀ k' t', (k', t') ∈ best :: d → (t <= t')%Q.
Proof.
  induction d as [|[k t] d IH]; intros [kb tb]; simpl.
  - exists tb. split; [by left|]. intros k' t' Hin.
    apply list_elem_of_singleton in Hin. inversion Hin; subst. apply Qle_refl.
  - destruct (Qltb t tb) eqn:E.
    + destruct (IH (k, t)) as (t0 & Hin & Hmin). exists t0. split.
      * right. exact Hin.
      * intros k' t' Hin'. apply elem_of_cons in Hin' as [Heq|Hin'].
        -- inversion Heq; subst. apply Qltb_lt in E.
           eapply Qle_trans; [apply (Hmin k t); by left|]. by apply Qlt_le_weak.
        -- by apply (Hmin k' t').
    + destruct (IH (kb, tb)) as (t0 & Hin & Hmin). exists t0. split.
      * apply elem_of_cons in Hin as [Heq|Hin]; [rewrite Heq; by left|]. right. by right.
      * intros k' t' Hin'. apply elem_of_cons in Hin' as [Heq|Hin'].
        -- inversion Heq; subst. apply (Hmin kb tb). by left.
        -- apply elem_of_cons in Hin' as [Heq|Hin'].
           ++ inversion Heq; subst.
              assert (tb <= t)%Q.
              { apply Qnot_lt_le. intros Hlt. apply Qltb_lt in Hlt. congruence. }
              eapply Qle_trans; [apply (Hmin kb tb); by left|done].
           ++ apply (Hmin k' t'). by right.
Qed.

Lemma arg_best_greatest (d : list (K * Q)) : ∀ best,
  ∃ t, (arg_best (λ t b, Qltb b t) best d, t) ∈ best :: d
       ∧ ∀ k' t', (k', t') ∈ best :: d → (t' <= t)%Q.
Proof.
  induction d as [|[k t] d IH]; intros [kb tb]; simpl.
  - exists tb. split; [by left|]. intros k' t' Hin.
    apply list_elem_of_singleton in Hin. inversion Hin; subst. apply Qle_refl.
  - destruct (Qltb tb t) eqn:E.
    + destruct (IH (k, t)) as (t0 & Hin & Hmax). exists t0. split.
      * right. exact Hin.
      * intros k' t' Hin'. apply elem_of_cons in Hin' as [Heq|Hin'].
        -- inversion Heq; subst. apply Qltb_lt in E.
           eapply Qle_trans; [by apply Qlt_le_weak|]. apply (Hmax k t); by left.
        -- by apply (Hmax k' t').
    + destruct (IH (kb, tb)) as (t0 & Hin & Hmax). exists t0. split.
      * apply elem_of_cons in Hin as [Heq|Hin]; [rewrite Heq; by left|]. right. by right.
      * intros k' t' Hin'. apply elem_of_cons in Hin' as [Heq|Hin'].
        -- inversion Heq; subst. apply (Hmax kb tb). by left.
        -- apply elem_of_cons in Hin' as [Heq|Hin'].
           ++ inversion Heq; subst.
              assert (t <= tb)%Q.
              { apply Qnot_lt_le. intros Hlt. apply Qltb_lt in Hlt. congruence. }
              eapply Qle_trans; [done|]. apply (Hmax kb tb); by left.
           ++ apply (Hmax k' t'). by right.
Qed.

Lemma py_min_key_least (a : list (K * Q)) :
  a ≠ [] → ∃ k, py_min_key a = Ret k ∧ least_recent a k.
Proof.
  destruct a as [|x a]; [done|]. intros _. eexists. split; [reflexivity|].
  destruct (arg_best_least a x) as (t & Hin & Hmin). by exists t.
Qed.

Lemma py_max_key_greatest (a : list (K * Q)) :
  a ≠ [] → ∃ k, py_max_key a = Ret k ∧ most_recent a k.
Proof.
  destruct a as [|x a]; [done|]. intros _. eexists. split; [reflexivity|].
  destruct (arg_best_greatest a x) as (t & Hin & Hmax). by exists t.
Qed.

Lemma elem_of_dict_keys {W : Type} (d : list (K * W)) k w :
  (k, w) ∈ d → k ∈ PyDict.keys d.
Proof. intros Hin. unfold PyDict.keys. apply list_elem_of_fmap. by exists (k, w). Qed.

Lemma dict_del_contained {W : Type} (d : list (K * W)) k :
  k ∈ PyDict.keys d → PyDict.del d k = Ret (PyDict.remove d k).
Proof.
  intros Hin. unfold PyDict.del. by rewrite (proj2 (dict_contains_true _ _)).
Qed.

Lemma random_choice_in seed (l : list K) :
  l ≠ [] → ∃ k, random_choice rand_index seed l = Ret k ∧ k ∈ l.
Proof.
  intros Hne. unfold random_choice.
  assert (Hlt : (rand_index seed (length l) mod length l < length l)%nat).
  { apply Nat.mod_upper_bound. destruct l; [done|]. simpl. lia. }
  apply lookup_lt_is_Some_2 in Hlt as [k Hk]. rewrite Hk.
  exists k. split; [done|]. by eapply list_elem_of_lookup_2.
Qed.

Lemma tracks_access_iff c :
  tracks_access c = true ↔ strategy c = "LRU" ∨ strategy c = "MRU".
Proof.
  unfold tracks_access. rewrite orb_true_iff, !String.eqb_eq. tauto.
Qed.

Lemma evict_unknown_strategy c :
  strategy c ∉ five_strategies → _evict rand_index c = Ret c.
Proof.
  intros Hs. unfold five_strategies in Hs.
  repeat (apply not_elem_of_cons in Hs as [? Hs]).
  unfold _evict. destruct (_ >? _)%Z; [|done].
  destruct (String.eqb_spec (strategy c) "FIFO"); [congruence|].
  destruct (String.eqb_spec (strategy c) "LIFO"); [congruence|].
  destruct (String.eqb_spec (strategy c) "LRU"); [congruence|].
  destruct (String.eqb_spec (strategy c) "MRU"); [congruence|].
  destruct (String.eqb_spec (strategy c) "RP"); [congruence|]. done.
Qed.

Ltac cache_fields :=
  cbn [cache access_times cache_size strategy random_seed initialized
       with_cache with_access_times with_initialized] in *.

Ltac wf_side :=
  try done; try lia; try (intros _; lia);
  try (let Ht := fresh in
       intros Ht; apply tracks_access_iff in Ht as [Ht|Ht]; congruence).

Lemma tracks_access_with_cache c d : tracks_access (with_cache c d) = tracks_access c.
Proof. reflexivity. Qed.

Lemma tracks_access_with_times c a :
  tracks_access (with_access_times c a) = tracks_access c.
Proof. reflexivity. Qed.

(** [_evict] on a well-formed cache: it returns, the cache stays
    well-formed, only keys that were held are held, and under the five
    strategies at most [cache_size] entries are left. *)
Lemma evict_well_formed c :
  well_formed c →
  ∃ c', _evict rand_index c = Ret c'
        ∧ well_formed c'
        ∧ strategy c' = strategy c ∧ cache_size c' = cache_size c
        ∧ (strategy c ∈ five_strategies →
           (Z.of_nat (length (cache c')) ≤ cache_size c)%Z)
        ∧ (∀ k, k ∈ PyDict.keys (cache c') → k ∈ PyDict.keys (cache c)).
Proof.
  intros (Hnd & Hsz & Hbound & Htr).
  destruct (Z_le_gt_dec (Z.of_nat (length (cache c))) (cache_size c)) as [Hle|Hgt].
  { exists c. rewrite evict_not_over by done. by split_and!. }
  destruct (decide (strategy c ∈ five_strategies)) as [Hs|Hs]; last first.
  { exists c. rewrite evict_unknown_strategy by done. by split_and!. }
  specialize (Hbound Hs).
  assert (Hne : cache c ≠ []).
  { intros E. rewrite E in Hgt. simpl in Hgt. lia. }
  unfold _evict.
  destruct (Z.gtb_spec (Z.of_nat (length (cache c))) (cache_size c)); [|lia].
  destruct (String.eqb_spec (strategy c) "FIFO") as [Ef|Hn0].
  { destruct (cache c) as [|x d] eqn:Ec; [done|]. simpl. eexists.
    split; [reflexivity|]. unfold well_formed. cache_fields.
    rewrite tracks_access_with_cache.
    destruct x as [k0 v0]. rewrite dict_keys_cons in Hnd.
    apply NoDup_cons in Hnd as [_ Hnd]. simpl in Hbound, Hgt.
    split_and!; wf_side.
    intros k Hk. by right. }
  destruct (String.eqb_spec (strategy c) "LIFO") as [El|Hn1].
  { destruct (cache c) as [|x d] eqn:Ec; [done|].
    unfold PyDict.popitem_last.
    pose proof (dict_length_removelast (x :: d) Hne) as Hlen.
    pose proof (NoDup_removelast _ Hnd) as Hnd'.
    rewrite <- dict_keys_removelast in Hnd'.
    assert (Hsub : ∀ k, k ∈ PyDict.keys (removelast (x :: d))
                        → k ∈ PyDict.keys (x :: d)).
    { intros k Hk. rewrite dict_keys_removelast in Hk.
      revert Hk. generalize (PyDict.keys (x :: d)). intros l.
      induction l as [|a l IH]; [done|].
      destruct l as [|b l]; [simpl; intros Hin; by apply elem_of_nil in Hin|].
      change (removelast (a :: b :: l)) with (a :: removelast (b :: l)).
      rewrite !elem_of_cons. intros [->|Hin]; [by left|]. right.
      apply IH in Hin. by apply elem_of_cons in Hin. }
    remember (removelast (x :: d)) as r eqn:Er. clear Er.
    simpl mbind. eexists.
    split; [reflexivity|]. unfold well_formed. cache_fields.
    rewrite tracks_access_with_cache.
    simpl length in *. split_and!; wf_side. }
  destruct (String.eqb_spec (strategy c) "LRU") as [Elru|Hn2].
  { destruct Htr as [Hnda Heq]; [apply tracks_access_iff; by left|].
    assert (Hane : access_times c ≠ []).
    { intros E. destruct (cache c) as [|[k0 v0] d] eqn:Ec; [done|].
      assert (Hin : k0 ∈ PyDict.keys (access_times c)).
      { apply Heq. rewrite dict_keys_cons. by left. }
      rewrite E in Hin. by apply elem_of_nil in Hin. }
    destruct (py_min_key_least _ Hane) as (k & -> & (t & Hin & _)).
    apply elem_of_dict_keys in Hin. simpl mbind.
    rewrite (dict_del_contained (cache c) k) by by apply Heq. simpl mbind.
    rewrite (dict_del_contained (access_times c) k) by done. simpl mbind.
    eexists. split; [reflexivity|]. unfold well_formed. cache_fields.
    rewrite tracks_access_with_times, tracks_access_with_cache.
    pose proof (dict_length_remove_in (cache c) k (proj1 (Heq k) Hin)) as Hlen.
    split_and!; wf_side.
    - by apply dict_NoDup_keys_remove.
    - intros _. split; [by apply dict_NoDup_keys_remove|].
      intros k'. rewrite !dict_elem_of_keys_remove by done. by rewrite Heq.
    - intros k'. apply dict_keys_remove_subset. }
  destruct (String.eqb_spec (strategy c) "MRU") as [Emru|Hn3].
  { destruct Htr as [Hnda Heq]; [apply tracks_access_iff; by right|].
    assert (Hane : access_times c ≠ []).
    { intros E. destruct (cache c) as [|[k0 v0] d] eqn:Ec; [done|].
      assert (Hin : k0 ∈ PyDict.keys (access_times c)).
      { apply Heq. rewrite dict_keys_cons. by left. }
      rewrite E in Hin. by apply elem_of_nil in Hin. }
    destruct (py_max_key_greatest _ Hane) as (k & -> & (t & Hin & _)).
    apply elem_of_dict_keys in Hin. simpl mbind.
    rewrite (dict_del_contained (cache c) k) by by apply Heq. simpl mbind.
    rewrite (dict_del_contained (access_times c) k) by done. simpl mbind.
    eexists. split; [reflexivity|]. unfold well_formed. cache_fields.
    rewrite tracks_access_with_times, tracks_access_with_cache.
    pose proof (dict_length_remove_in (cache c) k (proj1 (Heq k) Hin)) as Hlen.
    split_and!; wf_side.
    - by apply dict_NoDup_keys_remove.
    - intros _. split; [by apply dict_NoDup_keys_remove|].
      intros k'. rewrite !dict_elem_of_keys_remove by done. by rewrite Heq.
    - intros k'. apply dict_keys_remove_subset. }
  destruct (String.eqb_spec (strategy c) "RP") as [Erp|Hrp].
  { assert (Hkne : PyDict.keys (cache c) ≠ []).
    { unfold PyDict.keys. destruct (cache c); done. }
    destruct (random_choice_in (random_seed c) _ Hkne) as (k & -> & Hin).
    simpl mbind. rewrite (dict_del_contained (cache c) k) by done. simpl mbind.
    eexists. split; [reflexivity|]. unfold well_formed. cache_fields.
    rewrite tracks_access_with_times, tracks_access_with_cache.
    pose proof (dict_length_remove_in (cache c) k Hin) as Hlen.
    split_and!; wf_side.
    - by apply dict_NoDup_keys_remove.
    - intros k'. apply dict_keys_remove_subset. }
  exfalso. unfold five_strategies in Hs.
  repeat (apply elem_of_cons in Hs as [Hs|Hs]; [congruence|]).
  by apply elem_of_nil in Hs.
Qed.


Lemma dict_keys_remove_ne {W : Type} (d : list (K * W)) k k' :
  k' ≠ k → k' ∈ PyDict.keys d → k' ∈ PyDict.keys (PyDict.remove d k).
Proof.
  intros Hne. unfold PyDict.keys. induction d as [|[k0 v0] d IH]; simpl; [done|].
  destruct (decide (k0 = k)) as [->|Hne0]; simpl.
  - rewrite elem_of_cons. intros [?|?]; [congruence|done].
  - rewrite !elem_of_cons. intros [?|?]; [by left|right; by apply IH].
Qed.

Lemma last_snoc_keys {W : Type} (d : list (K * W)) k w :
  last (PyDict.keys (d ++ [(k, w)])) = Some k.
Proof. unfold PyDict.keys. rewrite fmap_app. simpl. apply last_snoc. Qed.

(** [put] on a well-formed cache: it returns, the cache stays well-formed
    and now maps [key] to [value], as its most recent entry. *)
Lemma put_well_formed c now key value :
  well_formed c →
  ∃ c', put rand_index c now key value = Ret c'
        ∧ well_formed c'
        ∧ strategy c' = strategy c ∧ cache_size c' = cache_size c
        ∧ PyDict.get (cache c') key = Some value
        ∧ last (PyDict.keys (cache c')) = Some key.
Proof.
  intros Hwf. pose proof Hwf as (Hnd & Hsz & Hbound & Htr). unfold put.
  destruct (PyDict.contains (cache c) key) eqn:Hin.
  - apply dict_contains_true in Hin.
    rewrite (dict_del_contained _ _ Hin). simpl mbind.
    pose proof (dict_length_remove_in (cache c) key Hin) as Hlen.
    assert (Hev : _evict rand_index (with_cache c (PyDict.remove (cache c) key))
                  = Ret (with_cache c (PyDict.remove (cache c) key))).
    { destruct (decide (strategy c ∈ five_strategies)) as [Hs|Hs].
      - apply evict_not_over. cache_fields. specialize (Hbound Hs). lia.
      - by apply evict_unknown_strategy. }
    rewrite Hev. simpl mbind. cbv zeta. cache_fields.
    assert (Hnotin : key ∉ PyDict.keys (PyDict.remove (cache c) key)).
    { rewrite dict_elem_of_keys_remove by done. tauto. }
    rewrite (dict_set_notin _ _ _ Hnotin).
    rewrite !tracks_access_with_cache.
    assert (Hwf' : ∀ a,
      (tracks_access c = true →
       NoDup (PyDict.keys a)
       ∧ ∀ k, k ∈ PyDict.keys a
              ↔ k ∈ PyDict.keys (PyDict.remove (cache c) key ++ [(key, value)])) →
      well_formed
        (with_access_times
           (with_cache c (PyDict.remove (cache c) key ++ [(key, value)])) a)).
    { intros a Ha. unfold well_formed. cache_fields.
      rewrite tracks_access_with_times, tracks_access_with_cache.
      split_and!; wf_side.
      - rewrite <- (dict_set_notin _ _ _ Hnotin).
        by apply dict_NoDup_keys_set, dict_NoDup_keys_remove.
      - intros Hs. specialize (Hbound Hs). rewrite length_app. simpl. lia. }
    assert (Hget : PyDict.get (PyDict.remove (cache c) key ++ [(key, value)]) key
                   = Some value).
    { rewrite <- (dict_set_notin _ _ _ Hnotin). apply dict_get_set. }
    destruct (tracks_access c) eqn:Et.
    + eexists. split; [reflexivity|]. cache_fields. split_and!; try done.
      * apply Hwf'. intros _. destruct (Htr eq_refl) as [Hnda Heq].
        split; [by apply dict_NoDup_keys_set|].
        intros k. rewrite dict_elem_of_keys_set, Heq.
        rewrite <- (dict_set_notin _ _ _ Hnotin), dict_elem_of_keys_set.
        rewrite dict_elem_of_keys_remove by done.
        destruct (decide (k = key)); tauto.
      * apply last_snoc_keys.
    + eexists. split; [reflexivity|]. cache_fields. split_and!; try done.
      * specialize (Hwf' (access_times c)). apply Hwf'. intros Hf. congruence.
      * apply last_snoc_keys.
  - apply dict_contains_false in Hin. simpl mbind.
    destruct (evict_well_formed c Hwf)
      as (c2 & -> & (Hnd2 & Hsz2 & Hbound2 & Htr2) & Hst & Hcs & Hle & Hsub).
    simpl mbind. cbv zeta. cache_fields.
    assert (Hnotin : key ∉ PyDict.keys (cache c2)).
    { intros Hk. by apply Hin, Hsub. }
    rewrite (dict_set_notin _ _ _ Hnotin).
    rewrite !tracks_access_with_cache.
    assert (Hwf' : ∀ a,
      (tracks_access c2 = true →
       NoDup (PyDict.keys a)
       ∧ ∀ k, k ∈ PyDict.keys a
              ↔ k ∈ PyDict.keys (cache c2 ++ [(key, value)])) →
      well_formed (with_access_times (with_cache c2 (cache c2 ++ [(key, value)])) a)).
    { intros a Ha. unfold well_formed. cache_fields.
      rewrite tracks_access_with_times, tracks_access_with_cache.
      split_and!; wf_side.
      - rewrite <- (dict_set_notin _ _ _ Hnotin). by apply dict_NoDup_keys_set.
      - intros Hs. rewrite Hst in Hs. specialize (Hle Hs).
        rewrite length_app. simpl. lia. }
    assert (Hget : PyDict.get (cache c2 ++ [(key, value)]) key = Some value).
    { rewrite <- (dict_set_notin _ _ _ Hnotin). apply dict_get_set. }
    destruct (tracks_access c2) eqn:Et.
    + eexists. split; [reflexivity|]. cache_fields. split_and!; try done.
      * apply Hwf'. intros _. destruct (Htr2 eq_refl) as [Hnda Heq].
        split; [by apply dict_NoDup_keys_set|].
        intros k. rewrite dict_elem_of_keys_set, Heq.
        rewrite <- (dict_set_notin _ _ _ Hnotin), dict_elem_of_keys_set. tauto.
      * apply last_snoc_keys.
    + eexists. split; [reflexivity|]. cache_fields. split_and!; try done.
      * specialize (Hwf' (access_times c2)). apply Hwf'. intros Hf. congruence.
      * apply last_snoc_keys.
Qed.

(** [get] keeps a cache well-formed and does not touch what it holds. *)
Lemma get_well_formed c now key :
  well_formed c →
  well_formed (get c now key).2 ∧ cache (get c now key).2 = cache c.
Proof.
  intros Hwf. pose proof Hwf as (Hnd & Hsz & Hbound & Htr). unfold get.
  destruct (PyDict.contains (cache c) key) eqn:Hin; [|by split].
  apply dict_contains_true in Hin. simpl.
  destruct (tracks_access c) eqn:Et; [|by split].
  split; [|done]. unfold well_formed. cache_fields.
  rewrite tracks_access_with_times. split_and!; try done.
  intros _. destruct (Htr eq_refl) as [Hnda Heq].
  split; [by apply dict_NoDup_keys_set|].
  intros k. rewrite dict_elem_of_keys_set, Heq.
  split; [intros [->|?]; done|by right].
Qed.

Lemma init_well_formed (size : Z) (strat : string) (seed : Z) :
  (0 ≤ size)%Z → well_formed (init (K:=K) (V:=V) size strat seed).
Proof.
  intros Hsz. unfold well_formed, init. cache_fields.
  split_and!; try done; [constructor| |].
  - intros _. simpl. lia.
  - intros _. split; [constructor|done].
Qed.

Lemma run_well_formed (ops : list (@op K V)) : ∀ c,
  well_formed c → ∃ c', run rand_index c ops = Ret c' ∧ well_formed c'.
Proof.
  induction ops as [|[now key value|now key] ops IH]; intros c Hwf; simpl.
  - by exists c.
  - destruct (put_well_formed c now key value Hwf) as (c1 & -> & Hwf1 & _).
    simpl. by apply IH.
  - apply IH. by apply get_well_formed.
Qed.

(** X1. A cache built by the constructor with a capacity that is not
    negative never raises, whatever calls of [put] and [get] are made on
    it and whatever the strategy string is.  After the calls its two
    dictionaries have no repeated key, under the five strategies it holds
    at most [cache_size + 1] entries, and under LRU and MRU the time stamps
    kept are exactly those of the keys held. *)
Theorem cache_run_never_raises (size : Z) (strat : string) (seed : Z)
    (ops : list (@op K V)) :
  (0 ≤ size)%Z →
  ∃ c', run rand_index (init size strat seed) ops = Ret c' ∧ well_formed c'.
Proof.
  intros Hsz. apply run_well_formed. by apply init_well_formed.
Qed.

(** X2. A value that has just been put is found again: after
    [put(key, value)] on a cache in a state that calls can reach, the call
    returns, [get(key)] gives [value], and [key] is the last of
    [get_all_items()], even when the capacity is 0. *)
Theorem put_then_get c now key value now' :
  well_formed c →
  ∃ c', put rand_index c now key value = Ret c'
        ∧ (get c' now' key).1 = Some value
        ∧ last (get_all_items c') = Some key.
Proof.
  intros Hwf.
  destruct (put_well_formed c now key value Hwf)
    as (c' & Hput & _ & _ & _ & Hget & Hlast).
  exists c'. split; [done|]. split; [|done].
  unfold get. rewrite (proj2 (dict_contains_true _ _)); [done|].
  apply dict_get_is_Some. by rewrite Hget.
Qed.


Lemma evict_over c :
  (Z.of_nat (length (cache c)) > cache_size c)%Z →
  (Z.of_nat (length (cache c)) >? cache_size c)%Z = true.
Proof. intros. apply Z.gtb_lt. lia. Qed.

(** X3. Which entry goes under FIFO and LIFO.  When the cache holds more
    than [cache_size] entries and a new key is put, FIFO drops the oldest
    entry and LIFO drops the newest one; the other entries keep their
    order and the new entry comes last.  Under LIFO the entries put first
    are therefore never replaced. *)
Theorem put_fifo_lifo_eviction c now key value :
  (0 ≤ cache_size c)%Z →
  (Z.of_nat (length (cache c)) > cache_size c)%Z →
  NoDup (PyDict.keys (cache c)) →
  PyDict.contains (cache c) key = false →
  (strategy c = "FIFO" →
   ∃ c', put rand_index c now key value = Ret c'
         ∧ cache c' = tail (cache c) ++ [(key, value)])
  ∧ (strategy c = "LIFO" →
     ∃ c', put rand_index c now key value = Ret c'
           ∧ cache c' = removelast (cache c) ++ [(key, value)]).
Proof.
  intros Hsz Hgt Hnd Hin. pose proof (evict_over c Hgt) as Hov.
  apply dict_contains_false in Hin as Hnotin.
  assert (Hne : cache c ≠ []).
  { intros E. rewrite E in Hgt. simpl in Hgt. lia. }
  split; intros Hs; unfold put; rewrite Hin; simpl mbind;
    unfold _evict; rewrite Hov, Hs; simpl String.eqb; cbv iota.
  - destruct (cache c) as [|[k0 v0] d] eqn:Ec; [done|]. simpl mbind.
    cbv zeta. unfold tracks_access. cache_fields. rewrite Hs. simpl.
    eexists. split; [reflexivity|]. cache_fields.
    apply dict_set_notin. rewrite dict_keys_cons in Hnotin.
    by apply not_elem_of_cons in Hnotin as [_ ?].
  - unfold PyDict.popitem_last.
    destruct (cache c) as [|x d] eqn:Ec; [done|].
    assert (Hnl : key ∉ PyDict.keys (removelast (x :: d))).
    { intros Hk. apply Hnotin. rewrite dict_keys_removelast in Hk.
      revert Hk. generalize (PyDict.keys (x :: d)). intros l.
      induction l as [|a l IH]; [done|].
      destruct l as [|b l]; [simpl; intros Hk; by apply elem_of_nil in Hk|].
      change (removelast (a :: b :: l)) with (a :: removelast (b :: l)).
      rewrite !elem_of_cons. intros [->|Hk]; [by left|]. right.
      apply IH in Hk. by apply elem_of_cons in Hk. }
    remember (removelast (x :: d)) as r eqn:Er. clear Er.
    simpl mbind. cbv zeta. unfold tracks_access. cache_fields. rewrite Hs. simpl.
    eexists. split; [reflexivity|]. cache_fields.
    by apply dict_set_notin.
Qed.

(** X4. Which entry goes under LRU and MRU.  When the cache holds more
    than [cache_size] entries and a new key is put, LRU removes a key
    whose time stamp is smallest and MRU a key whose time stamp is
    greatest, from the cache and from the time stamps; the new key comes
    last in both, with the time of the call. *)
Theorem put_lru_mru_eviction c now key value :
  well_formed c →
  (Z.of_nat (length (cache c)) > cache_size c)%Z →
  PyDict.contains (cache c) key = false →
  (strategy c = "LRU" →
   ∃ c' k, put rand_index c now key value = Ret c'
           ∧ least_recent (access_times c) k
           ∧ cache c' = PyDict.remove (cache c) k ++ [(key, value)]
           ∧ access_times c' = PyDict.remove (access_times c) k ++ [(key, now)])
  ∧ (strategy c = "MRU" →
     ∃ c' k, put rand_index c now key value = Ret c'
             ∧ most_recent (access_times c) k
             ∧ cache c' = PyDict.remove (cache c) k ++ [(key, value)]
             ∧ access_times c' = PyDict.remove (access_times c) k ++ [(key, now)]).
Proof.
  intros (Hnd & Hsz & Hbound & Htr) Hgt Hin. pose proof (evict_over c Hgt) as Hov.
  apply dict_contains_false in Hin as Hnotin.
  assert (Hne : cache c ≠ []).
  { intros E. rewrite E in Hgt. simpl in Hgt. lia. }
  assert (Hane : tracks_access c = true → access_times c ≠ []).
  { intros Ht E. destruct (Htr Ht) as [_ Heq].
    destruct (cache c) as [|[k0 v0] d] eqn:Ec; [done|].
    assert (Hk : k0 ∈ PyDict.keys (access_times c)).
    { apply Heq. rewrite dict_keys_cons. by left. }
    rewrite E in Hk. by apply elem_of_nil in Hk. }
  split; intros Hs.
  - assert (Ht : tracks_access c = true) by (apply tracks_access_iff; by left).
    destruct (Htr Ht) as [Hnda Heq].
    destruct (py_min_key_least _ (Hane Ht)) as (k & Hmin & Hleast).
    pose proof Hleast as (t & Hkt & _). apply elem_of_dict_keys in Hkt.
    unfold put. rewrite Hin. simpl mbind.
    unfold _evict. rewrite Hov, Hs. simpl String.eqb. cbv iota.
    rewrite Hmin. simpl mbind.
    rewrite (dict_del_contained (cache c) k) by by apply Heq. simpl mbind.
    rewrite (dict_del_contained (access_times c) k) by done. simpl mbind.
    cbv zeta. unfold tracks_access. cache_fields. rewrite Hs. simpl.
    eexists. exists k. split; [reflexivity|]. cache_fields.
    split; [done|]. split.
    + apply dict_set_notin. intros Hk. by apply Hnotin, (dict_keys_remove_subset _ k).
    + apply dict_set_notin. intros Hk. apply Hnotin, Heq.
      by apply (dict_keys_remove_subset _ k).
  - assert (Ht : tracks_access c = true) by (apply tracks_access_iff; by right).
    destruct (Htr Ht) as [Hnda Heq].
    destruct (py_max_key_greatest _ (Hane Ht)) as (k & Hmax & Hmost).
    pose proof Hmost as (t & Hkt & _). apply elem_of_dict_keys in Hkt.
    unfold put. rewrite Hin. simpl mbind.
    unfold _evict. rewrite Hov, Hs. simpl String.eqb. cbv iota.
    rewrite Hmax. simpl mbind.
    rewrite (dict_del_contained (cache c) k) by by apply Heq. simpl mbind.
    rewrite (dict_del_contained (access_times c) k) by done. simpl mbind.
    cbv zeta. unfold tracks_access. cache_fields. rewrite Hs. simpl.
    eexists. exists k. split; [reflexivity|]. cache_fields.
    split; [done|]. split.
    + apply dict_set_notin. intros Hk. by apply Hnotin, (dict_keys_remove_subset _ k).
    + apply dict_set_notin. intros Hk. apply Hnotin, Heq.
      by apply (dict_keys_remove_subset _ k).
Qed.

(** X5. A negative capacity.  The constructor accepts it, and then the
    first [put] already finds the empty cache too large and tries to evict
    from it: FIFO and LIFO raise [KeyError], LRU and MRU raise [ValueError]
    and RP raises [IndexError]. *)
Theorem put_negative_capacity (size seed : Z) (now : Q) (key : K) (value : V) :
  (size < 0)%Z →
  put rand_index (init size "FIFO" seed) now key value = Raise KeyError
  ∧ put rand_index (init size "LIFO" seed) now key value = Raise KeyError
  ∧ put rand_index (init size "LRU" seed) now key value
    = Raise (ValueError "min() arg is an empty sequence")
  ∧ put rand_index (init size "MRU" seed) now key value
    = Raise (ValueError "max() arg is an empty sequence")
  ∧ put rand_index (init size "RP" seed) now key value = Raise IndexError.
Proof.
  intros Hneg.
  assert (Hov : (0 >? size)%Z = true) by (apply Z.gtb_lt; lia).
  assert (Hput : ∀ strat,
    put rand_index (init size strat seed) now key value
    = _evict rand_index (init size strat seed) ≫= λ s2,
        let s3 := with_cache s2 (PyDict.set (cache s2) key value) in
        if tracks_access s3
        then Ret (with_access_times s3 (PyDict.set (access_times s3) key now))
        else Ret s3).
  { intros strat. reflexivity. }
  rewrite !Hput. unfold _evict, init. cache_fields.
  change (Z.of_nat (length (@nil (K * V)))) with 0%Z. rewrite Hov.
  split_and!; reflexivity.
Qed.

(** X6. A strategy string that is none of the five names switches
    eviction off: every [put] returns, every key that was held is still
    held, and a new key makes the cache one entry longer, whatever the
    capacity. *)
Theorem put_unknown_strategy_keeps_all c now key value :
  strategy c ∉ five_strategies →
  ∃ c', put rand_index c now key value = Ret c'
        ∧ (∀ k, k ∈ PyDict.keys (cache c) → k ∈ PyDict.keys (cache c'))
        ∧ (PyDict.contains (cache c) key = false →
           length (cache c') = S (length (cache c))).
Proof.
  intros Hs.
  assert (Ht : tracks_access c = false).
  { destruct (tracks_access c) eqn:Et; [|done].
    apply tracks_access_iff in Et. exfalso. apply Hs. unfold five_strategies.
    destruct Et as [->| ->]; set_solver. }
  unfold put. destruct (PyDict.contains (cache c) key) eqn:Hin.
  - apply dict_contains_true in Hin.
    rewrite (dict_del_contained _ _ Hin). simpl mbind.
    rewrite evict_unknown_strategy by done. simpl mbind. cbv zeta.
    rewrite !tracks_access_with_cache, Ht.
    eexists. split; [reflexivity|]. cache_fields. split; [|done].
    intros k Hk. apply dict_elem_of_keys_set.
    destruct (decide (k = key)); [by left|right]. by apply dict_keys_remove_ne.
  - simpl mbind. rewrite evict_unknown_strategy by done. simpl mbind. cbv zeta.
    rewrite !tracks_access_with_cache, Ht.
    eexists. split; [reflexivity|]. cache_fields. split.
    + intros k Hk. apply dict_elem_of_keys_set. by right.
    + intros _. apply dict_length_set_notin. by apply dict_contains_false.
Qed.


Lemma evict_preserves_initialized c c' :
  _evict rand_index c = Ret c' → initialized c' = initialized c.
Proof.
  unfold _evict.
  repeat case_match; intros Hr; simplify_eq/=; try done;
    repeat match goal with
    | H : context [mbind _ ?m] |- _ => destruct m eqn:?; simpl in H
    | H : (_ ≫= _) = _ |- _ => simpl in H
    end; simplify_eq/=; done.
Qed.

End CacheRunFacts.

Lemma example_lru_cache_well_formed :
  CacheRuns.well_formed CacheRuns.example_lru_cache.
Proof.
  unfold CacheRuns.well_formed, CacheRuns.example_lru_cache. simpl.
  split_and!.
  - apply NoDup_cons. split; [|apply NoDup_singleton].
    intros Hin. apply list_elem_of_singleton in Hin. discriminate.
  - lia.
  - intros _. lia.
  - intros _. split; [|done].
    apply NoDup_cons. split; [|apply NoDup_singleton].
    intros Hin. apply list_elem_of_singleton in Hin. discriminate.
Defined.

Lemma cache_run_never_raises_witness :
  (0 ≤ 1)%Z
  ∧ ∃ c', CacheRuns.run (λ _ _, 0%nat) (SemanticCaching.init 1 "LRU" 10)
            [CacheRuns.Put 1%Q "a" 1%nat; CacheRuns.Put 2%Q "b" 2%nat;
             CacheRuns.Get 3%Q "a"; CacheRuns.Put 4%Q "c" 3%nat] = Ret c'
          ∧ CacheRuns.well_formed c'.
Proof.
  split; [lia|].
  apply (cache_run_never_raises (λ _ _, 0%nat) 1 "LRU" 10
           [CacheRuns.Put 1%Q "a" 1%nat; CacheRuns.Put 2%Q "b" 2%nat;
            CacheRuns.Get 3%Q "a"; CacheRuns.Put 4%Q "c" 3%nat]).
  lia.
Defined.

Lemma put_then_get_witness :
  CacheRuns.well_formed CacheRuns.example_lru_cache
  ∧ ∃ c', SemanticCaching.put (λ _ _, 0%nat) CacheRuns.example_lru_cache
            4%Q "c" 3%nat = Ret c'
          ∧ (SemanticCaching.get c' 5%Q "c").1 = Some 3%nat
          ∧ last (SemanticCaching.get_all_items c') = Some "c".
Proof.
  split; [exact example_lru_cache_well_formed|].
  apply (put_then_get (λ _ _, 0%nat) CacheRuns.example_lru_cache 4%Q "c" 3%nat 5%Q).
  exact example_lru_cache_well_formed.
Defined.

Lemma put_fifo_lifo_eviction_witness :
  SemanticCaching.strategy CacheRuns.example_fifo_cache = "FIFO"
  ∧ ∃ c', SemanticCaching.put (λ _ _, 0%nat) CacheRuns.example_fifo_cache
            4%Q "c" 3%nat = Ret c'
          ∧ SemanticCaching.cache c' = [("b", 2%nat); ("c", 3%nat)].
Proof.
  split; [reflexivity|].
  apply (put_fifo_lifo_eviction (λ _ _, 0%nat) CacheRuns.example_fifo_cache
           4%Q "c" 3%nat).
  - simpl. lia.
  - simpl. lia.
  - simpl. apply NoDup_cons. split; [|apply NoDup_singleton].
    intros Hin. apply list_elem_of_singleton in Hin. discriminate.
  - reflexivity.
  - reflexivity.
Defined.

Lemma put_lru_mru_eviction_witness :
  CacheRuns.well_formed CacheRuns.example_lru_cache
  ∧ ∃ c' k, SemanticCaching.put (λ _ _, 0%nat) CacheRuns.example_lru_cache
              4%Q "c" 3%nat = Ret c'
            ∧ CacheRuns.least_recent
                (SemanticCaching.access_times CacheRuns.example_lru_cache) k
            ∧ SemanticCaching.cache c'
              = PyDict.remove (SemanticCaching.cache CacheRuns.example_lru_cache) k
                ++ [("c", 3%nat)]
            ∧ SemanticCaching.access_times c'
              = PyDict.remove
                  (SemanticCaching.access_times CacheRuns.example_lru_cache) k
                ++ [("c", 4%Q)].
Proof.
  split; [exact example_lru_cache_well_formed|].
  apply (put_lru_mru_eviction (λ _ _, 0%nat) CacheRuns.example_lru_cache
           4%Q "c" 3%nat).
  - exact example_lru_cache_well_formed.
  - simpl. lia.
  - reflexivity.
  - reflexivity.
Defined.

Lemma put_negative_capacity_witness :
  (-1 < 0)%Z
  ∧ SemanticCaching.put (λ _ _, 0%nat) (SemanticCaching.init (-1) "FIFO" 10)
      1%Q "a" 1%nat = Raise KeyError.
Proof.
  split; [lia|].
  apply (put_negative_capacity (λ _ _, 0%nat) (-1) 10 1%Q "a" 1%nat). lia.
Defined.

Lemma put_unknown_strategy_keeps_all_witness :
  (SemanticCaching.strategy CacheRuns.example_unbounded_cache
     ∉ SemanticCaching.five_strategies)
  ∧ ∃ c', SemanticCaching.put (λ _ _, 0%nat) CacheRuns.example_unbounded_cache
            4%Q "c" 3%nat = Ret c'
          ∧ (∀ k, k ∈ PyDict.keys
                        (SemanticCaching.cache CacheRuns.example_unbounded_cache)
                  → k ∈ PyDict.keys (SemanticCaching.cache c'))
          ∧ (PyDict.contains
               (SemanticCaching.cache CacheRuns.example_unbounded_cache) "c" = false
             → length (SemanticCaching.cache c')
               = S (length (SemanticCaching.cache CacheRuns.example_unbounded_cache))).
Proof.
  assert (Hs : SemanticCaching.strategy CacheRuns.example_unbounded_cache
               ∉ SemanticCaching.five_strategies).
  { unfold SemanticCaching.five_strategies. simpl.
    intros Hin. repeat (apply elem_of_cons in Hin as [Hin|Hin]; [discriminate|]).
    by apply elem_of_nil in Hin. }
  split; [exact Hs|].
  apply (put_unknown_strategy_keeps_all (λ _ _, 0%nat)
           CacheRuns.example_unbounded_cache 4%Q "c" 3%nat Hs).
Defined.

(** ** The caching wrapper: calls on a cache that calls can reach *)

Section WrapperCallFacts.
Context {Ind : Type} `{Countable Ind}.
Import DL Wrapper WrapperCalls.
Variable unicode_word : N → bool.
Variable rand_index : Z → nat → nat.
Variable time_at : nat → Q.
Variable load_ontology : string → res unit.
Variable individuals_of : string → res (gset Ind).
Variable related :
  string → OWLObjectPropertyExpression → @item Ind → @item Ind → res bool.
Variable cache_type : string.
Variable concepts : list OWLClassExpression.
Implicit Types (st : @wstate Ind _ _) (a : call_args)
  (func : OWLClassExpression → string → string → res (@value Ind _ _))
  (All_individuals : gset (@item Ind)).

Lemma W_bind_ret {A B : Type} (m : W A) (f : A → W B) st st' (x : A) :
  m st = (st', Ret x) → (m ≫= f) st = f x st'.
Proof. intros Hm. unfold mbind, W_bind. by rewrite Hm. Qed.

Lemma W_bind_raise {A B : Type} (m : W A) (f : A → W B) st st' (e : exn) :
  m st = (st', Raise e) → (m ≫= f) st = (st', Raise e).
Proof. intros Hm. unfold mbind, W_bind. by rewrite Hm. Qed.

(** *** What the steps of a call leave as it is *)

Lemma frame_refl st : frame st st.
Proof. by split_and!. Qed.

Lemma frame_trans st1 st2 st3 : frame st1 st2 → frame st2 st3 → frame st1 st3.
Proof.
  intros (Hw & Hi & Ho & Hl) (Hw' & Hi' & Ho' & Hl').
  split_and!; [tauto|tauto|congruence|congruence].
Qed.

Lemma frames_bind {A B : Type} (m : @W Ind _ _ A) (f : A → @W Ind _ _ B) :
  frames m → (∀ x, frames (f x)) → frames (m ≫= f).
Proof.
  intros Hm Hf st. specialize (Hm st). unfold mbind, W_bind.
  destruct (m st) as [s [x|e]]; simpl in *.
  - eapply frame_trans; [exact Hm|apply Hf].
  - exact Hm.
Qed.

Lemma frames_ret {A : Type} (x : A) : frames (mret x : @W Ind _ _ A).
Proof. intros st. apply frame_refl. Qed.

Lemma frames_raise {A : Type} (e : exn) : frames (wraise e : @W Ind _ _ A).
Proof. intros st. apply frame_refl. Qed.

Lemma frames_call {A : Type} (r : res A) : frames (call r : @W Ind _ _ A).
Proof. intros st. apply frame_refl. Qed.

Lemma frames_read_cache : frames (@read_cache Ind _ _).
Proof. intros st. apply frame_refl. Qed.

Lemma frames_count_hit : frames (@count_hit Ind _ _).
Proof. intros st. by split_and!. Qed.

Lemma frames_count_miss : frames (@count_miss Ind _ _).
Proof. intros st. by split_and!. Qed.

Lemma get_initialized (c : @SemanticCaching.CacheWithEviction str (@value Ind _ _))
    (now : Q) (key : str) :
  SemanticCaching.initialized (SemanticCaching.get c now key).2
  = SemanticCaching.initialized c.
Proof.
  unfold SemanticCaching.get.
  destruct (PyDict.contains _ _); [|done].
  by destruct (SemanticCaching.tracks_access _).
Qed.

Lemma put_initialized (c c' : @SemanticCaching.CacheWithEviction str (@value Ind _ _))
    (now : Q) (key : str) (v : @value Ind _ _) :
  SemanticCaching.put rand_index c now key v = Ret c' →
  SemanticCaching.initialized c' = SemanticCaching.initialized c.
Proof.
  unfold SemanticCaching.put.
  destruct (PyDict.contains _ _).
  - destruct (PyDict.del _ _) as [d|]; simpl; [|done].
    destruct (SemanticCaching._evict _ _) as [s2|] eqn:Ev; simpl; [|done].
    apply evict_preserves_initialized in Ev.
    destruct (SemanticCaching.tracks_access _); intros [= <-]; simpl; by rewrite Ev.
  - simpl. destruct (SemanticCaching._evict _ _) as [s2|] eqn:Ev; simpl; [|done].
    apply evict_preserves_initialized in Ev.
    destruct (SemanticCaching.tracks_access _); intros [= <-]; simpl; by rewrite Ev.
Qed.

Lemma cache_get_eq st (key : str) :
  cache_get time_at key st
  = (let g := SemanticCaching.get (w_cache st) (time_at (clock st)) key in
     ({| w_cache := g.2; hits := hits st; misses := misses st;
         clock := S (clock st);
         loaded_ontologies := loaded_ontologies st;
         loaded_individuals := loaded_individuals st |},
      Ret (default PyNone g.1))).
Proof.
  unfold cache_get, mbind, W_bind, tick, read_cache. simpl.
  by destruct (SemanticCaching.get (w_cache st) (time_at (clock st)) key) as [v c'].
Qed.

Lemma retrieve_from_cache_eq st (key : str) :
  retrieve_from_cache time_at key st
  = (let g := SemanticCaching.get (w_cache st) (time_at (clock st)) key in
     let v := default PyNone g.1 in
     ({| w_cache := g.2;
         hits := match v with PySet _ => S (hits st) | PyNone => hits st end;
         misses := match v with PySet _ => misses st | PyNone => S (misses st) end;
         clock := S (clock st);
         loaded_ontologies := loaded_ontologies st;
         loaded_individuals := loaded_individuals st |}, Ret v)).
Proof.
  unfold retrieve_from_cache.
  rewrite (W_bind_ret _ _ _ _ _ (cache_get_eq st key)). cbv zeta.
  by destruct (default PyNone _).
Qed.

Lemma cache_put_eq st (key : str) (v : @value Ind _ _) :
  cache_put rand_index time_at key v st
  = match SemanticCaching.put rand_index (w_cache st) (time_at (clock st)) key v with
    | Ret c' => ({| w_cache := c'; hits := hits st; misses := misses st;
                    clock := S (clock st);
                    loaded_ontologies := loaded_ontologies st;
                    loaded_individuals := loaded_individuals st |}, Ret tt)
    | Raise e => ({| w_cache := w_cache st; hits := hits st; misses := misses st;
                     clock := S (clock st);
                     loaded_ontologies := loaded_ontologies st;
                     loaded_individuals := loaded_individuals st |}, Raise e)
    end.
Proof.
  unfold cache_put, mbind, W_bind, tick, read_cache. simpl.
  by destruct (SemanticCaching.put _ _ _ _ _).
Qed.

Lemma frames_retrieve_from_cache (key : str) :
  frames (retrieve_from_cache time_at key : @W Ind _ _ _).
Proof.
  intros st. rewrite retrieve_from_cache_eq. cbv zeta. simpl.
  unfold frame, well_formed_state. simpl. split_and!; try done.
  - intros Hwf. by apply get_well_formed.
  - by rewrite get_initialized.
Qed.

Lemma frames_cache_put (key : str) (v : @value Ind _ _) :
  frames (cache_put rand_index time_at key v).
Proof.
  intros st. rewrite cache_put_eq.
  destruct (SemanticCaching.put _ _ _ _ _) as [c'|e] eqn:Hput; simpl;
    unfold frame, well_formed_state; simpl; split_and!; try done.
  - intros Hwf.
    destruct (put_well_formed rand_index (w_cache st) (time_at (clock st)) key v Hwf)
      as (c'' & Hput' & Hwf' & _).
    congruence.
  - by rewrite (put_initialized _ _ _ _ _ Hput).
Qed.

Lemma frames_for_each {A : Type} (l : list A) (body : A → @W Ind _ _ unit) :
  (∀ x, frames (body x)) → frames (for_each l body).
Proof.
  intros Hb. induction l as [|x l IH]; simpl.
  - apply frames_ret.
  - apply frames_bind; [apply Hb|by intros _].
Qed.

Lemma frames_handle_owl_some_values_from func a All_individuals p f :
  frames (handle_owl_some_values_from time_at func related a All_individuals p f).
Proof.
  unfold handle_owl_some_values_from.
  destruct (_ <? _)%nat; [|apply frames_call].
  apply frames_bind; [apply frames_retrieve_from_cache|].
  intros [|i]; [apply frames_call|].
  apply frames_bind; [apply frames_call|]. intros r. apply frames_ret.
Qed.

Lemma frames_initialize_cache func a All_individuals :
  frames (initialize_cache rand_index time_at func related concepts a All_individuals).
Proof.
  unfold initialize_cache.
  apply frames_bind; [apply frames_read_cache|]. intros c.
  destruct (SemanticCaching.initialized c); [apply frames_ret|].
  apply frames_bind.
  { apply frames_for_each. intros cls.
    apply frames_bind; [apply frames_call|]. intros v. apply frames_cache_put. }
  intros _. apply frames_bind.
  { apply frames_for_each. intros negated_cls.
    apply frames_bind; [apply frames_read_cache|]. intros c'.
    apply frames_bind.
    { destruct (PyDict.get _ _) as [[|s]|];
        [apply frames_call|apply frames_ret|apply frames_call]. }
    intros cached. apply frames_bind; [apply frames_call|].
    intros neg. apply frames_cache_put. }
  intros _. apply frames_bind.
  { apply frames_for_each. intros [| | | |p0 f0| |]; try apply frames_ret.
    apply frames_bind; [apply frames_handle_owl_some_values_from|].
    intros r. apply frames_cache_put. }
  intros _. intros st. by split_and!.
Qed.

Lemma frames_prepare func a All_individuals :
  frames (prepare rand_index time_at func related cache_type concepts a All_individuals).
Proof.
  unfold prepare.
  apply frames_bind; [apply frames_read_cache|]. intros c.
  destruct (_ && _); [apply frames_initialize_cache|apply frames_ret].
Qed.

Lemma frames_py_index (l : list str) (i : nat) : frames (@py_index Ind _ _ l i).
Proof. unfold py_index. destruct (l !! i); [apply frames_ret|apply frames_raise]. Qed.

Lemma frames_dispatch func a All_individuals :
  frames (dispatch unicode_word time_at func related cache_type a All_individuals).
Proof.
  assert (Hlook : ∀ (key : str) (k : gset (@item Ind) → gset (@item Ind)),
    frames (cached_result ← retrieve_from_cache time_at key;
            match cached_result with
            | PySet r => mret (PySet (k r))
            | PyNone => underlying func a
            end)).
  { intros key k. apply frames_bind; [apply frames_retrieve_from_cache|].
    intros [|r]; [apply frames_call|apply frames_ret]. }
  assert (Htwo : ∀ (l : list str) (k : gset (@item Ind) → gset (@item Ind)
                                        → gset (@item Ind)),
    frames (c0 ← py_index l 0;
            cached_C ← retrieve_from_cache time_at c0;
            c1 ← py_index l 1;
            cached_D ← retrieve_from_cache time_at c1;
            match cached_C with
            | PySet c =>
                match cached_D with
                | PySet d => mret (PySet (k c d))
                | PyNone => underlying func a
                end
            | PyNone => underlying func a
            end)).
  { intros l k.
    apply frames_bind; [apply frames_py_index|]. intros c0.
    apply frames_bind; [apply frames_retrieve_from_cache|]. intros cached_C.
    apply frames_bind; [apply frames_py_index|]. intros c1.
    apply frames_bind; [apply frames_retrieve_from_cache|]. intros cached_D.
    destruct cached_C, cached_D; first [apply frames_ret|apply frames_call]. }
  unfold dispatch.
  destruct (owl_expression a) as [name|op|ops|ops|p f|p f|b s].
  - apply (Hlook _ (λ r, r)).
  - destruct (String.eqb cache_type "cold");
      [apply (Hlook _ (λ r, r))|apply (Hlook _ (λ r, All_individuals ∖ r))].
  - apply (Htwo (owl_expression_to_dl <$> ops) (λ c d, c ∩ d)).
  - apply (Htwo (owl_expression_to_dl <$> ops) (λ c d, c ∪ d)).
  - destruct (String.eqb cache_type "cold");
      [|apply frames_handle_owl_some_values_from].
    apply frames_bind; [apply frames_retrieve_from_cache|].
    intros [|r]; [apply frames_handle_owl_some_values_from|apply frames_ret].
  - apply (Hlook _ (λ r, All_individuals ∖ r)).
  - apply frames_call.
Qed.

Lemma frames_finish a (result : @value Ind _ _) :
  frames (finish rand_index time_at a result).
Proof.
  unfold finish. apply frames_bind; [apply frames_cache_put|].
  intros _. apply frames_ret.
Qed.

Lemma frames_eq {A : Type} (m : @W Ind _ _ A) st st' (r : res A) :
  frames m → m st = (st', r) → frame st st'.
Proof. intros Hm Hr. specialize (Hm st). by rewrite Hr in Hm. Qed.

(** *** What the steps of a call do *)

(** A lookup returns what the cache holds under the key, counts one hit
    for a set and one miss for [None] or no entry, and leaves the entries
    of the cache as they are. *)
Lemma retrieve_from_cache_spec st (key : str) :
  ∃ st', retrieve_from_cache time_at key st
         = (st', Ret (default PyNone (cached st key)))
         ∧ SemanticCaching.cache (w_cache st') = SemanticCaching.cache (w_cache st)
         ∧ SemanticCaching.initialized (w_cache st')
           = SemanticCaching.initialized (w_cache st)
         ∧ hits st' = match default PyNone (cached st key) with
                      | PySet _ => S (hits st)
                      | PyNone => hits st
                      end
         ∧ misses st' = match default PyNone (cached st key) with
                        | PySet _ => misses st
                        | PyNone => S (misses st)
                        end.
Proof.
  rewrite retrieve_from_cache_eq. cbv zeta.
  pose proof (cache_get_value (w_cache st) (time_at (clock st)) key) as [Hv Hc].
  rewrite !Hv. fold (cached st key).
  eexists. split; [reflexivity|]. simpl.
  split_and!; try done. apply get_initialized.
Qed.

(** A write on a reachable cache returns, and the cache then holds the
    value under the key. *)
Lemma cache_put_spec st (key : str) (v : @value Ind _ _) :
  well_formed_state st →
  ∃ st', cache_put rand_index time_at key v st = (st', Ret tt)
         ∧ cached st' key = Some v
         ∧ hits st' = hits st ∧ misses st' = misses st.
Proof.
  intros Hwf. rewrite cache_put_eq.
  destruct (put_well_formed rand_index (w_cache st) (time_at (clock st)) key v Hwf)
    as (c' & Hput & Hwf' & _ & _ & Hget & _).
  rewrite Hput. eexists. split; [reflexivity|].
  unfold cached. simpl. by split_and!.
Qed.

(** The end of a call on a reachable cache. *)
Lemma finish_spec a (result : @value Ind _ _) st :
  well_formed_state st →
  ∃ st', finish rand_index time_at a result st = (st', Ret result)
         ∧ cached st' (owl_expression_to_dl (owl_expression a)) = Some result
         ∧ hits st' = hits st ∧ misses st' = misses st.
Proof.
  intros Hwf. unfold finish.
  destruct (cache_put_spec st (owl_expression_to_dl (owl_expression a)) result Hwf)
    as (st' & Hp & Hc & Hh & Hm).
  rewrite (W_bind_ret _ _ _ _ _ Hp). by exists st'.
Qed.

(** The start of a call touches neither the cache nor the counters;
    when it returns, the path is loaded and the result is the set of
    the IRIs in the table of individuals. *)
Lemma load_spec a st st0 (r : res (gset (@item Ind))) :
  load load_ontology individuals_of a st = (st0, r) →
  w_cache st0 = w_cache st ∧ hits st0 = hits st ∧ misses st0 = misses st
  ∧ ∀ All_individuals, r = Ret All_individuals →
      path_onto a ∈ loaded_ontologies st0
      ∧ ∃ inds, PyDict.get (loaded_individuals st0) (path_onto a) = Some inds
                ∧ All_individuals = set_map IriStr inds.
Proof.
  unfold load, mbind, W_bind, read_state, call, mark_loaded, store_individuals,
    mret, W_ret, wraise.
  destruct (bool_decide (path_onto a ∈ loaded_ontologies st)) eqn:Hb.
  - apply bool_decide_eq_true_1 in Hb. simpl.
    destruct (PyDict.get (loaded_individuals st) (path_onto a)) as [inds|] eqn:Hi;
      intros [= <- <-]; split_and!; try done.
    intros All [= <-]. split; [done|]. by exists inds.
  - destruct (load_ontology (path_onto a)) as [[]|e]; simpl;
      [|intros [= <- <-]; by split_and!].
    destruct (individuals_of (path_onto a)) as [inds|e]; simpl;
      [|intros [= <- <-]; by split_and!].
    destruct (PyDict.get (PyDict.set (loaded_individuals st) (path_onto a) inds)
                (path_onto a)) as [inds'|] eqn:Hi;
      intros [= <- <-]; simpl; split_and!; try done.
    intros All [= <-]. split; [set_solver|]. by exists inds'.
Qed.

(** A loaded ontology is not loaded again. *)
Lemma load_loaded a st (inds : gset Ind) :
  path_onto a ∈ loaded_ontologies st →
  PyDict.get (loaded_individuals st) (path_onto a) = Some inds →
  load load_ontology individuals_of a st = (st, Ret (set_map IriStr inds)).
Proof.
  intros Ho Hi. unfold load, mbind, W_bind, read_state. simpl.
  rewrite bool_decide_eq_true_2 by done. simpl. by rewrite Hi.
Qed.

(** A call that skips the initialisation starts with the chain of
    tests. *)
Lemma prepare_skips func a All_individuals st :
  skips_initialisation cache_type st →
  prepare rand_index time_at func related cache_type concepts a All_individuals st
  = (st, Ret tt).
Proof.
  unfold skips_initialisation, prepare. intros Hs.
  rewrite (W_bind_ret read_cache _ st st (w_cache st)) by reflexivity.
  by rewrite Hs.
Qed.

(** When the preparation has returned, no later call initialises. *)
Lemma prepare_initialized func a All_individuals st st1 :
  prepare rand_index time_at func related cache_type concepts a All_individuals st
  = (st1, Ret tt) →
  skips_initialisation cache_type st1.
Proof.
  unfold skips_initialisation, prepare.
  rewrite (W_bind_ret read_cache _ st st (w_cache st)) by reflexivity.
  destruct (String.eqb cache_type "cold"); simpl; [|done].
  destruct (SemanticCaching.initialized (w_cache st)) eqn:Ei; simpl.
  { intros [= <-]. by rewrite Ei. }
  unfold initialize_cache.
  rewrite (W_bind_ret read_cache _ st st (w_cache st)) by reflexivity.
  rewrite Ei. unfold mbind at 1, W_bind at 1.
  destruct (for_each _ _ st) as [s1 [[]|e]]; [|done].
  unfold mbind at 1, W_bind at 1.
  destruct (for_each _ _ s1) as [s2 [[]|e]]; [|done].
  unfold mbind at 1, W_bind at 1.
  destruct (for_each _ _ s2) as [s3 [[]|e]]; [|done].
  intros [= <-]. reflexivity.
Qed.

Lemma skips_initialisation_frame st st' :
  frame st st' → skips_initialisation cache_type st →
  skips_initialisation cache_type st'.
Proof.
  unfold skips_initialisation. intros (_ & Hi & _) Hs.
  destruct (String.eqb cache_type "cold"); [|done]. simpl in *.
  destruct (SemanticCaching.initialized (w_cache st)); [|done].
  by rewrite Hi.
Qed.

Lemma py_index_lookup (l : list str) (i : nat) (x : str) st :
  l !! i = Some x → py_index l i st = (st, Ret x).
Proof. intros Hl. unfold py_index. by rewrite Hl. Qed.

Lemma inner_loop_returns (test : @item Ind → res bool) (instances : list (@item Ind)) :
  (∀ y, returns (test y)) → returns (inner_loop test instances).
Proof.
  intros Ht. induction instances as [|y l [b IH]]; simpl; [by eexists|].
  destruct (Ht y) as [b' ->]. simpl. rewrite IH. simpl. by eexists.
Qed.

Lemma outer_loop_returns a p (universe instances : list (@item Ind)) :
  (∀ x y, returns (related (path_onto a) p x y)) →
  returns (outer_loop related a p universe instances).
Proof.
  intros Ht. induction universe as [|x l [r IH]]; simpl; [by eexists|].
  destruct (inner_loop_returns (related (path_onto a) p x) instances (Ht x))
    as [b ->].
  simpl. rewrite IH. simpl. by eexists.
Qed.

(** The existential resolver returns when the wrapped function and the
    tests of its loops do. *)
Lemma handle_owl_some_values_from_returns func a All_individuals p f st :
  returns (func (owl_expression a) (path_onto a) (third a)) →
  (∀ x y, returns (related (path_onto a) p x y)) →
  ∃ st' r, handle_owl_some_values_from time_at func related a All_individuals p f st
           = (st', Ret r).
Proof.
  intros [v Hf] Ht. unfold handle_owl_some_values_from.
  destruct (_ <? _)%nat; [|unfold call; rewrite Hf; by eexists _, _].
  destruct (retrieve_from_cache_spec st (owl_expression_to_dl f))
    as (st' & Hr & _).
  rewrite (W_bind_ret _ _ _ _ _ Hr).
  destruct (default PyNone _) as [|i]; [unfold call; rewrite Hf; by eexists _, _|].
  destruct (outer_loop_returns a p (elements All_individuals) (elements i) Ht)
    as [r Ho].
  unfold mbind, W_bind, call. rewrite Ho. by eexists _, _.
Qed.

(** The chain of tests returns when the wrapped function and the tests
    of the existential resolver return on the arguments of the call,
    unless the expression is an intersection or a union without a second
    operand. *)
Lemma dispatch_returns func a All_individuals st :
  lacks_second_operand (owl_expression a) = false →
  returns (func (owl_expression a) (path_onto a) (third a)) →
  (∀ p x y, returns (related (path_onto a) p x y)) →
  ∃ st2 r, dispatch unicode_word time_at func related cache_type a All_individuals st
           = (st2, Ret r).
Proof.
  intros Hops [v Hf] Ht.
  assert (Hu : ∀ s, underlying func a s = (s, Ret v)).
  { intros s. unfold underlying, call. by rewrite Hf. }
  assert (Hlook : ∀ (key : str) (k : gset (@item Ind) → gset (@item Ind)) s,
    ∃ st2 r, (cached_result ← retrieve_from_cache time_at key;
              match cached_result with
              | PySet r => mret (PySet (k r))
              | PyNone => underlying func a
              end) s = (st2, Ret r)).
  { intros key k s.
    destruct (retrieve_from_cache_spec s key) as (st2 & Hr & _).
    rewrite (W_bind_ret _ _ _ _ _ Hr).
    destruct (default PyNone _); [rewrite Hu|]; by eexists _, _. }
  assert (Htwo : ∀ (ops : list OWLClassExpression)
                   (k : gset (@item Ind) → gset (@item Ind) → gset (@item Ind)),
    (length ops <? 2)%nat = false →
    ∃ st2 r,
      (c0 ← py_index (owl_expression_to_dl <$> ops) 0;
       cached_C ← retrieve_from_cache time_at c0;
       c1 ← py_index (owl_expression_to_dl <$> ops) 1;
       cached_D ← retrieve_from_cache time_at c1;
       match cached_C with
       | PySet c =>
           match cached_D with
           | PySet d => mret (PySet (k c d))
           | PyNone => underlying func a
           end
       | PyNone => underlying func a
       end) st = (st2, Ret r)).
  { intros ops k Hlen. apply Nat.ltb_ge in Hlen.
    destruct ops as [|c [|d rest]]; simpl in Hlen; try lia.
    rewrite (W_bind_ret _ _ st st (owl_expression_to_dl c)) by reflexivity.
    destruct (retrieve_from_cache_spec st (owl_expression_to_dl c))
      as (st1 & Hr1 & _).
    rewrite (W_bind_ret _ _ _ _ _ Hr1).
    rewrite (W_bind_ret _ _ st1 st1 (owl_expression_to_dl d)) by reflexivity.
    destruct (retrieve_from_cache_spec st1 (owl_expression_to_dl d))
      as (st2 & Hr2 & _).
    rewrite (W_bind_ret _ _ _ _ _ Hr2).
    destruct (default PyNone _), (default PyNone _); rewrite ?Hu; by eexists _, _. }
  unfold dispatch.
  destruct (owl_expression a) as [name|op|ops|ops|p f|p f|b s] eqn:He.
  - apply (Hlook _ (λ r, r)).
  - destruct (String.eqb cache_type "cold");
      [apply (Hlook _ (λ r, r))|apply (Hlook _ (λ r, All_individuals ∖ r))].
  - apply (Htwo ops (λ c d, c ∩ d) Hops).
  - apply (Htwo ops (λ c d, c ∪ d) Hops).
  - assert (Hh : ∀ s, ∃ st2 r,
      handle_owl_some_values_from time_at func related a All_individuals p f s
      = (st2, Ret r)).
    { intros s. apply handle_owl_some_values_from_returns; [|apply Ht].
      exists v. by rewrite He. }
    destruct (String.eqb cache_type "cold"); [|apply Hh].
    destruct (retrieve_from_cache_spec st
                (owl_expression_to_dl (OWLObjectSomeValuesFrom p f)))
      as (st1 & Hr & _).
    rewrite (W_bind_ret _ _ _ _ _ Hr).
    destruct (default PyNone _); [apply Hh|by eexists _, _].
  - apply (Hlook _ (λ r, All_individuals ∖ r)).
  - rewrite Hu. by eexists _, _.
Qed.

(** What a call that has returned leaves behind: a reachable cache that
    holds the result under the rendering of the expression and is not
    initialised again, next to the loaded ontology. *)
Lemma wrapper_returned func a st st' (r : @value Ind _ _) :
  well_formed_state st →
  wrapper unicode_word rand_index time_at func load_ontology individuals_of
    related cache_type concepts a st = (st', Ret r) →
  well_formed_state st'
  ∧ cached st' (owl_expression_to_dl (owl_expression a)) = Some r
  ∧ skips_initialisation cache_type st'
  ∧ path_onto a ∈ loaded_ontologies st'
  ∧ is_Some (PyDict.get (loaded_individuals st') (path_onto a)).
Proof.
  intros Hwf. unfold wrapper.
  destruct (load load_ontology individuals_of a st) as [st0 [All|e]] eqn:Hl;
    [rewrite (W_bind_ret _ _ _ _ _ Hl)|by rewrite (W_bind_raise _ _ _ _ _ Hl)].
  destruct (load_spec a st st0 _ Hl) as (Hc0 & _ & _ & Hload).
  destruct (Hload All eq_refl) as (Hpath & inds & Hinds & _).
  assert (Hwf0 : well_formed_state st0) by (unfold well_formed_state; by rewrite Hc0).
  destruct (prepare rand_index time_at func related cache_type concepts a All st0)
    as [st1 [[]|e]] eqn:Hp;
    [rewrite (W_bind_ret _ _ _ _ _ Hp)|by rewrite (W_bind_raise _ _ _ _ _ Hp)].
  pose proof (frames_eq _ _ _ _ (frames_prepare func a All) Hp) as F1.
  pose proof (prepare_initialized func a All st0 st1 Hp) as Hs1.
  destruct (dispatch unicode_word time_at func related cache_type a All st1)
    as [st2 [r'|e]] eqn:Hd;
    [rewrite (W_bind_ret _ _ _ _ _ Hd)|by rewrite (W_bind_raise _ _ _ _ _ Hd)].
  pose proof (frames_eq _ _ _ _ (frames_dispatch func a All) Hd) as F2.
  pose proof (frame_trans _ _ _ F1 F2) as F02.
  destruct (finish_spec a r' st2) as (st3 & Hf & Hc3 & _);
    [by apply F02|].
  pose proof (frames_eq _ _ _ _ (frames_finish a r') Hf) as F3.
  pose proof (frame_trans _ _ _ F02 F3) as (Hw3 & _ & Ho3 & Hi3).
  rewrite Hf. intros [= <- <-]. split_and!.
  - by apply Hw3.
  - exact Hc3.
  - apply (skips_initialisation_frame st1); [by eapply frame_trans|done].
  - by rewrite Ho3.
  - rewrite Hi3, Hinds. by eexists.
Qed.

(** X7. When a call returns, and what it leaves behind.  On a cache in a
    state that calls can reach, once the loading of the ontology and the
    preparation of the cache have returned, a call of the wrapper returns
    for every expression but an intersection or a union without a second
    operand, whatever the strategy and the kind of cache, provided the
    wrapped function returns on the arguments of the call and the tests
    of the existential resolver return.  The result, [None] included,
    has then been written to the cache under the rendering of the
    expression, and no later call initialises the cache. *)
Theorem wrapper_returns_and_stores func a st st0 st1 All_individuals :
  well_formed_state st →
  load load_ontology individuals_of a st = (st0, Ret All_individuals) →
  prepare rand_index time_at func related cache_type concepts a All_individuals st0
  = (st1, Ret tt) →
  lacks_second_operand (owl_expression a) = false →
  returns (func (owl_expression a) (path_onto a) (third a)) →
  (∀ p x y, returns (related (path_onto a) p x y)) →
  ∃ st' r, wrapper unicode_word rand_index time_at func load_ontology individuals_of
             related cache_type concepts a st = (st', Ret r)
           ∧ cached st' (owl_expression_to_dl (owl_expression a)) = Some r
           ∧ well_formed_state st'
           ∧ ∀ func' All', prepare rand_index time_at func' related cache_type
                             concepts a All' st' = (st', Ret tt).
Proof.
  intros Hwf Hl Hp Hops Hf Ht.
  destruct (load_spec a st st0 _ Hl) as (Hc0 & _).
  assert (Hwf0 : well_formed_state st0) by (unfold well_formed_state; by rewrite Hc0).
  pose proof (frames_eq _ _ _ _ (frames_prepare func a All_individuals) Hp) as F1.
  destruct (dispatch_returns func a All_individuals st1 Hops Hf Ht) as (st2 & r & Hd).
  pose proof (frames_eq _ _ _ _ (frames_dispatch func a All_individuals) Hd) as F2.
  destruct (finish_spec a r st2) as (st3 & Hfin & _); [by apply F2, F1|].
  assert (Hw : wrapper unicode_word rand_index time_at func load_ontology
                 individuals_of related cache_type concepts a st = (st3, Ret r)).
  { unfold wrapper. rewrite (W_bind_ret _ _ _ _ _ Hl), (W_bind_ret _ _ _ _ _ Hp).
    by rewrite (W_bind_ret _ _ _ _ _ Hd). }
  destruct (wrapper_returned func a st st3 r Hwf Hw) as (Hwf3 & Hc3 & Hs3 & _).
  exists st3, r. split_and!; try done.
  intros func' All'. by apply prepare_skips.
Qed.

(** X8. A named class asked for a second time.  When a call on a named
    class has returned a set, a further call on the same arguments
    returns the same set and counts one hit and no miss, whatever the
    wrapped function would now do.  When the call has returned [None],
    the cache holds [None] under the name: the further call counts one
    miss and no hit and ends as the wrapped function now ends. *)
Theorem wrapper_named_class_repeated func func' a st st1 (r : @value Ind _ _) name :
  well_formed_state st →
  owl_expression a = OWLClass name →
  wrapper unicode_word rand_index time_at func load_ontology individuals_of
    related cache_type concepts a st = (st1, Ret r) →
  ∃ st2, wrapper unicode_word rand_index time_at func' load_ontology individuals_of
           related cache_type concepts a st1
         = (st2, match r with
                 | PySet s => Ret (PySet s)
                 | PyNone => func' (owl_expression a) (path_onto a) (third a)
                 end)
         ∧ hits st2 = match r with PySet _ => S (hits st1) | PyNone => hits st1 end
         ∧ misses st2
           = match r with PySet _ => misses st1 | PyNone => S (misses st1) end.
Proof.
  intros Hwf He Hw.
  destruct (wrapper_returned func a st st1 r Hwf Hw)
    as (Hwf1 & Hc & Hskip & Hpath & [inds Hinds]).
  unfold wrapper.
  rewrite (W_bind_ret _ _ _ _ _ (load_loaded a st1 inds Hpath Hinds)).
  rewrite (W_bind_ret _ _ _ _ _ (prepare_skips func' a _ st1 Hskip)).
  destruct (retrieve_from_cache_spec st1 (owl_expression_to_dl (owl_expression a)))
    as (s2 & Hr & _ & _ & Hh & Hm).
  rewrite Hc in Hr, Hh, Hm. simpl in Hr, Hh, Hm.
  pose proof (frames_eq _ _ _ _
                (frames_retrieve_from_cache (owl_expression_to_dl (owl_expression a)))
                Hr) as (Hw2 & _).
  specialize (Hw2 Hwf1).
  assert (Hd : dispatch unicode_word time_at func' related cache_type a
                 (set_map IriStr inds) st1
               = (s2, match r with
                      | PySet s => Ret (PySet s)
                      | PyNone => func' (owl_expression a) (path_onto a) (third a)
                      end)).
  { unfold dispatch. rewrite He. rewrite <- He.
    rewrite (W_bind_ret _ _ _ _ _ Hr). by destruct r. }
  destruct r as [|s].
  - destruct (func' (owl_expression a) (path_onto a) (third a)) as [v|e].
    + rewrite (W_bind_ret _ _ _ _ _ Hd).
      destruct (finish_spec a v s2 Hw2) as (st3 & Hf & _ & Hh3 & Hm3).
      exists st3. split; [exact Hf|]. split; congruence.
    + rewrite (W_bind_raise _ _ _ _ _ Hd). by exists s2.
  - rewrite (W_bind_ret _ _ _ _ _ Hd).
    destruct (finish_spec a (PySet s) s2 Hw2) as (st3 & Hf & _ & Hh3 & Hm3).
    exists st3. split; [exact Hf|]. split; congruence.
Qed.

(** X9. Of an intersection or a union only the first two operands count.
    When the ontology loads, the call skips the initialisation and the
    cache holds a set under the rendering of each of the first two
    operands, the result is the intersection (the union) of the two
    sets, with two hits and no miss; further operands and the wrapped
    function are not consulted. *)
Theorem wrapper_uses_first_two_operands func a st st0 All_individuals c d rest sc sd :
  well_formed_state st →
  load load_ontology individuals_of a st = (st0, Ret All_individuals) →
  skips_initialisation cache_type st →
  cached st (owl_expression_to_dl c) = Some (PySet sc) →
  cached st (owl_expression_to_dl d) = Some (PySet sd) →
  (owl_expression a = OWLObjectIntersectionOf (c :: d :: rest) →
   ∃ st', wrapper unicode_word rand_index time_at func load_ontology individuals_of
            related cache_type concepts a st = (st', Ret (PySet (sc ∩ sd)))
          ∧ hits st' = S (S (hits st)) ∧ misses st' = misses st)
  ∧ (owl_expression a = OWLObjectUnionOf (c :: d :: rest) →
     ∃ st', wrapper unicode_word rand_index time_at func load_ontology individuals_of
              related cache_type concepts a st = (st', Ret (PySet (sc ∪ sd)))
            ∧ hits st' = S (S (hits st)) ∧ misses st' = misses st).
Proof.
  intros Hwf Hl Hskip Hc Hd.
  destruct (load_spec a st st0 _ Hl) as (Hc0 & Hh0 & Hm0 & _).
  assert (Hwf0 : well_formed_state st0) by (unfold well_formed_state; by rewrite Hc0).
  assert (Hskip0 : skips_initialisation cache_type st0).
  { unfold skips_initialisation in *. by rewrite Hc0. }
  pose proof (prepare_skips func a All_individuals st0 Hskip0) as Hp.
  destruct (retrieve_from_cache_spec st0 (owl_expression_to_dl c))
    as (st1 & Hr1 & Hc1 & _ & Hh1 & Hm1).
  assert (Hc' : cached st0 (owl_expression_to_dl c) = Some (PySet sc)).
  { unfold cached in *. by rewrite Hc0. }
  rewrite Hc' in Hr1, Hh1, Hm1. simpl in Hr1, Hh1, Hm1.
  destruct (retrieve_from_cache_spec st1 (owl_expression_to_dl d))
    as (st2 & Hr2 & _ & _ & Hh2 & Hm2).
  assert (Hd1 : cached st1 (owl_expression_to_dl d) = Some (PySet sd)).
  { unfold cached in *. by rewrite Hc1, Hc0. }
  rewrite Hd1 in Hr2, Hh2, Hm2. simpl in Hr2, Hh2, Hm2.
  pose proof (frames_eq _ _ _ _ (frames_retrieve_from_cache _) Hr1) as (Hw1 & _).
  pose proof (frames_eq _ _ _ _ (frames_retrieve_from_cache _) Hr2) as (Hw2 & _).
  specialize (Hw2 (Hw1 Hwf0)).
  split; intros He; unfold wrapper;
    rewrite (W_bind_ret _ _ _ _ _ Hl), (W_bind_ret _ _ _ _ _ Hp).
  - assert (Hdis : dispatch unicode_word time_at func related cache_type a
                     All_individuals st0 = (st2, Ret (PySet (sc ∩ sd)))).
    { unfold dispatch. rewrite He.
      rewrite (W_bind_ret _ _ st0 st0 (owl_expression_to_dl c)) by reflexivity.
      rewrite (W_bind_ret _ _ _ _ _ Hr1).
      rewrite (W_bind_ret _ _ st1 st1 (owl_expression_to_dl d)) by reflexivity.
      rewrite (W_bind_ret _ _ _ _ _ Hr2). reflexivity. }
    rewrite (W_bind_ret _ _ _ _ _ Hdis).
    destruct (finish_spec a (PySet (sc ∩ sd)) st2 Hw2) as (st3 & Hf & _ & Hh3 & Hm3).
    exists st3. split; [exact Hf|]. split; congruence.
  - assert (Hdis : dispatch unicode_word time_at func related cache_type a
                     All_individuals st0 = (st2, Ret (PySet (sc ∪ sd)))).
    { unfold dispatch. rewrite He.
      rewrite (W_bind_ret _ _ st0 st0 (owl_expression_to_dl c)) by reflexivity.
      rewrite (W_bind_ret _ _ _ _ _ Hr1).
      rewrite (W_bind_ret _ _ st1 st1 (owl_expression_to_dl d)) by reflexivity.
      rewrite (W_bind_ret _ _ _ _ _ Hr2). reflexivity. }
    rewrite (W_bind_ret _ _ _ _ _ Hdis).
    destruct (finish_spec a (PySet (sc ∪ sd)) st2 Hw2) as (st3 & Hf & _ & Hh3 & Hm3).
    exists st3. split; [exact Hf|]. split; congruence.
Qed.

(** X10. An intersection or a union without a second operand makes the
    call raise [IndexError], once the loading of the ontology and the
    preparation of the cache have returned (the preparation returns at
    once when the call skips the initialisation): the wrapper indexes
    the list of operands at 0 and at 1. *)
Theorem wrapper_missing_operand_raises func a st st0 st1 All_individuals :
  load load_ontology individuals_of a st = (st0, Ret All_individuals) →
  prepare rand_index time_at func related cache_type concepts a All_individuals st0
  = (st1, Ret tt) →
  lacks_second_operand (owl_expression a) = true →
  ∃ st', wrapper unicode_word rand_index time_at func load_ontology individuals_of
           related cache_type concepts a st = (st', Raise IndexError).
Proof.
  intros Hl Hp Hops. unfold wrapper.
  rewrite (W_bind_ret _ _ _ _ _ Hl), (W_bind_ret _ _ _ _ _ Hp).
  assert (Hdis : ∃ st2, dispatch unicode_word time_at func related cache_type a
                          All_individuals st1 = (st2, Raise IndexError)).
  { unfold dispatch.
    destruct (owl_expression a) as [name|op|ops|ops|p f|p f|b s] eqn:He;
      try discriminate Hops; simpl in Hops; apply Nat.ltb_lt in Hops;
      destruct ops as [|c [|d rest]]; simpl in Hops; try lia.
    - exists st1. reflexivity.
    - rewrite (W_bind_ret _ _ st1 st1 (owl_expression_to_dl c)) by reflexivity.
      destruct (retrieve_from_cache_spec st1 (owl_expression_to_dl c))
        as (st2 & Hr & _).
      rewrite (W_bind_ret _ _ _ _ _ Hr). exists st2. reflexivity.
    - exists st1. reflexivity.
    - rewrite (W_bind_ret _ _ st1 st1 (owl_expression_to_dl c)) by reflexivity.
      destruct (retrieve_from_cache_spec st1 (owl_expression_to_dl c))
        as (st2 & Hr & _).
      rewrite (W_bind_ret _ _ _ _ _ Hr). exists st2. reflexivity. }
  destruct Hdis as [st2 Hdis]. rewrite (W_bind_raise _ _ _ _ _ Hdis). by exists st2.
Qed.

(** X11. A call whose own expression is of one of the other kinds
    (cardinality restrictions, nominals, ...) performs no lookup.  When
    the ontology loads and the call skips the initialisation, it counts
    no hit and no miss and ends as the wrapped function ends, whatever
    the cache holds: an exception is passed on, a result, [None]
    included, is returned and written to the cache under the rendering
    of the expression. *)
Theorem wrapper_other_kinds_bypass_cache func a st st0 All_individuals
    is_restriction rendering :
  well_formed_state st →
  load load_ontology individuals_of a st = (st0, Ret All_individuals) →
  skips_initialisation cache_type st →
  owl_expression a = OWLOther is_restriction rendering →
  ∃ st', wrapper unicode_word rand_index time_at func load_ontology individuals_of
           related cache_type concepts a st
         = (st', func (owl_expression a) (path_onto a) (third a))
         ∧ hits st' = hits st ∧ misses st' = misses st
         ∧ ∀ result, func (owl_expression a) (path_onto a) (third a) = Ret result →
                     cached st' rendering = Some result.
Proof.
  intros Hwf Hl Hskip He.
  destruct (load_spec a st st0 _ Hl) as (Hc0 & Hh0 & Hm0 & _).
  assert (Hwf0 : well_formed_state st0) by (unfold well_formed_state; by rewrite Hc0).
  assert (Hskip0 : skips_initialisation cache_type st0).
  { unfold skips_initialisation in *. by rewrite Hc0. }
  pose proof (prepare_skips func a All_individuals st0 Hskip0) as Hp.
  unfold wrapper. rewrite (W_bind_ret _ _ _ _ _ Hl), (W_bind_ret _ _ _ _ _ Hp).
  assert (Hdis : dispatch unicode_word time_at func related cache_type a
                   All_individuals st0
                 = (st0, func (owl_expression a) (path_onto a) (third a))).
  { unfold dispatch. rewrite He. simpl. by rewrite <- He. }
  destruct (func (owl_expression a) (path_onto a) (third a)) as [v|e].
  - rewrite (W_bind_ret _ _ _ _ _ Hdis).
    destruct (finish_spec a v st0 Hwf0) as (st3 & Hf & Hc3 & Hh3 & Hm3).
    exists st3. split; [exact Hf|]. split_and!; try congruence.
    intros result [= <-]. rewrite <- Hc3, He. reflexivity.
  - rewrite (W_bind_raise _ _ _ _ _ Hdis). exists st0. by split_and!.
Qed.

End WrapperCallFacts.

Lemma example_two_class_state_well_formed :
  WrapperCalls.well_formed_state WrapperCalls.example_two_class_state.
Proof.
  unfold WrapperCalls.well_formed_state, CacheRuns.well_formed,
    WrapperCalls.example_two_class_state. simpl.
  split_and!.
  - apply (bool_decide_unpack _). vm_compute. exact I.
  - lia.
  - intros _. lia.
  - intros Ht. discriminate Ht.
Defined.

Lemma example_fresh_state_well_formed :
  WrapperCalls.well_formed_state WrapperCalls.example_fresh_state.
Proof.
  unfold WrapperCalls.well_formed_state, CacheRuns.well_formed,
    WrapperCalls.example_fresh_state. simpl.
  split_and!.
  - constructor.
  - lia.
  - intros _. lia.
  - intros Ht. discriminate Ht.
Defined.

(** With a wrapped function that returns [None], the cold
    initialisation stores [None] for the class [A] and raises
    [TypeError] at the complement [¬A], where it subtracts what the
    function returned: the call does not return. *)
Lemma cold_initialisation_None_raises :
  (Wrapper.wrapper Regex.ascii_only (λ _ _, 0%nat) (λ _, 0%Q)
     WrapperCalls.example_None_func (λ _, Ret tt) Wrapper.example_individuals
     (λ _ _ _ _, Ret false) "cold" WrapperCalls.example_cold_concepts
     WrapperCalls.example_class_args WrapperCalls.example_fresh_state).2
  = Raise TypeError.
Proof. vm_compute. reflexivity. Qed.

Lemma example_two_class_state_loads (a : Wrapper.call_args) :
  Wrapper.path_onto a = "family.owl" →
  Wrapper.load (λ _, Ret tt) Wrapper.example_individuals a
    WrapperCalls.example_two_class_state
  = (WrapperCalls.example_two_class_state, Ret Wrapper.example_All).
Proof.
  intros Hp.
  rewrite (load_loaded (λ _, Ret tt) Wrapper.example_individuals a
             WrapperCalls.example_two_class_state {[1%nat; 2%nat]}).
  - by do 2 f_equal.
  - rewrite Hp. by apply elem_of_singleton.
  - by rewrite Hp.
Defined.

Lemma wrapper_returns_and_stores_witness :
  ∃ st' r, WrapperCalls.example_cold_wrapper WrapperCalls.example_class_args
             WrapperCalls.example_fresh_state = (st', Ret r)
           ∧ WrapperCalls.cached st'
               (DL.owl_expression_to_dl
                  (Wrapper.owl_expression WrapperCalls.example_class_args))
             = Some r
           ∧ WrapperCalls.well_formed_state st'
           ∧ ∀ func' All',
               Wrapper.prepare (λ _ _, 0%nat) (λ _, 0%Q) func' (λ _ _ _ _, Ret false)
                 "cold" WrapperCalls.example_cold_concepts
                 WrapperCalls.example_class_args All' st'
               = (st', Ret tt).
Proof.
  assert (Hl : Wrapper.load (λ _, Ret tt) Wrapper.example_individuals
                 WrapperCalls.example_class_args WrapperCalls.example_fresh_state
               = ((Wrapper.load (λ _, Ret tt) Wrapper.example_individuals
                     WrapperCalls.example_class_args
                     WrapperCalls.example_fresh_state).1,
                  Ret Wrapper.example_All)).
  { vm_compute. reflexivity. }
  assert (Hp : Wrapper.prepare (λ _ _, 0%nat) (λ _, 0%Q)
                 WrapperCalls.example_constant_func (λ _ _ _ _, Ret false)
                 "cold" WrapperCalls.example_cold_concepts
                 WrapperCalls.example_class_args Wrapper.example_All
                 (Wrapper.load (λ _, Ret tt) Wrapper.example_individuals
                    WrapperCalls.example_class_args
                    WrapperCalls.example_fresh_state).1
               = ((Wrapper.prepare (λ _ _, 0%nat) (λ _, 0%Q)
                     WrapperCalls.example_constant_func (λ _ _ _ _, Ret false)
                     "cold" WrapperCalls.example_cold_concepts
                     WrapperCalls.example_class_args Wrapper.example_All
                     (Wrapper.load (λ _, Ret tt) Wrapper.example_individuals
                        WrapperCalls.example_class_args
                        WrapperCalls.example_fresh_state).1).1,
                  Ret tt)).
  { vm_compute. reflexivity. }
  exact (wrapper_returns_and_stores Regex.ascii_only (λ _ _, 0%nat) (λ _, 0%Q)
           (λ _, Ret tt) Wrapper.example_individuals (λ _ _ _ _, Ret false)
           "cold" WrapperCalls.example_cold_concepts
           WrapperCalls.example_constant_func WrapperCalls.example_class_args
           WrapperCalls.example_fresh_state _ _ _
           example_fresh_state_well_formed Hl Hp eq_refl
           (ex_intro _ _ eq_refl) (λ _ _ _, ex_intro _ false eq_refl)).
Defined.

Lemma wrapper_named_class_repeated_witness :
  (∃ st2, Wrapper.wrapper Regex.ascii_only (λ _ _, 0%nat) (λ _, 0%Q)
            WrapperCalls.example_failing_func (λ _, Ret tt)
            Wrapper.example_individuals (λ _ _ _ _, Ret false) "hot" []
            WrapperCalls.example_class_args
            (WrapperCalls.example_hot_wrapper WrapperCalls.example_class_args
               WrapperCalls.example_two_class_state).1
          = (st2, Ret (Wrapper.PySet {[Wrapper.IriStr 1%nat]}))
          ∧ Wrapper.hits st2 = 1%nat ∧ Wrapper.misses st2 = 1%nat)
  ∧ (∃ st2, Wrapper.wrapper Regex.ascii_only (λ _ _, 0%nat) (λ _, 0%Q)
              WrapperCalls.example_failing_func (λ _, Ret tt)
              Wrapper.example_individuals (λ _ _ _ _, Ret false) "hot" []
              WrapperCalls.example_class_args
              (Wrapper.wrapper Regex.ascii_only (λ _ _, 0%nat) (λ _, 0%Q)
                 WrapperCalls.example_None_func (λ _, Ret tt)
                 Wrapper.example_individuals (λ _ _ _ _, Ret false) "hot" []
                 WrapperCalls.example_class_args
                 WrapperCalls.example_two_class_state).1
            = (st2, Raise (RequestException "no reasoner"))
            ∧ Wrapper.hits st2 = 0%nat ∧ Wrapper.misses st2 = 2%nat).
Proof.
  assert (Hrun : WrapperCalls.example_hot_wrapper WrapperCalls.example_class_args
                   WrapperCalls.example_two_class_state
                 = ((WrapperCalls.example_hot_wrapper WrapperCalls.example_class_args
                       WrapperCalls.example_two_class_state).1,
                    Ret (Wrapper.PySet {[Wrapper.IriStr 1%nat]}))).
  { vm_compute. reflexivity. }
  assert (Hnone : Wrapper.wrapper Regex.ascii_only (λ _ _, 0%nat) (λ _, 0%Q)
                    WrapperCalls.example_None_func (λ _, Ret tt)
                    Wrapper.example_individuals (λ _ _ _ _, Ret false) "hot" []
                    WrapperCalls.example_class_args
                    WrapperCalls.example_two_class_state
                  = ((Wrapper.wrapper Regex.ascii_only (λ _ _, 0%nat) (λ _, 0%Q)
                        WrapperCalls.example_None_func (λ _, Ret tt)
                        Wrapper.example_individuals (λ _ _ _ _, Ret false) "hot" []
                        WrapperCalls.example_class_args
                        WrapperCalls.example_two_class_state).1,
                     Ret Wrapper.PyNone)).
  { vm_compute. reflexivity. }
  split.
  - exact (wrapper_named_class_repeated Regex.ascii_only (λ _ _, 0%nat) (λ _, 0%Q)
             (λ _, Ret tt) Wrapper.example_individuals (λ _ _ _ _, Ret false)
             "hot" [] WrapperCalls.example_constant_func
             WrapperCalls.example_failing_func
             WrapperCalls.example_class_args WrapperCalls.example_two_class_state _ _
             (DL.lit "Male") example_two_class_state_well_formed eq_refl Hrun).
  - exact (wrapper_named_class_repeated Regex.ascii_only (λ _ _, 0%nat) (λ _, 0%Q)
             (λ _, Ret tt) Wrapper.example_individuals (λ _ _ _ _, Ret false)
             "hot" [] WrapperCalls.example_None_func
             WrapperCalls.example_failing_func
             WrapperCalls.example_class_args WrapperCalls.example_two_class_state _ _
             (DL.lit "Male") example_two_class_state_well_formed eq_refl Hnone).
Defined.

Lemma wrapper_uses_first_two_operands_witness :
  ∃ st', WrapperCalls.example_hot_wrapper WrapperCalls.example_intersection_args
           WrapperCalls.example_two_class_state
         = (st', Ret (Wrapper.PySet
                        ({[Wrapper.IriStr 1%nat; Wrapper.IriStr 2%nat]}
                         ∩ {[Wrapper.IriStr 2%nat; Wrapper.IriStr 3%nat]})))
         ∧ Wrapper.hits st' = S (S (Wrapper.hits WrapperCalls.example_two_class_state))
         ∧ Wrapper.misses st' = Wrapper.misses WrapperCalls.example_two_class_state.
Proof.
  assert (HA : WrapperCalls.cached WrapperCalls.example_two_class_state
                 (DL.owl_expression_to_dl (DL.OWLClass (DL.lit "A")))
               = Some (Wrapper.PySet {[Wrapper.IriStr 1%nat; Wrapper.IriStr 2%nat]}))
    by reflexivity.
  assert (HB : WrapperCalls.cached WrapperCalls.example_two_class_state
                 (DL.owl_expression_to_dl (DL.OWLClass (DL.lit "B")))
               = Some (Wrapper.PySet {[Wrapper.IriStr 2%nat; Wrapper.IriStr 3%nat]}))
    by reflexivity.
  assert (Hs : WrapperCalls.skips_initialisation "hot"
                 WrapperCalls.example_two_class_state) by reflexivity.
  exact (proj1 (wrapper_uses_first_two_operands Regex.ascii_only (λ _ _, 0%nat)
                  (λ _, 0%Q) (λ _, Ret tt) Wrapper.example_individuals
                  (λ _ _ _ _, Ret false) "hot" []
                  WrapperCalls.example_constant_func
                  WrapperCalls.example_intersection_args
                  WrapperCalls.example_two_class_state _ _
                  _ _ [DL.OWLClass (DL.lit "C")] _ _
                  example_two_class_state_well_formed
                  (example_two_class_state_loads WrapperCalls.example_intersection_args eq_refl) Hs HA HB) eq_refl).
Defined.

Lemma wrapper_missing_operand_raises_witness :
  ∃ st', WrapperCalls.example_hot_wrapper WrapperCalls.example_single_operand_args
           WrapperCalls.example_two_class_state = (st', Raise IndexError).
Proof.
  apply (wrapper_missing_operand_raises Regex.ascii_only (λ _ _, 0%nat) (λ _, 0%Q)
           (λ _, Ret tt) Wrapper.example_individuals (λ _ _ _ _, Ret false) "hot" []
           WrapperCalls.example_constant_func WrapperCalls.example_single_operand_args
           WrapperCalls.example_two_class_state WrapperCalls.example_two_class_state
           WrapperCalls.example_two_class_state Wrapper.example_All
           (example_two_class_state_loads WrapperCalls.example_single_operand_args eq_refl) eq_refl eq_refl).
Defined.

Lemma wrapper_other_kinds_bypass_cache_witness :
  ∃ st', WrapperCalls.example_hot_wrapper WrapperCalls.example_cardinality_args
           WrapperCalls.example_two_class_state
         = (st', Ret (Wrapper.PySet {[Wrapper.IriStr 1%nat]}))
         ∧ Wrapper.hits st' = Wrapper.hits WrapperCalls.example_two_class_state
         ∧ Wrapper.misses st' = Wrapper.misses WrapperCalls.example_two_class_state
         ∧ ∀ result, Ret (Wrapper.PySet {[Wrapper.IriStr 1%nat]}) = Ret result →
                     WrapperCalls.cached st' (DL.lit ">= 2 r.A") = Some result.
Proof.
  assert (Hs : WrapperCalls.skips_initialisation "hot"
                 WrapperCalls.example_two_class_state) by reflexivity.
  exact (wrapper_other_kinds_bypass_cache Regex.ascii_only (λ _ _, 0%nat)
           (λ _, 0%Q) (λ _, Ret tt) Wrapper.example_individuals
           (λ _ _ _ _, Ret false) "hot" []
           WrapperCalls.example_constant_func WrapperCalls.example_cardinality_args
           WrapperCalls.example_two_class_state _ _ true (DL.lit ">= 2 r.A")
           example_two_class_state_well_formed
           (example_two_class_state_loads WrapperCalls.example_cardinality_args eq_refl) Hs eq_refl).
Defined.

(** ** The textual transform: texts it leaves alone, nested restrictions *)

Section TransformFacts.
Import DL Regex.
Variable unicode_word : N → bool.
Implicit Types (s w rest : str).

(** X12. A text in which [∀] does not occur is returned as it is: both
    patterns start with [∀]. *)
Theorem transform_without_universal s :
  FORALL ∉ s → transform_forall_to_exists unicode_word s = s.
Proof.
  intros Hs. unfold transform_forall_to_exists, re_sub.
  rewrite (sub_from_unchanged (match_negated unicode_word)); [|apply match_negated_head|done].
  apply sub_from_unchanged; [apply match_non_negated_head|done].
Qed.

Lemma sub_from_copy fuel matcher replacement (c : N) s :
  (0 < fuel)%nat → matcher (c :: s) = None →
  sub_from fuel matcher replacement (c :: s)
  = c :: sub_from (fuel - 1) matcher replacement s.
Proof.
  intros Hf Hm. destruct fuel as [|fuel]; [lia|].
  replace (S fuel - 1)%nat with fuel by lia.
  by rewrite sub_from_step, Hm.
Qed.

Lemma sub_from_match fuel matcher replacement (c : N) s g1 g2 rest :
  (0 < fuel)%nat → matcher (c :: s) = Some (g1, g2, rest) →
  sub_from fuel matcher replacement (c :: s)
  = replacement g1 g2 ++ sub_from (fuel - 1) matcher replacement rest.
Proof.
  intros Hf Hm. destruct fuel as [|fuel]; [lia|].
  replace (S fuel - 1)%nat with fuel by lia.
  by rewrite sub_from_step, Hm.
Qed.

Lemma sub_from_skip matcher replacement :
  (∀ s x, matcher s = Some x → ∃ t, s = FORALL :: t) →
  ∀ (pre : str) fuel s, FORALL ∉ pre → (length pre ≤ fuel)%nat →
    sub_from fuel matcher replacement (pre ++ s)
    = pre ++ sub_from (fuel - length pre) matcher replacement s.
Proof.
  intros Hm. induction pre as [|c pre IH]; intros fuel s Hpre Hlen; simpl.
  - by rewrite Nat.sub_0_r.
  - apply not_elem_of_cons in Hpre as [Hc Hpre]. simpl in Hlen.
    rewrite sub_from_copy; [|lia|].
    + rewrite IH by (done || lia).
      by replace (fuel - 1 - length pre)%nat with (fuel - S (length pre))%nat by lia.
    + destruct (matcher (c :: pre ++ s)) as [x|] eqn:E; [|done].
      apply Hm in E as [t [= -> _]]. done.
Qed.
End TransformFacts.

Section NestedUniversal.
Import DL Regex.
Variable unicode_word : N → bool.
Hypothesis forall_not_word : unicode_word FORALL = false.
Implicit Types (r s A rest : str).

Lemma word_name_head (C : str) :
  word_name unicode_word C →
  ∃ c C', C = c :: C' ∧ is_word unicode_word c = true.
Proof.
  intros [Hne Hw]. destruct C as [|c C']; [done|].
  apply Forall_cons in Hw as [Hc _]. by exists c, C'.
Qed.

Lemma match_negated_word_filler r C rest :
  word_name unicode_word r → word_name unicode_word C →
  match_negated unicode_word (FORALL :: SPACE :: (r ++ DOT :: C ++ rest)) = None.
Proof.
  intros Hr HC. unfold match_negated.
  change (FORALL :: SPACE :: (r ++ DOT :: C ++ rest))
    with ([FORALL; SPACE] ++ (r ++ DOT :: C ++ rest)).
  rewrite expect_app. simpl.
  rewrite (word_group_run unicode_word r (DOT :: C ++ rest)) by
    (done || apply starts_with_non_word, dot_not_word). simpl.
  destruct (word_name_head C HC) as (c & C' & -> & Hc). simpl.
  destruct (N.eqb_spec c LPAREN) as [->|]; [|done].
  rewrite lparen_not_word in Hc. done.
Qed.

Lemma match_negated_paren_other r rest (x : N) :
  word_name unicode_word r → x ≠ NOT →
  match_negated unicode_word (FORALL :: SPACE :: (r ++ DOT :: LPAREN :: x :: rest))
  = None.
Proof.
  intros Hr Hx. unfold match_negated.
  change (FORALL :: SPACE :: (r ++ DOT :: LPAREN :: x :: rest))
    with ([FORALL; SPACE] ++ (r ++ DOT :: LPAREN :: x :: rest)).
  rewrite expect_app. simpl.
  rewrite (word_group_run unicode_word r (DOT :: LPAREN :: x :: rest)) by
    (done || apply starts_with_non_word, dot_not_word). simpl.
  by destruct (N.eqb_spec x NOT).
Qed.

Lemma match_non_negated_paren r rest :
  word_name unicode_word r →
  match_non_negated unicode_word (FORALL :: SPACE :: (r ++ DOT :: LPAREN :: rest))
  = None.
Proof.
  intros Hr. unfold match_non_negated.
  change (FORALL :: SPACE :: (r ++ DOT :: LPAREN :: rest))
    with ([FORALL; SPACE] ++ (r ++ DOT :: LPAREN :: rest)).
  rewrite expect_app. simpl.
  rewrite (word_group_run unicode_word r (DOT :: LPAREN :: rest)) by
    (done || apply starts_with_non_word, dot_not_word). simpl.
  reflexivity.
Qed.

Lemma match_non_negated_word_filler r C rest :
  word_name unicode_word r → word_name unicode_word C →
  (∀ c rest', rest = c :: rest' → is_word unicode_word c = false) →
  match_non_negated unicode_word (FORALL :: SPACE :: (r ++ DOT :: C ++ rest))
  = Some (r, C, rest).
Proof.
  intros Hr HC Hrest. unfold match_non_negated.
  change (FORALL :: SPACE :: (r ++ DOT :: C ++ rest))
    with ([FORALL; SPACE] ++ (r ++ DOT :: C ++ rest)).
  rewrite expect_app. simpl.
  rewrite (word_group_run unicode_word r (DOT :: C ++ rest)) by
    (done || apply starts_with_non_word, dot_not_word). simpl.
  rewrite ?N.eqb_refl.
  by rewrite (word_group_run unicode_word C rest).
Qed.

(** X13. A universal restriction whose filler is again a universal
    restriction: the substitutions rewrite the inner restriction and keep
    the outer one, so that for [∀ r.(∀ s.A)] the cache is asked for
    [∀ r.(∃ s.(¬A))], which is not the rendering of its existential
    dual. *)
Theorem transform_nested_universal r s A :
  word_name unicode_word r → word_name unicode_word s → word_name unicode_word A →
  transform_forall_to_exists unicode_word
    (owl_expression_to_dl
       (OWLObjectAllValuesFrom (OWLObjectProperty r)
          (OWLObjectAllValuesFrom (OWLObjectProperty s) (OWLClass A))))
  = owl_expression_to_dl
      (OWLObjectAllValuesFrom (OWLObjectProperty r)
         (OWLObjectSomeValuesFrom (OWLObjectProperty s)
            (OWLObjectComplementOf (OWLClass A))))
  ∧ owl_expression_to_dl
      (OWLObjectAllValuesFrom (OWLObjectProperty r)
         (OWLObjectSomeValuesFrom (OWLObjectProperty s)
            (OWLObjectComplementOf (OWLClass A))))
    ≠ owl_expression_to_dl
        (existential_dual (OWLObjectProperty r)
           (OWLObjectAllValuesFrom (OWLObjectProperty s) (OWLClass A))).
Proof.
  intros Hr Hs HA. split; [|simpl; discriminate].
  set (inner := FORALL :: SPACE :: (s ++ DOT :: A ++ [RPAREN])).
  assert (Hrender : owl_expression_to_dl
            (OWLObjectAllValuesFrom (OWLObjectProperty r)
               (OWLObjectAllValuesFrom (OWLObjectProperty s) (OWLClass A)))
          = FORALL :: ((SPACE :: r ++ [DOT; LPAREN]) ++ inner)).
  { unfold inner. simpl. unfold nested. simpl.
    rewrite <- !app_assoc. reflexivity. }
  rewrite Hrender.
  assert (Hpre : FORALL ∉ SPACE :: r ++ [DOT; LPAREN]).
  { intros Hin. apply elem_of_cons in Hin as [Hin|Hin]; [done|].
    apply elem_of_app in Hin as [Hin|Hin];
      [by apply (word_name_no_forall unicode_word forall_not_word r)|].
    repeat (apply elem_of_cons in Hin as [Hin|Hin]; [done|]).
    by apply elem_of_nil in Hin. }
  assert (Htail : FORALL ∉ SPACE :: (s ++ DOT :: A ++ [RPAREN])).
  { intros Hin. apply elem_of_cons in Hin as [Hin|Hin]; [done|].
    apply elem_of_app in Hin as [Hin|Hin];
      [by apply (word_name_no_forall unicode_word forall_not_word s)|].
    apply elem_of_cons in Hin as [Hin|Hin]; [done|].
    apply elem_of_app in Hin as [Hin|Hin];
      [by apply (word_name_no_forall unicode_word forall_not_word A)|].
    apply list_elem_of_singleton in Hin. done. }
  assert (Hlen : (length (SPACE :: r ++ [DOT; LPAREN]) + length inner
                  = length ((SPACE :: r ++ [DOT; LPAREN]) ++ inner))%nat)
    by (by rewrite length_app).
  unfold transform_forall_to_exists.
  assert (Hfirst : re_sub (match_negated unicode_word) replacement_negated
                     (FORALL :: ((SPACE :: r ++ [DOT; LPAREN]) ++ inner))
                   = FORALL :: ((SPACE :: r ++ [DOT; LPAREN]) ++ inner)).
  { unfold re_sub. cbn [length].
    rewrite sub_from_copy; [|lia|].
    2:{ unfold inner. simpl. rewrite <- app_assoc. simpl.
        by apply match_negated_paren_other. }
    f_equal. rewrite sub_from_skip; [|apply match_negated_head|done|lia].
    f_equal. unfold inner.
    rewrite sub_from_copy; [|unfold inner in Hlen; simpl in *; lia|].
    2:{ by apply match_negated_word_filler. }
    f_equal. apply sub_from_unchanged; [apply match_negated_head|done]. }
  rewrite Hfirst. unfold re_sub. cbn [length].
  rewrite sub_from_copy; [|lia|].
  2:{ unfold inner. simpl. rewrite <- app_assoc. simpl.
      by apply match_non_negated_paren. }
  rewrite sub_from_skip; [|apply match_non_negated_head|done|lia].
  unfold inner.
  rewrite (sub_from_match _ _ _ _ _ s A [RPAREN]);
    [|unfold inner in Hlen; simpl in *; lia|].
  2:{ apply match_non_negated_word_filler; [done..|].
      apply starts_with_non_word, rparen_not_word. }
  rewrite sub_from_unchanged; [|apply match_non_negated_head|].
  2:{ intros Hin. apply list_elem_of_singleton in Hin. done. }
  unfold replacement_non_negated. simpl. unfold nested. simpl.
  rewrite <- !app_assoc. reflexivity.
Qed.
End NestedUniversal.

Lemma transform_without_universal_witness :
  (DL.FORALL ∉ DL.owl_expression_to_dl
                 (DL.OWLObjectSomeValuesFrom (DL.OWLObjectProperty (DL.lit "r"))
                    (DL.OWLClass (DL.lit "A"))))
  ∧ Regex.transform_forall_to_exists Regex.ascii_only
      (DL.owl_expression_to_dl
         (DL.OWLObjectSomeValuesFrom (DL.OWLObjectProperty (DL.lit "r"))
            (DL.OWLClass (DL.lit "A"))))
    = DL.owl_expression_to_dl
        (DL.OWLObjectSomeValuesFrom (DL.OWLObjectProperty (DL.lit "r"))
           (DL.OWLClass (DL.lit "A"))).
Proof.
  assert (Hn : DL.FORALL ∉ DL.owl_expression_to_dl
                 (DL.OWLObjectSomeValuesFrom (DL.OWLObjectProperty (DL.lit "r"))
                    (DL.OWLClass (DL.lit "A")))).
  { apply (bool_decide_unpack _). vm_compute. exact I. }
  split; [exact Hn|].
  exact (transform_without_universal Regex.ascii_only _ Hn).
Defined.

Lemma transform_nested_universal_witness :
  Regex.ascii_only DL.FORALL = false
  ∧ Regex.word_name Regex.ascii_only (DL.lit "hasChild")
  ∧ Regex.word_name Regex.ascii_only (DL.lit "hasSibling")
  ∧ Regex.word_name Regex.ascii_only (DL.lit "Male")
  ∧ Regex.transform_forall_to_exists Regex.ascii_only
      (DL.owl_expression_to_dl
         (DL.OWLObjectAllValuesFrom (DL.OWLObjectProperty (DL.lit "hasChild"))
            (DL.OWLObjectAllValuesFrom (DL.OWLObjectProperty (DL.lit "hasSibling"))
               (DL.OWLClass (DL.lit "Male")))))
    = DL.owl_expression_to_dl
        (DL.OWLObjectAllValuesFrom (DL.OWLObjectProperty (DL.lit "hasChild"))
           (DL.OWLObjectSomeValuesFrom (DL.OWLObjectProperty (DL.lit "hasSibling"))
              (DL.OWLObjectComplementOf (DL.OWLClass (DL.lit "Male"))))).
Proof.
  assert (H1 : Regex.word_name Regex.ascii_only (DL.lit "hasChild")).
  { split; [done|]. repeat constructor. }
  assert (H2 : Regex.word_name Regex.ascii_only (DL.lit "hasSibling")).
  { split; [done|]. repeat constructor. }
  assert (H3 : Regex.word_name Regex.ascii_only (DL.lit "Male")).
  { split; [done|]. repeat constructor. }
  split; [reflexivity|]. split; [exact H1|]. split; [exact H2|]. split; [exact H3|].
  exact (proj1 (transform_nested_universal Regex.ascii_only eq_refl _ _ _ H1 H2 H3)).
Defined.

(** ** Encoding of learning problems: when it succeeds *)

Section EncodeSuccess.
Context {Ind : Type} `{Countable Ind}.
Import KB.
Implicit Types (kb : @KnowledgeBase Ind _ _) (lp : @PosNegLPStandard Ind).

Lemma size_list_to_set_le (l : list Ind) :
  size (list_to_set l : gset Ind) ≤ length l.
Proof.
  induction l as [|x l IH].
  - rewrite list_to_set_nil, size_empty. done.
  - rewrite list_to_set_cons. cbn [length].
    destruct (decide (x ∈ (list_to_set l : gset Ind))) as [Hin|Hin].
    + rewrite (subseteq_union_1_L {[x]} (list_to_set l))
        by (by apply singleton_subseteq_l).
      lia.
    + rewrite size_union by (by apply disjoint_singleton_l).
      rewrite size_singleton. lia.
Qed.

Lemma size_list_to_set_NoDup (l : list Ind) :
  size (list_to_set l : gset Ind) = length l ↔ NoDup l.
Proof.
  split; [|apply size_list_to_set].
  induction l as [|x l IH]; [constructor|].
  rewrite list_to_set_cons. cbn [length].
  intros Hsz. pose proof (size_list_to_set_le l) as Hle.
  destruct (decide (x ∈ (list_to_set l : gset Ind))) as [Hin|Hin].
  - rewrite (subseteq_union_1_L {[x]} (list_to_set l)) in Hsz
      by (by apply singleton_subseteq_l).
    lia.
  - rewrite size_union, size_singleton in Hsz by (by apply disjoint_singleton_l).
    apply NoDup_cons. split; [|apply IH; lia].
    intros Hx. apply Hin. by apply elem_of_list_to_set.
Qed.

(** X14. When the encoding of a learning problem succeeds, and what it
    raises otherwise.  The call returns exactly when the class hierarchy
    is not empty, there is at least one positive example, positives and
    negatives are each fewer than the individuals of the universe, and
    neither list of examples names an individual twice; whether the
    examples belong to the universe plays no part.  In every other case
    the call raises [AssertionError]; in particular the sampling of
    negatives never fails. *)
Theorem encode_learning_problem_succeeds_iff kb lp rnd :
  (returns (encode_learning_problem kb lp rnd)
   ↔ 0 < class_hierarchy_len kb
     ∧ 0 < length (pos lp) < size (universe kb lp)
     ∧ length (neg lp) < size (universe kb lp)
     ∧ NoDup (pos lp) ∧ NoDup (neg lp))
  ∧ (∀ e, encode_learning_problem kb lp rnd = Raise e → e = AssertionError).
Proof.
  unfold encode_learning_problem, returns.
  destruct (Nat.ltb_spec 0 (class_hierarchy_len kb)) as [H0|H0]; simpl;
    [|split; [split; [intros [? ?]; done|lia]|by intros e [= <-]]].
  destruct (Nat.ltb_spec 0 (length (pos lp))) as [H1|H1]; simpl;
    [|split; [split; [intros [? ?]; done|lia]|by intros e [= <-]]].
  destruct (Nat.ltb_spec (length (pos lp)) (size (universe kb lp))) as [H2|H2];
    simpl; [|split; [split; [intros [? ?]; done|lia]|by intros e [= <-]]].
  destruct (Nat.ltb_spec (length (neg lp)) (size (universe kb lp))) as [H3|H3];
    simpl; [|split; [split; [intros [? ?]; done|lia]|by intros e [= <-]]].
  pose proof (size_list_to_set_le (pos lp)) as Hple.
  pose proof (size_list_to_set_NoDup (pos lp)) as Hpnd.
  destruct (neg lp) as [|n ns] eqn:En; simpl.
  - unfold random_sample.
    destruct (Nat.leb_spec (size (individuals_set (pos lp)))
                (length (elements (universe kb lp)))) as [Hle|Hgt]; simpl.
    2:{ exfalso. unfold individuals_set in Hgt.
        change (length (elements (universe kb lp)))
          with (size (universe kb lp)) in Hgt. lia. }
    unfold individuals_set.
    destruct (Nat.eqb_spec (size (list_to_set (pos lp) : gset Ind)) (length (pos lp)))
      as [He|He]; simpl.
    + split; [|done]. split; [|by eexists].
      intros _. split_and!; try done; try lia; [by apply Hpnd|constructor].
    + split; [|by intros e [= <-]]. split; [intros [? ?]; done|].
      intros (_ & _ & _ & Hnd & _). exfalso. by apply He, Hpnd.
  - unfold individuals_set.
    pose proof (size_list_to_set_NoDup (n :: ns)) as Hnnd.
    destruct (Nat.eqb_spec (size (list_to_set (pos lp) : gset Ind)) (length (pos lp)))
      as [He|He]; simpl.
    + destruct (Nat.eqb_spec (size (list_to_set (n :: ns) : gset Ind))
                  (length (n :: ns))) as [He'|He'].
      * simpl in He'. simpl.
        destruct (Nat.eqb_spec (size ({[n]} ∪ list_to_set ns : gset Ind))
                    (S (length ns))) as [_|Hf]; [|done]. simpl.
        split; [|done]. split; [|by eexists].
        intros _. split_and!; try done; try lia; [by apply Hpnd|by apply Hnnd].
      * simpl in He'. simpl.
        destruct (Nat.eqb_spec (size ({[n]} ∪ list_to_set ns : gset Ind))
                    (S (length ns))) as [Hf|_]; [done|]. simpl.
        split; [|by intros e [= <-]]. split; [intros [? ?]; done|].
        intros (_ & _ & _ & _ & Hnd). exfalso. apply He'. by apply Hnnd in Hnd.
    + split; [|by intros e [= <-]]. split; [intros [? ?]; done|].
      intros (_ & _ & _ & Hnd & _). exfalso. by apply He, Hpnd.
Qed.
End EncodeSuccess.

(** ** More on the F1 score (ontolearn/utils/static_funcs.py) *)
Section F1MoreFacts.
Context {Ind : Type} `{Countable Ind}.
Import StaticFuncs.
Implicit Types (individuals pos neg : @py_set Ind _ _).

Lemma size_intersection_difference (X Y : gset Ind) :
  size (X ∩ Y) + size (X ∖ Y) = size X.
Proof.
  rewrite <- size_union.
  2:{ intros x. rewrite elem_of_intersection, elem_of_difference. tauto. }
  f_equal. apply set_eq. intros x.
  rewrite elem_of_union, elem_of_intersection, elem_of_difference.
  destruct (decide (x ∈ Y)); intuition.
Qed.

Lemma inject_nat_pos (n : nat) : n ≠ 0%nat → (0 < inject_Z (Z.of_nat n))%Q.
Proof. intros Hn. change 0%Q with (inject_Z 0). rewrite <- Zlt_Qlt. lia. Qed.

(** The harmonic mean of [a/b] and [a/c] doubled is [2a / (b + c)]. *)
Lemma f1_closed_form (a b c : Q) :
  (0 < a)%Q → (0 < b)%Q → (0 < c)%Q →
  (2 * ((a / b * (a / c)) / (a / b + a / c)) == 2 * a / (b + c))%Q.
Proof.
  intros Ha Hb Hc.
  assert (Hbc : (0 < b + c)%Q).
  { rewrite <- (Qplus_0_l 0). apply Qplus_lt_le_compat; [done|by apply Qlt_le_weak]. }
  assert (¬ (a == 0)%Q) by (intros E; rewrite E in Ha; by apply Qlt_irrefl in Ha).
  assert (¬ (b == 0)%Q) by (intros E; rewrite E in Hb; by apply Qlt_irrefl in Hb).
  assert (¬ (c == 0)%Q) by (intros E; rewrite E in Hc; by apply Qlt_irrefl in Hc).
  assert (¬ (b + c == 0)%Q) by (intros E; rewrite E in Hbc; by apply Qlt_irrefl in Hbc).
  assert (Hs : (0 < a * c + a * b)%Q).
  { rewrite <- (Qplus_0_l 0).
    apply Qplus_lt_le_compat; [|apply Qlt_le_weak];
      rewrite <- (Qmult_0_l 0); by apply Qmult_lt_compat_nonneg. }
  field. split_and!; try done.
  intros E. rewrite E in Hs. by apply Qlt_irrefl in Hs.
Qed.

(** X15.  [compute_tp_fn_fp_tn] splits the examples: true positives and
    false negatives together are the positive examples, false positives
    and true negatives together the negative ones, whatever the set of
    individuals is. *)
Theorem compute_tp_fn_fp_tn_partitions individuals pos neg :
  let '(tp, fn, fp, tn) := compute_tp_fn_fp_tn individuals pos neg in
  tp + fn = size (elems pos) ∧ fp + tn = size (elems neg).
Proof.
  unfold compute_tp_fn_fp_tn. split; apply size_intersection_difference.
Qed.

(** X16.  For three sets of one container type [compute_f1_score] returns
    a score between 0 and 1, computed on exact quotients; the score is 1
    exactly when there is a positive example, every positive example is
    among the individuals and no negative example is. *)
Theorem compute_f1_score_range individuals pos neg :
  type_of individuals = type_of pos → type_of pos = type_of neg →
  ∃ q, compute_f1_score individuals pos neg = Ret q
       ∧ (0 <= q <= 1)%Q
       ∧ ((q == 1)%Q ↔ elems pos ≠ ∅
                        ∧ elems pos ⊆ elems individuals
                        ∧ elems neg ## elems individuals).
Proof.
  intros Ht1 Ht2.
  pose proof (size_intersection_difference (elems pos) (elems individuals)) as Hp.
  pose proof (size_intersection_difference (elems neg) (elems individuals)) as Hn.
  destruct (decide (size (elems pos ∩ elems individuals) = 0%nat)) as [Htp|Htp].
  - exists 0%Q. split; [by apply compute_f1_score_no_true_positive|].
    split; [done|]. split; [done|].
    intros (Hne & Hsub & _). exfalso. apply Hne.
    apply size_empty_inv in Htp. apply leibniz_equiv.
    intros x. split; [|by rewrite elem_of_empty].
    intros Hx. apply (Htp x). apply elem_of_intersection. split; [done|by apply Hsub].
  - unfold compute_f1_score. rewrite !bool_decide_eq_true_2 by done. simpl.
    set (tp := size (elems pos ∩ elems individuals)) in *.
    set (fn := size (elems pos ∖ elems individuals)) in *.
    set (fp := size (elems neg ∩ elems individuals)) in *.
    rewrite !true_div_pos by lia. simpl.
    rewrite !Qeq_bool_zero_num.
    destruct (Z.eqb_spec (Z.of_nat tp) 0) as [?|_]; [lia|]. simpl.
    eexists; split; [reflexivity|].
    set (N := Z.of_nat (2 * tp)). set (D := Z.of_nat (2 * tp + fp + fn)).
    assert (HD : (0 < inject_Z D)%Q) by (apply inject_nat_pos; lia).
    assert (HD0 : ¬ (inject_Z D == 0)%Q)
      by (intros E; rewrite E in HD; by apply Qlt_irrefl in HD).
    assert (Hq : (2 * ((Z.of_nat tp # Pos.of_nat (tp + fp)) *
                       (Z.of_nat tp # Pos.of_nat (tp + fn)) /
                       ((Z.of_nat tp # Pos.of_nat (tp + fp)) +
                        (Z.of_nat tp # Pos.of_nat (tp + fn))))
                == inject_Z N / inject_Z D)%Q).
    { rewrite !true_div_value by lia.
      rewrite f1_closed_form by (apply inject_nat_pos; lia).
      unfold N, D. rewrite <- !inject_Z_plus.
      change 2%Q with (inject_Z 2). rewrite <- inject_Z_mult.
      replace (2 * Z.of_nat tp)%Z with (Z.of_nat (2 * tp)) by lia.
      replace (Z.of_nat (tp + fp) + Z.of_nat (tp + fn))%Z
        with (Z.of_nat (2 * tp + fp + fn)) by lia.
      reflexivity. }
    rewrite Hq. split; [split|].
    + apply Qle_shift_div_l; [done|]. rewrite Qmult_0_l.
      change 0%Q with (inject_Z 0). rewrite <- Zle_Qle. lia.
    + apply Qle_shift_div_r; [done|]. rewrite Qmult_1_l.
      rewrite <- Zle_Qle. lia.
    + assert (Hone : (inject_Z N / inject_Z D == 1)%Q ↔ (fp = 0 ∧ fn = 0)%nat).
      { clear Hq. clearbody tp fp fn. split.
        - intros E.
          assert (E' : (inject_Z N == inject_Z D)%Q).
          { rewrite <- (Qmult_div_r (inject_Z N) (inject_Z D)) by done.
            rewrite E. apply Qmult_1_r. }
          pose proof (proj1 (inject_Z_injective N D) E') as E2. subst N D. lia.

        - intros [-> ->]. subst N D. rewrite !Nat.add_0_r in HD0 |- *.
          unfold Qdiv. by apply Qmult_inv_r. }
      rewrite Hone. unfold fp, fn. rewrite !size_empty_iff.
      split.
      * intros [Hfp Hfn]. split_and!.
        -- intros E. apply Htp. unfold tp. rewrite E.
           apply size_empty_iff. intros x.
           rewrite elem_of_intersection, elem_of_empty. tauto.
        -- intros x Hx. destruct (decide (x ∈ elems individuals)); [done|].
           pose proof (proj1 (Hfn x)) as Hc.
           rewrite elem_of_difference, elem_of_empty in Hc. tauto.
        -- intros x Hx1 Hx2. pose proof (proj1 (Hfp x)) as Hc.
           rewrite elem_of_intersection, elem_of_empty in Hc. tauto.
      * intros (_ & Hsub & Hdis).
        split; intros x; rewrite elem_of_empty; (split; [|done]).
        -- rewrite elem_of_intersection. intros [Hx1 Hx2]. by apply (Hdis x).
        -- rewrite elem_of_difference. intros [Hx1 Hx2]. by apply Hx2, Hsub.
Qed.
End F1MoreFacts.

Lemma compute_f1_score_range_witness :
  ∃ q, StaticFuncs.compute_f1_score (StaticFuncs.frozenset_of [1; 2; 3])
         (StaticFuncs.frozenset_of [1; 2]) (StaticFuncs.frozenset_of [4]) = Ret q
       ∧ (0 <= q <= 1)%Q
       ∧ ((q == 1)%Q ↔
          StaticFuncs.elems (StaticFuncs.frozenset_of [1; 2]) ≠ ∅
          ∧ StaticFuncs.elems (StaticFuncs.frozenset_of [1; 2])
            ⊆ StaticFuncs.elems (StaticFuncs.frozenset_of [1; 2; 3])
          ∧ StaticFuncs.elems (StaticFuncs.frozenset_of [4])
            ## StaticFuncs.elems (StaticFuncs.frozenset_of [1; 2; 3])).
Proof.
  apply (compute_f1_score_range (StaticFuncs.frozenset_of [1; 2; 3])
           (StaticFuncs.frozenset_of [1; 2]) (StaticFuncs.frozenset_of [4]));
    reflexivity.
Defined.

(** ** The comparators of the search nodes (ontolearn/search.py) *)
Section OrderFacts.
Context {Concept : Type}.
Variable concept_lt : Concept → Concept → bool.
Import CELOE SearchOrder.
Implicit Types (a b c : @OENode Concept).

Lemma Qltb_ge x y : Qltb x y = false ↔ (y <= x)%Q.
Proof.
  split.
  - intros E. apply Qnot_lt_le. intros Hc. apply Qltb_lt in Hc. congruence.
  - intros Hle. destruct (Qltb x y) eqn:E; [|done].
    apply Qltb_lt in E. exfalso. by apply (Qlt_not_le x y).
Qed.

Ltac compare_floats :=
  repeat match goal with
    | H : context [Qltb ?x ?y] |- _ =>
        let E := fresh "E" in
        destruct (Qltb x y) eqn:E;
        [apply Qltb_lt in E | apply Qltb_ge in E]
    | |- context [Qltb ?x ?y] =>
        let E := fresh "E" in
        destruct (Qltb x y) eqn:E;
        [apply Qltb_lt in E | apply Qltb_ge in E]
    end.

(** X17.  When the order of the concepts is a strict total order,
    [HeuristicOrderedNode.__lt__] orders the nodes that carry a heuristic
    strictly: no node is below itself, the comparison is transitive, and
    of two nodes with different concepts exactly one is below the other;
    on such nodes nothing is raised. *)
Theorem HeuristicOrderedNode_strict_order :
  strict_total concept_lt →
  (∀ a, is_Some (heuristic a) → HeuristicOrderedNode_lt concept_lt a a = Ret false)
  ∧ (∀ a b c, HeuristicOrderedNode_lt concept_lt a b = Ret true → HeuristicOrderedNode_lt concept_lt b c = Ret true →
              HeuristicOrderedNode_lt concept_lt a c = Ret true)
  ∧ (∀ a b, is_Some (heuristic a) → is_Some (heuristic b) →
            concept a ≠ concept b →
            (HeuristicOrderedNode_lt concept_lt a b = Ret true ∧ HeuristicOrderedNode_lt concept_lt b a = Ret false)
            ∨ (HeuristicOrderedNode_lt concept_lt a b = Ret false ∧ HeuristicOrderedNode_lt concept_lt b a = Ret true)).
Proof.
  intros (Hirr & Htr & Htot). unfold HeuristicOrderedNode_lt. split_and!.
  - intros a [h Hh]. rewrite Hh. compare_floats; try lra. by rewrite Hirr.
  - intros a b c.
    destruct (heuristic a) as [ha|], (heuristic b) as [hb|],
      (heuristic c) as [hc|]; try done.
    intros Hab Hbc. compare_floats; try done; try lra.
    injection Hab as Hab. injection Hbc as Hbc. f_equal. by apply (Htr _ (concept b)).
  - intros a b [ha Ha] [hb Hb] Hne. rewrite Ha, Hb.
    compare_floats; try lra; try (by left); try (by right).
    destruct (concept_lt (concept a) (concept b)) eqn:Eab,
      (concept_lt (concept b) (concept a)) eqn:Eba.
    + pose proof (Htr _ _ _ Eab Eba) as Hc. rewrite Hirr in Hc. done.
    + by left.
    + by right.
    + destruct (Htot _ _ Hne); congruence.
Qed.

(** X18.  When the order of the concepts is a strict total order,
    [QualityOrderedNode.__lt__] orders the evaluated nodes strictly (no
    node is below itself, the comparison is transitive, two nodes with
    different concepts are ordered one way exactly), and a node of lower
    quality is below a node of higher quality, whatever their lengths. *)
Theorem QualityOrderedNode_strict_order :
  strict_total concept_lt →
  (∀ a, is_Some (quality a) → QualityOrderedNode_lt concept_lt a a = Ret false)
  ∧ (∀ a b c, QualityOrderedNode_lt concept_lt a b = Ret true → QualityOrderedNode_lt concept_lt b c = Ret true →
              QualityOrderedNode_lt concept_lt a c = Ret true)
  ∧ (∀ a b, is_Some (quality a) → is_Some (quality b) →
            concept a ≠ concept b →
            (QualityOrderedNode_lt concept_lt a b = Ret true ∧ QualityOrderedNode_lt concept_lt b a = Ret false)
            ∨ (QualityOrderedNode_lt concept_lt a b = Ret false ∧ QualityOrderedNode_lt concept_lt b a = Ret true))
  ∧ (∀ a b qa qb, quality a = Some qa → quality b = Some qb → (qa < qb)%Q →
                  QualityOrderedNode_lt concept_lt a b = Ret true).
Proof.
  intros (Hirr & Htr & Htot). unfold QualityOrderedNode_lt. split_and!.
  - intros a [q Hq]. rewrite Hq. compare_floats; try lra.
    rewrite Nat.ltb_irrefl. by rewrite Hirr.
  - intros a b c.
    destruct (quality a) as [qa|], (quality b) as [qb|],
      (quality c) as [qc|]; try done.
    intros Hab Hbc. compare_floats; try done; try lra.
    destruct (Nat.ltb_spec (len b) (len a)), (Nat.ltb_spec (len a) (len b)),
      (Nat.ltb_spec (len c) (len b)), (Nat.ltb_spec (len b) (len c)),
      (Nat.ltb_spec (len c) (len a)), (Nat.ltb_spec (len a) (len c));
      try done; try lia.
    injection Hab as Hab. injection Hbc as Hbc. f_equal. by apply (Htr _ (concept b)).
  - intros a b [qa Ha] [qb Hb] Hne. rewrite Ha, Hb.
    compare_floats; try lra; try (by left); try (by right).
    destruct (Nat.ltb_spec (len b) (len a)), (Nat.ltb_spec (len a) (len b));
      try lia; try (by left); try (by right).
    destruct (concept_lt (concept a) (concept b)) eqn:Eab,
      (concept_lt (concept b) (concept a)) eqn:Eba.
    + pose proof (Htr _ _ _ Eab Eba) as Hc. rewrite Hirr in Hc. done.
    + by left.
    + by right.
    + destruct (Htot _ _ Hne); congruence.
  - intros a b qa qb -> -> Hlt. apply Qltb_lt in Hlt. by rewrite Hlt.
Qed.

(** ** The counters of horizontal expansions (ontolearn/concept_learner.py) *)
Variable node_eq : @OENode Concept → @OENode Concept → bool.

Lemma other_minimal_outcome min_he threshold node nodes :
  (∀ e, other_minimal node_eq min_he threshold node nodes = Raise e → e = TypeError)
  ∧ (Forall (λ n, is_Some (heuristic n)) nodes →
     returns (other_minimal node_eq min_he threshold node nodes)).
Proof.
  induction nodes as [|n rest [IHe IHr]]; simpl.
  - split; [done|]. intros _. by eexists.
  - destruct (node_eq n node).
    { split; [done|]. intros Hall. apply IHr. by inversion Hall. }
    destruct (Z.of_nat (h_exp n) =? min_he)%Z.
    { split; [done|]. intros _. by eexists. }
    destruct (heuristic n) as [h|] eqn:Eh; simpl.
    + destruct (Qltb h threshold).
      * split; [done|]. intros _. by eexists.
      * split; [done|]. intros Hall. apply IHr. by inversion Hall.
    + split; [by intros e [= <-]|].
      intros Hall. inversion Hall as [|? ? [? Hs] ?]; subst. congruence.
Qed.

(** X19.  [CELOE.update_min_max_horiz_exp] keeps its two counters in
    step: [max_he] becomes the larger of its old value and the horizontal
    expansion of the node, also when the call raises; [min_he] stays or
    grows by one, and grows only when it was one less than the horizontal
    expansion of the node; so [min_he <= max_he] is kept.  The call
    returns when the node and the queued nodes are scored, and raises
    nothing but [TypeError]. *)
Theorem update_min_max_horiz_exp_bounds self heuristic_queue node :
  let '(self', r) := update_min_max_horiz_exp node_eq self heuristic_queue node in
  max_he self' = Z.max (max_he self) (Z.of_nat (h_exp node))
  ∧ (min_he self ≤ min_he self' ≤ min_he self + 1)%Z
  ∧ (min_he self' ≠ min_he self →
     min_he self = (Z.of_nat (h_exp node) - 1)%Z ∧ r = Ret tt)
  ∧ ((min_he self ≤ max_he self)%Z → (min_he self' ≤ max_he self')%Z)
  ∧ (scored node → Forall (λ n, is_Some (heuristic n)) heuristic_queue →
     r = Ret tt)
  ∧ (∀ e, r = Raise e → e = TypeError).
Proof.
  unfold update_min_max_horiz_exp. simpl.
  destruct (Z.eqb_spec (min_he self) (Z.of_nat (h_exp node) - 1)) as [Hm|Hm].
  2:{ simpl. split_and!; try done; lia. }
  unfold threshold_score, scored.
  destruct (heuristic node) as [h|] eqn:Eh.
  2:{ simpl. split_and!; try done; try lia.
      - intros [_ [? ?]]. congruence.
      - by intros e [= <-]. }
  destruct (quality node) as [q|] eqn:Eq.
  2:{ simpl. split_and!; try done; try lia.
      - intros [[? ?] _]. congruence.
      - by intros e [= <-]. }
  destruct (other_minimal_outcome (min_he self) (h + 1 - q)%Q node
              (rev heuristic_queue)) as [He Hr].
  destruct (other_minimal node_eq (min_he self) (h + 1 - q)%Q node
              (rev heuristic_queue)) as [[|]|e] eqn:Eo; simpl.
  - split_and!; try done; lia.
  - split_and!; try done; lia.
  - split_and!; try done; try lia.
    + intros _ Hall. destruct Hr as [? ?]; [|done].
      apply Forall_forall. intros n Hn. apply list_elem_of_In, in_rev in Hn.
      rewrite Forall_forall in Hall. apply Hall. by apply list_elem_of_In.
    + intros e' [= <-]. by apply He.
Qed.
End OrderFacts.

Lemma example_concept_lt_strict_total :
  SearchOrder.strict_total SearchOrder.example_concept_lt.
Proof.
  unfold SearchOrder.strict_total, SearchOrder.example_concept_lt. split_and!.
  - intros a. apply Nat.ltb_irrefl.
  - intros a b c Hab%Nat.ltb_lt Hbc%Nat.ltb_lt. apply Nat.ltb_lt. lia.
  - intros a b Hne. rewrite !Nat.ltb_lt. lia.
Defined.

Lemma HeuristicOrderedNode_strict_order_witness :
  (∀ a, is_Some (CELOE.heuristic a) →
        CELOE.HeuristicOrderedNode_lt SearchOrder.example_concept_lt a a = Ret false)
  ∧ (∀ a b c,
       CELOE.HeuristicOrderedNode_lt SearchOrder.example_concept_lt a b = Ret true →
       CELOE.HeuristicOrderedNode_lt SearchOrder.example_concept_lt b c = Ret true →
       CELOE.HeuristicOrderedNode_lt SearchOrder.example_concept_lt a c = Ret true)
  ∧ (∀ a b, is_Some (CELOE.heuristic a) → is_Some (CELOE.heuristic b) →
       CELOE.concept a ≠ CELOE.concept b →
       (CELOE.HeuristicOrderedNode_lt SearchOrder.example_concept_lt a b = Ret true
        ∧ CELOE.HeuristicOrderedNode_lt SearchOrder.example_concept_lt b a = Ret false)
       ∨ (CELOE.HeuristicOrderedNode_lt SearchOrder.example_concept_lt a b = Ret false
          ∧ CELOE.HeuristicOrderedNode_lt SearchOrder.example_concept_lt b a = Ret true)).
Proof.
  apply (HeuristicOrderedNode_strict_order SearchOrder.example_concept_lt).
  exact example_concept_lt_strict_total.
Defined.

Lemma QualityOrderedNode_strict_order_witness :
  (∀ a b qa qb, CELOE.quality a = Some qa → CELOE.quality b = Some qb →
     (qa < qb)%Q →
     SearchOrder.QualityOrderedNode_lt SearchOrder.example_concept_lt a b = Ret true)
  ∧ SearchOrder.QualityOrderedNode_lt SearchOrder.example_concept_lt
      (CELOE.mkOENode 1%nat 5 (Some (1 # 2)%Q) None 5 0)
      (CELOE.mkOENode 2%nat 3 (Some (1 # 2)%Q) None 3 0) = Ret true.
Proof.
  pose proof (QualityOrderedNode_strict_order SearchOrder.example_concept_lt
                example_concept_lt_strict_total) as (_ & _ & _ & Hq).
  split; [exact Hq|reflexivity].
Defined.

(** ** The training loop of Drill (ontolearn/concept_learner.py) *)
Section DrillTrainingFacts.
Import DrillTraining.

Lemma fold_max_spec (rest : list Q) (x : Q) :
  let q := fold_left (λ m y, if Qltb m y then y else m) rest x in
  (q = x ∨ q ∈ rest) ∧ (x <= q)%Q ∧ ∀ y, y ∈ rest → (y <= q)%Q.
Proof.
  revert x. induction rest as [|y rest IH]; intros x; simpl.
  - split_and!; [by left|apply Qle_refl|]. intros y Hy. by apply elem_of_nil in Hy.
  - destruct (Qltb x y) eqn:E.
    + apply Qltb_lt in E. destruct (IH y) as (Hin & Hle & Hall). split_and!.
      * right. destruct Hin as [->|Hin]; [by left|by right].
      * apply Qlt_le_weak. by apply (Qlt_le_trans _ y).
      * intros z [->|Hz]%elem_of_cons; [done|by apply Hall].
    + apply Qltb_ge in E. destruct (IH x) as (Hin & Hle & Hall). split_and!.
      * destruct Hin as [->|Hin]; [by left|right; by right].
      * done.
      * intros z [->|Hz]%elem_of_cons; [by apply (Qle_trans _ x)|by apply Hall].
Qed.

Lemma py_max_spec (l : list Q) (q : Q) :
  py_max l = Ret q → q ∈ l ∧ ∀ x, x ∈ l → (x <= q)%Q.
Proof.
  destruct l as [|x rest]; [done|]. simpl. intros [= <-].
  destruct (fold_max_spec rest x) as (Hin & Hle & Hall). split.
  - destruct Hin as [->|Hin]; [by left|by right].
  - intros y [->|Hy]%elem_of_cons; [done|by apply Hall].
Qed.

Lemma py_max_returns (l : list Q) : l ≠ [] → returns (py_max l).
Proof. destruct l; [done|]. intros _. by eexists. Qed.

Lemma elem_of_drop_lookup {A : Type} (l : list A) (k : nat) (x : A) :
  x ∈ drop k l ↔ ∃ j, k ≤ j ∧ l !! j = Some x.
Proof.
  rewrite list_elem_of_lookup. split.
  - intros [i Hi]. rewrite lookup_drop in Hi. exists (k + i). split; [lia|done].
  - intros (j & Hj & Hl). exists (j - k). rewrite lookup_drop.
    by replace (k + (j - k)) with j by lia.
Qed.

Section Experiences.
Context {State : Type}.
Implicit Types (state_pairs : list (State * State)) (rewards : list Q).

Lemma form_from_spec state_pairs rewards th appended :
  ∃ new r,
    form_from th state_pairs rewards appended = (appended ++ new, r)
    ∧ List.length new = min (List.length state_pairs) (List.length rewards - th)
    ∧ (r = Ret tt ↔ state_pairs = [] ∨ th + List.length state_pairs ≤ List.length rewards)
    ∧ (∀ e, r = Raise e → ∃ msg, e = ValueError msg)
    ∧ ∀ i e e' q, new !! i = Some (e, e', q) →
        state_pairs !! i = Some (e, e')
        ∧ (∀ j x, th + i ≤ j → rewards !! j = Some x → (x <= q)%Q)
        ∧ ∃ j, th + i ≤ j ∧ rewards !! j = Some q.
Proof.
  revert th appended.
  induction state_pairs as [|[e e_next] rest IH]; intros th appended;
    cbn [form_from].
  - exists [], (Ret tt). rewrite app_nil_r. split_and!; try done.
    split; [by left|done].
  - destruct (py_max (drop th rewards)) as [q|ex] eqn:Em.
    + apply py_max_spec in Em as [Hin Hall].
      assert (Hlt : th < List.length rewards).
      { apply elem_of_drop_lookup in Hin as (j & Hj & Hl).
        apply lookup_lt_Some in Hl. lia. }
      destruct (IH (S th) (appended ++ [(e, e_next, q)]))
        as (new & r & Hf & Hlen & Hr & He & Hnew).
      exists ((e, e_next, q) :: new), r. rewrite Hf, <- app_assoc.
      cbn [app List.length]. split_and!; try done.
      * rewrite Hlen. lia.
      * rewrite Hr. split.
        -- intros [->|Hle]; right; cbn [List.length]; lia.
        -- intros [?|Hle]; [done|]. right. lia.
      * intros [|i] e0 e0' q0 Hi; simpl in Hi.
        -- injection Hi as <- <- <-. split_and!; [done| |].
           ++ intros j x Hj Hx. apply Hall. apply elem_of_drop_lookup.
              exists j. split; [lia|done].
           ++ apply elem_of_drop_lookup in Hin as (j & Hj & Hl).
              exists j. split; [lia|done].
        -- destruct (Hnew i e0 e0' q0 Hi) as (Hs & Hmax & j & Hj & Hl).
           split_and!; [done| |].
           ++ intros j' x Hj' Hx. apply (Hmax j'); [lia|done].
           ++ exists j. split; [lia|done].
    + assert (Hge : List.length rewards ≤ th).
      { destruct (decide (List.length rewards ≤ th)) as [|Hn]; [done|].
        destruct (py_max_returns (drop th rewards)) as [? ?]; [|congruence].
        intros Hd. apply (f_equal (@List.length Q)) in Hd. rewrite length_drop in Hd.
        simpl in Hd. lia. }
      exists [], (Raise ex). rewrite app_nil_r. cbn [List.length].
      split_and!; try done.
      * lia.
      * split; [done|]. intros [?|Hle]; [done|]. lia.
      * intros e0 [= <-]. destruct (drop th rewards); [|done].
        simpl in Em. injection Em as <-. by eexists.
Qed.

(** X20.  [Drill.form_experiences] appends one experience for each state
    pair that has a reward at its index, in order; the value stored with
    the pair at index [i] is the greatest of the rewards from index [i]
    on.  The call returns when there are at least as many rewards as
    state pairs; otherwise it raises [ValueError] after it has appended
    the experiences that have a reward. *)
Theorem form_experiences_suffix_maxima state_pairs rewards :
  let '(appended, r) := form_experiences state_pairs rewards in
  List.length appended = min (List.length state_pairs) (List.length rewards)
  ∧ (r = Ret tt ↔ List.length state_pairs ≤ List.length rewards)
  ∧ (∀ e, r = Raise e → ∃ msg, e = ValueError msg)
  ∧ ∀ i e e' q, appended !! i = Some (e, e', q) →
      state_pairs !! i = Some (e, e')
      ∧ (∀ j x, i ≤ j → rewards !! j = Some x → (x <= q)%Q)
      ∧ ∃ j, i ≤ j ∧ rewards !! j = Some q.
Proof.
  unfold form_experiences.
  destruct (form_from_spec state_pairs rewards 0 [])
    as (new & r & -> & Hlen & Hr & He & Hnew).
  simpl. split_and!; try done.
  - rewrite Hlen. lia.
  - rewrite Hr. split.
    + intros [->|Hle]; simpl; lia.
    + intros Hle. right. lia.
Qed.
End Experiences.

Section Actions.
Context {Concept : Type}.
Variable apply_rho : @RL_State Concept → res (list (@RL_State Concept)).
Variable exploration_exploitation_tradeoff :
  @RL_State Concept → list (@RL_State Concept) → res (@RL_State Concept).
Variable print_state : @RL_State Concept → res unit.

(** The loop ends in its first iteration: it leaves the local variables
    as they are, raises, or exits with the status 1; the reward function
    and the instances of the states are never consulted. *)
Lemma actions_first_iteration reward_func_apply len_instances self left l :
  (actions apply_rho exploration_exploitation_tradeoff reward_func_apply
     len_instances print_state self left l = Returns l
   ∨ (∃ e, actions apply_rho exploration_exploitation_tradeoff reward_func_apply
             len_instances print_state self left l = Raises e)
   ∨ actions apply_rho exploration_exploitation_tradeoff reward_func_apply
       len_instances print_state self left l = SystemExit 1)
  ∧ ∀ reward' len',
      actions apply_rho exploration_exploitation_tradeoff reward'
        len' print_state self left l
      = actions apply_rho exploration_exploitation_tradeoff reward_func_apply
          len_instances print_state self left l.
Proof.
  destruct left as [|left']; simpl; [split; [by left|done]|].
  destruct (apply_rho (current_state l)) as [next|e]; simpl;
    [|split; [right; left; by eexists|done]].
  destruct (List.length next =? 0)%nat.
  - destruct (may_grow self (current_state l)) as [[|]|e]; simpl.
    + split; [by left|done].
    + split; [right; left; by eexists|done].
    + split; [right; left; by eexists|done].
  - destruct (exploration_exploitation_tradeoff (current_state l) next)
      as [s|e]; simpl; [|split; [right; left; by eexists|done]].
    destruct (print_state (current_state l)) as [[]|e]; simpl;
      [|split; [right; left; by eexists|done]].
    destruct (print_state s) as [[]|e]; simpl;
      [|split; [right; left; by eexists|done]].
    split; [by right; right|done].
Qed.

(** X21.  [Drill.sequence_of_actions] never returns a path: every call
    ends with an exception or with [SystemExit] of status 1, and the
    outcome does not depend on the reward function nor on the instances
    of the states, which are never consulted. *)
Theorem sequence_of_actions_never_returns reward_func_apply len_instances
    self root_rl_state :
  (∀ v, sequence_of_actions apply_rho exploration_exploitation_tradeoff
          reward_func_apply len_instances print_state self root_rl_state
        ≠ Returns v)
  ∧ (∀ code, sequence_of_actions apply_rho exploration_exploitation_tradeoff
               reward_func_apply len_instances print_state self root_rl_state
             = SystemExit code → code = 1%Z)
  ∧ (∀ reward' len',
       sequence_of_actions apply_rho exploration_exploitation_tradeoff
         reward' len' print_state self root_rl_state
       = sequence_of_actions apply_rho exploration_exploitation_tradeoff
           reward_func_apply len_instances print_state self root_rl_state).
Proof.
  unfold sequence_of_actions.
  destruct (has_embeddings root_rl_state) as [[|]|e]; simpl; try done.
  destruct (has_quality root_rl_state) as [[|]|e]; simpl; try done.
  destruct (bool_decide (heuristic root_rl_state = None)); simpl; try done.
  destruct (py_range (num_of_sequential_actions self)) as [n|e]; simpl; try done.
  match goal with
  | |- context [actions _ _ _ _ _ self n ?l] =>
      destruct (actions_first_iteration reward_func_apply len_instances self n l)
        as [Hend Hind]
  end.
  split_and!.
  - intros v. destruct Hend as [->|[[e ->]| ->]]; done.
  - intros code. destruct Hend as [->|[[e ->]| ->]]; simpl; congruence.
  - intros reward' len'. by rewrite Hind.
Qed.
End Actions.
End DrillTrainingFacts.

(** ** Axioms and class hierarchy read from the store
    (ontolearn/triple_store.py) *)
Section TripleStoreReasoningFacts.
Import TripleStore TripleStoreReasoning.

(** What is fetched as [OWLClass] objects holds such objects only. *)
Lemma fetched_classes post :
  ∃ args e,
    send_http_request_to_ts_and_fetch_results post "OWLClass"
    = (Instance "OWLClass" <$> args, e).
Proof.
  unfold send_http_request_to_ts_and_fetch_results.
  destruct post as [resp|ex].
  - change (String.eqb "OWLClass" "OWLLiteral") with false. cbv iota.
    destruct (unwrap resp) as [items [e|]].
    + by exists [], (Some (reraise_json e)).
    + by exists (filter (λ i, is_not_None i = true) items), None.
  - destruct ex; eexists [], _; reflexivity.
Qed.

(** X22.  The three generators of domain and range axioms never yield the
    axiom with [OWLThing] that their code provides for a property without
    a declared domain or range: when the store returns no class for the
    property they raise [TypeError] and yield nothing; otherwise they
    yield one axiom for each class fetched, in order, and end as the
    request ended. *)
Theorem domain_and_range_axioms_without_default post iri :
  let without_default (mk : py_obj → axiom) (fetched : trace) : axioms :=
    match fetched with
    | ([], None) => ([], Some TypeError)
    | (classes, e) => (mk <$> classes, e)
    end in
  let fetched := send_http_request_to_ts_and_fetch_results post "OWLClass" in
  data_property_domain_axioms post (OWLDataProperty iri)
  = without_default (OWLDataPropertyDomainAxiom (OWLDataProperty iri)) fetched
  ∧ object_property_domain_axioms post (OWLObjectProperty iri)
    = without_default (OWLObjectPropertyDomainAxiom (OWLObjectProperty iri)) fetched
  ∧ object_property_range_axioms post (OWLObjectProperty iri)
    = without_default (OWLObjectPropertyRangeAxiom (OWLObjectProperty iri)) fetched.
Proof.
  unfold data_property_domain_axioms, object_property_domain_axioms,
    object_property_range_axioms, get_property_domains.
  destruct (fetched_classes post) as (args & e & ->).
  destruct args as [|a args]; simpl.
  - destruct e; by split_and!.
  - by split_and!.
Qed.

Lemma elem_of_list_remove x c l : x ∈ list_remove c l → x ∈ l.
Proof.
  induction l as [|y l IH]; simpl; [done|].
  destruct (bool_decide (y = c)).
  - intros Hx. by right.
  - intros [->|Hx]%elem_of_cons; [by left|]. right. by apply IH.
Qed.

Lemma elem_of_list_remove_ne x c l : x ≠ c → x ∈ l → x ∈ list_remove c l.
Proof.
  intros Hne. induction l as [|y l IH]; simpl; [done|].
  intros [->|Hx]%elem_of_cons.
  - rewrite bool_decide_eq_false_2 by done. by left.
  - destruct (bool_decide (y = c)); [done|]. right. by apply IH.
Qed.

Lemma occurrences_cons x y l :
  occurrences x (y :: l) = (if bool_decide (y = x) then 1 else 0) + occurrences x l.
Proof.
  unfold occurrences. rewrite filter_cons.
  destruct (decide (y = x)) as [Heq|Hne].
  - by rewrite bool_decide_eq_true_2.
  - by rewrite bool_decide_eq_false_2.
Qed.

Lemma occurrences_list_remove c l :
  occurrences c (list_remove c l) = occurrences c l - 1.
Proof.
  induction l as [|y l IH]; simpl; [done|].
  rewrite occurrences_cons. destruct (bool_decide (y = c)) eqn:E.
  - simpl. lia.
  - rewrite occurrences_cons, E, IH. done.
Qed.

Lemma occurrences_list_remove_ne x c l :
  x ≠ c → occurrences x (list_remove c l) = occurrences x l.
Proof.
  intros Hne. induction l as [|y l IH]; simpl; [done|].
  rewrite occurrences_cons. destruct (bool_decide (y = c)) eqn:E.
  - apply bool_decide_eq_true in E as ->.
    by rewrite bool_decide_eq_false_2 by done.
  - by rewrite occurrences_cons, IH.
Qed.

Lemma occurrences_pos x l : x ∈ l ↔ 0 < occurrences x l.
Proof.
  induction l as [|y l IH].
  - split; [by intros ?%elem_of_nil|unfold occurrences; simpl; lia].
  - rewrite occurrences_cons, elem_of_cons, IH.
    destruct (decide (y = x)) as [->|Hne].
    + rewrite bool_decide_eq_true_2 by done. split; [lia|by left].
    + rewrite bool_decide_eq_false_2 by done.
      split; [intros [?|?]; [congruence|lia]|by right].
Qed.

Lemma occurrences_app x l l' :
  occurrences x (l ++ l') = occurrences x l + occurrences x l'.
Proof. unfold occurrences. by rewrite filter_app, length_app. Qed.

(** X23.  For a named class and a request that succeeds,
    [TripleStoreReasoner.sub_classes] yields every other class as often
    as the store returned it and the class itself once less, so that the
    class is still yielded when the store returns it more than once. *)
Theorem sub_classes_drops_one_occurrence post ce direct results :
  is_OWLClass ce = true →
  send_http_request_to_ts_and_fetch_results post "OWLClass" = (results, None) →
  ∃ items,
    sub_classes post ce direct true = (items, None)
    ∧ (∀ x, x ≠ ce → occurrences x items = occurrences x results)
    ∧ occurrences ce items = occurrences ce results - 1
    ∧ (ce ∈ items ↔ 2 ≤ occurrences ce results).
Proof.
  intros Hc Hf. unfold sub_classes. rewrite Hc, Hf. simpl.
  eexists; split; [reflexivity|].
  destruct (decide (ce ∈ results)) as [Hin|Hnin].
  - rewrite bool_decide_eq_true_2 by done. split_and!.
    + intros x Hx. by apply occurrences_list_remove_ne.
    + apply occurrences_list_remove.
    + rewrite occurrences_pos, occurrences_list_remove. lia.
  - rewrite bool_decide_eq_false_2 by done.
    assert (Hz : occurrences ce results = 0).
    { pose proof (occurrences_pos ce results) as Hp.
      destruct (occurrences ce results); [done|]. exfalso. apply Hnin, Hp. lia. }
    split_and!; [done|lia|]. rewrite Hz. split; [done|lia].
Qed.

(** X24.  For a named class and a request that succeeds,
    [TripleStoreReasoner.super_classes] yields nothing for [OWLThing],
    and for every other class at least one class: the classes fetched,
    the class itself once less, and [OWLThing] at the end when nothing
    else is left or, for the indirect superclasses, when the store did
    not return it. *)
Theorem super_classes_never_empty post ce direct results :
  is_OWLClass ce = true →
  send_http_request_to_ts_and_fetch_results post "OWLClass" = (results, None) →
  ∃ items,
    super_classes post ce direct true = (items, None)
    ∧ (ce = OWLThing → items = [])
    ∧ (ce ≠ OWLThing →
       items ≠ []
       ∧ (direct = false → OWLThing ∈ items)
       ∧ (∀ x, x ∈ items → x ∈ results ∨ x = OWLThing)
       ∧ (∀ x, x ≠ ce → x ∈ results → x ∈ items)
       ∧ occurrences ce items = occurrences ce results - 1).
Proof.
  intros Hc Hf. unfold super_classes. rewrite Hc. simpl.
  destruct (decide (ce = OWLThing)) as [Ht|Ht].
  { rewrite bool_decide_eq_true_2 by done. by exists []. }
  rewrite bool_decide_eq_false_2 by done. rewrite Hf.
  eexists; split; [reflexivity|]. split; [done|]. intros _.
  set (kept := if bool_decide (ce ∈ results) then list_remove ce results
               else results).
  assert (Hsub : ∀ x, x ∈ kept → x ∈ results).
  { intros x. unfold kept. destruct (bool_decide (ce ∈ results)); [|done].
    apply elem_of_list_remove. }
  assert (Hkeep : ∀ x, x ≠ ce → x ∈ results → x ∈ kept).
  { intros x Hx. unfold kept. destruct (bool_decide (ce ∈ results)); [|done].
    by apply elem_of_list_remove_ne. }
  assert (Hocc : occurrences ce kept = occurrences ce results - 1).
  { unfold kept. destruct (decide (ce ∈ results)) as [Hin|Hnin].
    - rewrite bool_decide_eq_true_2 by done. apply occurrences_list_remove.
    - rewrite bool_decide_eq_false_2 by done.
      pose proof (occurrences_pos ce results) as Hp.
      destruct (occurrences ce results); [done|]. exfalso. apply Hnin, Hp. lia. }
  assert (Hthing : occurrences ce [OWLThing] = 0).
  { rewrite occurrences_cons, bool_decide_eq_false_2 by done. done. }
  destruct (negb direct && negb (bool_decide (OWLThing ∈ kept))
            || (length kept =? 0)%nat) eqn:Ea.
  - split_and!.
    + by intros ?%app_eq_nil%proj2.
    + intros _. apply elem_of_app. right. by left.
    + intros x [Hx|Hx%list_elem_of_singleton]%elem_of_app; [left; by apply Hsub|by right].
    + intros x Hx Hr. apply elem_of_app. left. by apply Hkeep.
    + rewrite occurrences_app, Hthing, Hocc. lia.
  - apply orb_false_iff in Ea as [Ea1 Ea2].
    apply Nat.eqb_neq in Ea2. split_and!.
    + intros E. rewrite E in Ea2. done.
    + intros ->. simpl in Ea1. apply negb_false_iff, bool_decide_eq_true in Ea1. done.
    + intros x Hx. left. by apply Hsub.
    + done.
    + done.
Qed.
End TripleStoreReasoningFacts.

Lemma sub_classes_drops_one_occurrence_witness :
  ∃ items,
    TripleStoreReasoning.sub_classes
      (TripleStoreReasoning.example_answer ["http://ex/A"; "http://ex/B"; "http://ex/A"])
      (TripleStore.Instance "OWLClass" (TripleStore.IRI_create "http://ex/A"))
      false true = (items, None)
    ∧ TripleStore.Instance "OWLClass" (TripleStore.IRI_create "http://ex/A") ∈ items.
Proof.
  destruct (sub_classes_drops_one_occurrence
              (TripleStoreReasoning.example_answer
                 ["http://ex/A"; "http://ex/B"; "http://ex/A"])
              (TripleStore.Instance "OWLClass" (TripleStore.IRI_create "http://ex/A"))
              false _ eq_refl eq_refl) as (items & Hs & _ & _ & Hin).
  exists items. split; [exact Hs|]. apply Hin. vm_compute. lia.
Defined.

Lemma super_classes_never_empty_witness :
  ∃ items,
    TripleStoreReasoning.super_classes
      (TripleStoreReasoning.example_answer ["http://ex/A"; "http://ex/B"])
      (TripleStore.Instance "OWLClass" (TripleStore.IRI_create "http://ex/A"))
      false true = (items, None)
    ∧ TripleStoreReasoning.OWLThing ∈ items.
Proof.
  destruct (super_classes_never_empty
              (TripleStoreReasoning.example_answer ["http://ex/A"; "http://ex/B"])
              (TripleStore.Instance "OWLClass" (TripleStore.IRI_create "http://ex/A"))
              false _ eq_refl eq_refl) as (items & Hs & _ & Hne).
  exists items. split; [exact Hs|].
  destruct Hne as (_ & Hin & _); [discriminate|]. by apply Hin.
Defined.

(** ** The assertions about one individual (ontolearn/triple_store.py) *)
Section ABoxFacts.
Context {Float : Type}.
Variable py_int : string → res Z.
Variable py_float : string → res Float.
Import TripleStoreABox.

Lemma abox_row_boolean subject_ binding p o :
  PyDict.get binding "p" = Some p → PyDict.get binding "o" = Some o →
  TripleStore.b_value p ≠ rdf_type →
  TripleStore.b_type o = "literal" →
  TripleStore.b_datatype o = Some xsd_boolean →
  abox_row py_int py_float subject_ binding
  = (Some (subject_, OWLDataProperty (TripleStore.b_value p),
           OWLLiteral (PyBool (py_bool (TripleStore.b_value o)))), None).
Proof.
  intros Hp Ho Hne Ht Hd. unfold abox_row. rewrite Hp, Ho, Ht, Hd.
  destruct (String.eqb_spec (TripleStore.b_value p) rdf_type); [done|].
  reflexivity.
Qed.

(** X25.  When every row of the answer states a value of a data property
    as an xsd:boolean literal, [TripleStore._abox] yields one triple for
    each row, in order, and raises nothing; the literal of the triple is
    [True] whenever the lexical form is not empty, so a value stored as
    [false] is read as [True]. *)
Theorem abox_boolean_literals_read_true post vars_ bindings str_iri :
  post = Ret (TripleStore.Json vars_ bindings) →
  Forall boolean_row bindings →
  ∃ items,
    _abox py_int py_float post str_iri = (items, None)
    ∧ Forall2 (stated_by str_iri) bindings items
    ∧ ∀ i binding o,
        bindings !! i = Some binding → PyDict.get binding "o" = Some o →
        TripleStore.b_value o ≠ EmptyString →
        ∃ subject_ predicate,
          items !! i = Some (subject_, predicate, OWLLiteral (PyBool true)).
Proof.
  intros -> Hall. unfold _abox.
  induction Hall as [|binding rest (p & o & Hp & Ho & Hne & Ht & Hd) Hrest IH].
  - exists []. split_and!; [done|constructor|].
    intros i binding o Hi. by rewrite lookup_nil in Hi.
  - destruct IH as (items & Hitems & Hst & Htrue).
    cbn [abox_rows].
    rewrite (abox_row_boolean _ _ p o) by done. rewrite Hitems.
    eexists; split_and!; [reflexivity| |].
    + constructor; [|done]. exists p, o. split_and!; done.
    + intros [|i] binding' o' Hi Ho' Hv; simpl in Hi.
      * injection Hi as <-. rewrite Ho in Ho'. injection Ho' as <-.
        do 2 eexists. simpl. do 4 f_equal. unfold py_bool.
        by destruct (String.eqb_spec (TripleStore.b_value o) EmptyString).
      * simpl. by apply (Htrue i binding' o').
Qed.
End ABoxFacts.

Lemma abox_boolean_literals_read_true_witness :
  ∃ items,
    TripleStoreABox._abox (λ _, Ret 0%Z) (λ _, Ret 0%Q)
      (Ret (TripleStore.Json ["p"; "o"] [TripleStoreABox.example_false_row]))
      "http://ex/a" = (items, None)
    ∧ ∃ subject_ predicate,
        items !! 0 = Some (subject_, predicate,
                           TripleStoreABox.OWLLiteral (TripleStoreABox.PyBool true)).
Proof.
  destruct (abox_boolean_literals_read_true (λ _, Ret 0%Z) (λ _, Ret 0%Q)
              _ ["p"; "o"] [TripleStoreABox.example_false_row] "http://ex/a"
              eq_refl) as (items & Hitems & _ & Htrue).
  - constructor; [|constructor].
    eexists _, _. split_and!; [reflexivity|reflexivity|discriminate|reflexivity|reflexivity].
  - exists items. split; [exact Hitems|].
    apply (Htrue 0 TripleStoreABox.example_false_row
             (TripleStore.typed_literal "false" TripleStoreABox.xsd_boolean));
      [reflexivity|reflexivity|discriminate].
Defined.

(** ** [BaseConceptLearner.extend_ontology]
    (ontolearn/base_concept_learner.py) *)
Section ExtendOntologyFacts.
Context {Concept : Type}.
Variable apply_type_enrichment : Concept → res unit.
Variable save : DL.str → res unit.
Import DL BaseLearner.

Lemma rfind_from_absent (s : str) i found :
  SLASH ∉ s → rfind_from s i found = found.
Proof.
  revert i found. induction s as [|c s IH]; intros i found Hn; simpl; [done|].
  apply not_elem_of_cons in Hn as [Hc Hs].
  destruct (N.eqb_spec c SLASH) as [->|_]; [done|]. by apply IH.
Qed.

Lemma rfind_from_last (dir base : str) i found :
  SLASH ∉ base →
  rfind_from (dir ++ SLASH :: base) i found = (i + Z.of_nat (length dir))%Z.
Proof.
  intros Hn. revert i found.
  induction dir as [|c dir IH]; intros i found; cbn [app rfind_from length].
  - rewrite N.eqb_refl, rfind_from_absent by done. lia.
  - rewrite IH. lia.
Qed.

Lemma enrich_from_all nodes top_n_concepts ith enriched :
  (∀ c, c ∈ nodes → apply_type_enrichment c = Ret tt) →
  enrich_from apply_type_enrichment ith nodes top_n_concepts enriched
  = (enriched ++ take (Z.to_nat (top_n_concepts + 1) - ith) nodes, Ret tt).
Proof.
  revert ith enriched.
  induction nodes as [|c rest IH]; intros ith enriched Hok; simpl.
  - by rewrite take_nil, app_nil_r.
  - destruct (Z.leb_spec (Z.of_nat ith) top_n_concepts) as [Hle|Hgt].
    + rewrite Hok by (by left). rewrite IH by (intros c' Hc'; apply Hok; by right).
      rewrite <- app_assoc. simpl.
      replace (Z.to_nat (top_n_concepts + 1) - ith)
        with (S (Z.to_nat (top_n_concepts + 1) - S ith)) by lia.
      done.
    + replace (Z.to_nat (top_n_concepts + 1) - ith) with 0 by lia.
      by rewrite app_nil_r.
Qed.

(** X26.  When the enrichment of a concept does not fail,
    [extend_ontology] enriches the first [top_n_concepts + 1] concepts of
    the sorted search tree, one more than asked for (all of them when
    there are fewer, none when the number is negative).  The ontology is
    then saved under [enriched_<name>.owl] in the
    directory of the path of the knowledge base; for a path without a
    slash the directory is taken to be the path without its last
    character. *)
Theorem extend_ontology_enriches_one_more search_tree kb_path kb_name
    top_n_concepts :
  (∀ c, c ∈ search_tree → apply_type_enrichment c = Ret tt) →
  ∃ saved,
    extend_ontology apply_type_enrichment save search_tree kb_path kb_name
      top_n_concepts
    = (take (Z.to_nat (top_n_concepts + 1)) search_tree, Some saved, save saved)
    ∧ (∀ dir base, kb_path = dir ++ SLASH :: base → SLASH ∉ base →
         saved = dir ++ lit "/enriched_" ++ kb_name ++ lit ".owl")
    ∧ (SLASH ∉ kb_path →
         saved = take (length kb_path - 1) kb_path
                 ++ lit "/enriched_" ++ kb_name ++ lit ".owl").
Proof.
  intros Hok. unfold extend_ontology.
  rewrite enrich_from_all by done. rewrite Nat.sub_0_r. simpl.
  eexists; split_and!; [reflexivity| |].
  - intros dir base -> Hn. unfold rfind. rewrite rfind_from_last by done.
    unfold slice_to. destruct (Z.ltb_spec (0 + Z.of_nat (length dir)) 0); [lia|].
    replace (Z.to_nat (0 + Z.of_nat (length dir))) with (length dir) by lia.
    rewrite take_app_length. by rewrite <- !app_assoc.
  - intros Hn. unfold rfind. rewrite rfind_from_absent by done.
    unfold slice_to. simpl.
    replace (Z.to_nat (Z.of_nat (length kb_path) + -1)) with (length kb_path - 1)
      by lia.
    by rewrite <- !app_assoc.
Qed.
End ExtendOntologyFacts.

Lemma extend_ontology_enriches_one_more_witness :
  ∃ saved,
    BaseLearner.extend_ontology (λ _ : nat, Ret tt) (λ _, Ret tt)
      [1; 2; 3; 4] (DL.lit "data/family.owl") (DL.lit "family") 2
    = ([1; 2; 3], Some saved, Ret tt)
    ∧ saved = DL.lit "data/enriched_family.owl".
Proof.
  destruct (extend_ontology_enriches_one_more (λ _ : nat, Ret tt) (λ _, Ret tt)
              [1; 2; 3; 4] (DL.lit "data/family.owl") (DL.lit "family") 2)
    as (saved & Hs & Hdir & _); [done|].
  exists saved. split; [exact Hs|].
  apply (Hdir (DL.lit "data") (DL.lit "family.owl")); [reflexivity|].
  vm_compute. intros Hin. repeat (apply elem_of_cons in Hin as [Hin|Hin]; [done|]).
  by apply elem_of_nil in Hin.
Defined.

(** ** Recency under LRU (ontolearn/semantic_caching.py) *)
Section RecencyFacts.
Context {K V : Type} `{EqDecision K}.
Variable rand_index : Z → nat → nat.
Import SemanticCaching CacheRuns.
Implicit Types (c : @CacheWithEviction K V).

Lemma dict_elem_of_set_ne {W : Type} (d : list (K * W)) k w k' w' :
  k' ≠ k → (k', w') ∈ d → (k', w') ∈ PyDict.set d k w.
Proof.
  intros Hne. induction d as [|[k0 w0] d IH]; simpl; [by intros ?%elem_of_nil|].
  intros [Heq|Hin]%elem_of_cons.
  - injection Heq as <- <-. destruct (decide (k' = k)); [done|]. by left.
  - destruct (decide (k0 = k)); right; [done|by apply IH].
Qed.

Lemma dict_elem_of_set_eq {W : Type} (d : list (K * W)) k w :
  (k, w) ∈ PyDict.set d k w.
Proof.
  induction d as [|[k0 w0] d IH]; simpl; [by left|].
  destruct (decide (k0 = k)); [by left|by right].
Qed.

Lemma dict_value_unique {W : Type} (d : list (K * W)) k a b :
  NoDup (PyDict.keys d) → (k, a) ∈ d → (k, b) ∈ d → a = b.
Proof.
  induction d as [|[k0 w0] d IH]; [by intros _ ?%elem_of_nil|].
  rewrite dict_keys_cons. intros [Hn Hnd]%NoDup_cons.
  intros [Ha|Ha]%elem_of_cons [Hb|Hb]%elem_of_cons.
  - congruence.
  - injection Ha as -> ->. exfalso. by apply Hn, (elem_of_dict_keys d k0 b).
  - injection Hb as -> ->. exfalso. by apply Hn, (elem_of_dict_keys d k0 a).
  - by apply IH.
Qed.

Lemma dict_get_remove_ne {W : Type} (d : list (K * W)) k k' :
  k ≠ k' → PyDict.get (PyDict.remove d k) k' = PyDict.get d k'.
Proof.
  intros Hne. induction d as [|[k0 w0] d IH]; simpl; [done|].
  destruct (decide (k0 = k)) as [->|Hk0]; simpl.
  - by rewrite decide_False.
  - by rewrite IH.
Qed.

Ltac cache_fields :=
  cbn [cache access_times cache_size strategy random_seed initialized
       with_cache with_access_times with_initialized] in *.

(** X27.  A hit protects an entry under LRU.  When [get] finds a key at a
    time that is later than the time stamp of some other entry, the [put]
    of a new key that follows does not evict the key that was read: its
    value is still held, whether the cache was over its capacity or
    not. *)
Theorem get_protects_from_lru_eviction c now now' k k' t' key value :
  well_formed c → strategy c = "LRU" →
  PyDict.contains (cache c) k = true →
  (k', t') ∈ access_times c → k' ≠ k → (t' < now)%Q →
  PyDict.contains (cache c) key = false →
  ∃ c2, put rand_index (get c now k).2 now' key value = Ret c2
        ∧ is_Some (PyDict.get (cache c2) k)
        ∧ PyDict.get (cache c2) k = PyDict.get (cache c) k.
Proof.
  intros Hwf Hs Hk Hk' Hne Hlt Hkey.
  pose proof (get_well_formed c now k Hwf) as [Hwf1 Hc1].
  assert (Ht1 : access_times (get c now k).2 = PyDict.set (access_times c) k now).
  { unfold get. rewrite Hk. unfold tracks_access. by rewrite Hs. }
  assert (Hs1 : strategy (get c now k).2 = "LRU").
  { unfold get. rewrite Hk. unfold tracks_access. by rewrite Hs. }
  remember (get c now k).2 as c1 eqn:Ec1. clear Ec1.
  destruct Hwf1 as (Hnd & Hsz & Hbound & Htr).
  assert (Ht : tracks_access c1 = true) by (apply tracks_access_iff; by left).
  destruct (Htr Ht) as [Hnda Heq].
  apply dict_contains_true in Hk. apply dict_contains_false in Hkey.
  assert (Hkk : key ≠ k) by (intros ->; done).
  assert (Hsome : is_Some (PyDict.get (cache c) k)) by by apply dict_get_is_Some.
  unfold put. rewrite Hc1, (proj2 (dict_contains_false _ _) Hkey). simpl mbind.
  destruct (decide (Z.of_nat (length (cache c1)) > cache_size c1)%Z) as [Hgt|Hle].
  - assert (Hin : (k, now) ∈ access_times c1)
      by (rewrite Ht1; apply dict_elem_of_set_eq).
    assert (Hane : access_times c1 ≠ []).
    { intros E. rewrite E in Hin. by apply elem_of_nil in Hin. }
    destruct (py_min_key_least _ Hane) as (km & Hmin & (tm & Hkm & Hleast)).
    assert (Hkm' : km ≠ k).
    { intros ->.
      assert (tm = now) as -> by by apply (dict_value_unique (access_times c1) k).
      assert (Hle : (now <= t')%Q).
      { apply (Hleast k'). rewrite Ht1. by apply dict_elem_of_set_ne. }
      by apply (Qlt_not_le t' now). }
    apply elem_of_dict_keys in Hkm.
    unfold _evict. rewrite (evict_over _ Hgt), Hs1. simpl String.eqb. cbv iota.
    rewrite Hmin. simpl mbind.
    rewrite (dict_del_contained (cache c1) km) by by apply Heq. simpl mbind.
    rewrite (dict_del_contained (access_times c1) km) by done. simpl mbind.
    cbv zeta. unfold tracks_access. cache_fields. rewrite Hs1. simpl.
    eexists. split; [reflexivity|]. cache_fields.
    rewrite dict_get_set_ne, dict_get_remove_ne, Hc1 by done. by split.
  - rewrite (evict_not_over rand_index) by lia. simpl mbind.
    cbv zeta. unfold tracks_access. cache_fields. rewrite Hs1. simpl.
    eexists. split; [reflexivity|]. cache_fields.
    rewrite dict_get_set_ne, Hc1 by done. by split.
Qed.
End RecencyFacts.

Lemma get_protects_from_lru_eviction_witness :
  ∃ c2, SemanticCaching.put (λ _ _, 0%nat)
          (SemanticCaching.get CacheRuns.example_lru_cache 5%Q "b").2 6%Q "c" 3%nat
        = Ret c2
        ∧ is_Some (PyDict.get (SemanticCaching.cache c2) "b")
        ∧ PyDict.get (SemanticCaching.cache c2) "b"
          = PyDict.get (SemanticCaching.cache CacheRuns.example_lru_cache) "b".
Proof.
  apply (get_protects_from_lru_eviction (λ _ _, 0%nat) CacheRuns.example_lru_cache
           5%Q 6%Q "b" "a" 3%Q "c" 3%nat).
  - exact example_lru_cache_well_formed.
  - reflexivity.
  - reflexivity.
  - by left.
  - discriminate.
  - reflexivity.
  - reflexivity.
Defined.

(** ** The window of keys under FIFO (ontolearn/semantic_caching.py) *)
Section FifoWindowFacts.
Context {K V : Type} `{EqDecision K}.
Variable rand_index : Z → nat → nat.
Import SemanticCaching CacheRuns.
Implicit Types (c : @CacheWithEviction K V).

Ltac cache_fields :=
  cbn [cache access_times cache_size strategy random_seed initialized
       with_cache with_access_times with_initialized] in *.

Lemma put_fifo_new_key c now key value :
  strategy c = "FIFO" → (0 ≤ cache_size c)%Z →
  key ∉ PyDict.keys (cache c) →
  ∃ c', put rand_index c now key value = Ret c'
        ∧ strategy c' = "FIFO" ∧ cache_size c' = cache_size c
        ∧ cache c' = (if (Z.of_nat (length (cache c)) >? cache_size c)%Z
                      then tail (cache c) else cache c) ++ [(key, value)].
Proof.
  intros Hs Hsz Hnotin. unfold put.
  rewrite (proj2 (dict_contains_false _ _) Hnotin). simpl mbind.
  unfold _evict. destruct (Z.gtb_spec (Z.of_nat (length (cache c))) (cache_size c))
    as [Hgt|Hle].
  - rewrite Hs. simpl String.eqb. cbv iota.
    destruct (cache c) as [|[k0 v0] d] eqn:Ec; [simpl in Hgt; lia|]. simpl mbind.
    cbv zeta. unfold tracks_access. cache_fields. rewrite Hs. simpl.
    eexists. split; [reflexivity|]. cache_fields. split_and!; [done|done|].
    apply dict_set_notin. rewrite dict_keys_cons in Hnotin.
    by apply not_elem_of_cons in Hnotin as [_ ?].
  - simpl mbind. cbv zeta. unfold tracks_access. cache_fields. rewrite Hs. simpl.
    eexists. split; [reflexivity|]. cache_fields. split_and!; [done|done|].
    by apply dict_set_notin.
Qed.

(** X28.  Under FIFO the cache holds a window of the keys put: when the
    keys put are new and different from each other, after any run of
    [put] calls the keys held are the last [cache_size + 1] of the keys
    held before followed by the keys put, in this order. *)
Theorem fifo_keeps_most_recent_keys c (ops : list (Q * K * V)) :
  strategy c = "FIFO" → (0 ≤ cache_size c)%Z →
  (Z.of_nat (length (cache c)) ≤ cache_size c + 1)%Z →
  NoDup (PyDict.keys (cache c) ++ ops.*1.*2) →
  ∃ c', put_all rand_index c ops = Ret c'
        ∧ PyDict.keys (cache c')
          = drop (length (PyDict.keys (cache c) ++ ops.*1.*2)
                  - Z.to_nat (cache_size c + 1))
              (PyDict.keys (cache c) ++ ops.*1.*2).
Proof.
  revert c. induction ops as [|[[now key] value] ops IH]; intros c Hs Hsz Hlen Hnd.
  - exists c. split; [done|]. simpl. rewrite app_nil_r.
    unfold PyDict.keys in *. rewrite length_fmap.
    replace (length (cache c) - Z.to_nat (cache_size c + 1)) with 0 by lia. done.
  - cbn [put_all fmap list_fmap fst snd] in *.
    assert (Hnotin : key ∉ PyDict.keys (cache c)).
    { apply NoDup_app in Hnd as (_ & Hdis & _). intros Hin.
      apply (Hdis key Hin). by left. }
    destruct (put_fifo_new_key c now key value Hs Hsz Hnotin)
      as (c1 & Hput & Hs1 & Hsz1 & Hc1).
    rewrite Hput. simpl mbind.
    assert (Hk1 : PyDict.keys (cache c1)
                  = (if (Z.of_nat (length (cache c)) >? cache_size c)%Z
                     then tail (PyDict.keys (cache c)) else PyDict.keys (cache c))
                    ++ [key]).
    { rewrite Hc1. unfold PyDict.keys. rewrite fmap_app. simpl.
      destruct (Z.of_nat (length (cache c)) >? cache_size c)%Z; [|done].
      by destruct (cache c). }
    assert (Hl : length (PyDict.keys (cache c)) = length (cache c))
      by (unfold PyDict.keys; by rewrite length_fmap).
    destruct (IH c1) as (c' & Hall & Hkeys).
    + done.
    + lia.
    + rewrite Hc1, length_app. simpl.
      destruct (Z.gtb_spec (Z.of_nat (length (cache c))) (cache_size c)).
      * destruct (cache c); simpl in *; lia.
      * lia.
    + rewrite Hk1, <- app_assoc. simpl.
      destruct (Z.of_nat (length (cache c)) >? cache_size c)%Z; [|done].
      destruct (PyDict.keys (cache c)) as [|k0 ks]; [done|]. simpl in *.
      by apply NoDup_cons in Hnd as [_ ?].
    + exists c'. split; [done|]. rewrite Hkeys, Hsz1, Hk1, <- app_assoc. simpl.
      destruct (Z.gtb_spec (Z.of_nat (length (cache c))) (cache_size c)) as [Hgt|Hle];
        [|done].
      destruct (PyDict.keys (cache c)) as [|k0 ks] eqn:Ek; [simpl in Hl; lia|].
      cbn [tail app length]. rewrite !length_app. cbn [length].
      simpl in Hl.
      replace (S (length ks + S (length ops.*1.*2)) - Z.to_nat (cache_size c + 1))
        with (S (length ks + S (length ops.*1.*2) - Z.to_nat (cache_size c + 1)))
        by lia.
      done.
Qed.
End FifoWindowFacts.

Lemma fifo_keeps_most_recent_keys_witness :
  ∃ c', SemanticCaching.put_all (λ _ _, 0%nat)
          (SemanticCaching.init 1 "FIFO" 10)
          [(1%Q, "a", 1%nat); (2%Q, "b", 2%nat); (3%Q, "c", 3%nat); (4%Q, "d", 4%nat)]
        = Ret c'
        ∧ PyDict.keys (SemanticCaching.cache c') = ["c"; "d"].
Proof.
  apply (fifo_keeps_most_recent_keys (λ _ _, 0%nat)
           (SemanticCaching.init 1 "FIFO" 10)
           [(1%Q, "a", 1%nat); (2%Q, "b", 2%nat); (3%Q, "c", 3%nat); (4%Q, "d", 4%nat)]).
  - reflexivity.
  - simpl. lia.
  - simpl. lia.
  - simpl. repeat (apply NoDup_cons; split;
                     [rewrite ?elem_of_cons, elem_of_nil; intuition discriminate|]).
    apply NoDup_nil_2.
Defined.
